(** * LogiScan: manifest parser and reconciliation engine

    A shallow embedding of [src/utils/matchingAlgorithm.ts] and of
    [parsePackageList] in its latest revision ([unnamed/part_010]), together
    with the properties stated about them in the specification, and of the
    session code that calls them.

    JavaScript strings are sequences of UTF-16 code units; they are modelled
    as lists of code units ([N]), so that the whitespace class of [trim] and
    of the regular expression escape [\s] can be written out in full.
    A [Set<string>] is a [gset jsstring]. *)

From Stdlib Require Import NArith ZArith QArith_base String Ascii List Lia.
From Stdlib Require Import DecimalString.
From stdpp Require Import gmap list.

Local Open Scope string_scope.
Local Open Scope list_scope.
Local Open Scope N_scope.

(* ===================================================================== *)
(** * Part I: definitions                                                  *)
(* ===================================================================== *)

(** ** Strings *)

Definition char := N.
Definition jsstring := list char.

(** A string literal of the source, as code units. *)
Definition js (s : string) : jsstring :=
  map N_of_ascii (list_ascii_of_string s).

(** ** JavaScript string primitives used by the parser *)

(** The class [\s] of a regular expression, which is also what [trim]
    removes: WhiteSpace and LineTerminator code points. *)
Definition isSpace (c : char) : bool :=
  existsb (N.eqb c)
    [9; 10; 11; 12; 13; 32; 160; 5760; 8232; 8233; 8239; 8287; 12288; 65279]
  || ((8192 <=? c) && (c <=? 8202)).

(** [\d] *)
Definition isDigit (c : char) : bool := (48 <=? c) && (c <=? 57).

Definition isUpper (c : char) : bool := (65 <=? c) && (c <=? 90).
Definition isLower (c : char) : bool := (97 <=? c) && (c <=? 122).

(** [[A-Z]] under the flag [i] (without the flag [u]): exactly the ASCII
    letters, since a code unit above 127 is never canonicalized to one
    below 128. *)
Definition isLetter (c : char) : bool := isUpper c || isLower c.

(** The characters [.] does not match. *)
Definition isLineTerminator (c : char) : bool :=
  existsb (N.eqb c) [10; 13; 8232; 8233].

(** [toUpperCase], on the ASCII letters. The source applies it to the text
    captured by the apartment pattern only, which is made of ASCII letters
    and digits. *)
Definition toUpperChar (c : char) : char := if isLower c then c - 32 else c.
Definition toUpperCase (s : jsstring) : jsstring := map toUpperChar s.

(** A literal letter of a pattern under the flag [i]; [u] is its upper
    case. *)
Definition ciChar (u c : char) : bool := toUpperChar c =? u.

Fixpoint dropWhile (f : char -> bool) (s : jsstring) : jsstring :=
  match s with
  | [] => []
  | c :: s' => if f c then dropWhile f s' else s
  end.

Fixpoint takeWhile (f : char -> bool) (s : jsstring) : jsstring :=
  match s with
  | [] => []
  | c :: s' => if f c then c :: takeWhile f s' else []
  end.

Definition trimStart (s : jsstring) : jsstring := dropWhile isSpace s.
Definition trimEnd (s : jsstring) : jsstring := rev (dropWhile isSpace (rev s)).
Definition trim (s : jsstring) : jsstring := trimEnd (trimStart s).

(** Adds a character in front of the first piece of a split. *)
Definition consFirst (c : char) (ws : list jsstring) : list jsstring :=
  match ws with
  | [] => [[c]]
  | w :: ws' => (c :: w) :: ws'
  end.

(** [s.split(sep)] for a separator of one character. *)
Fixpoint splitChar (sep : char) (s : jsstring) : list jsstring :=
  match s with
  | [] => [[]]
  | c :: s' =>
      if c =? sep then [] :: splitChar sep s'
      else consFirst c (splitChar sep s')
  end.

(** [s.split(' - ')]: the occurrences of the separator are taken from left
    to right, without overlap. *)
Fixpoint splitDash (s : jsstring) : list jsstring :=
  match s with
  | [] => [[]]
  | c :: s' =>
      match s' with
      | d :: e :: rest =>
          if (c =? 32) && (d =? 45) && (e =? 32)
          then [] :: splitDash rest
          else consFirst c (splitDash s')
      | _ => consFirst c (splitDash s')
      end
  end.

(** [s.split(/\s+/)]: the separators are the maximal runs of whitespace; a
    run at the start or at the end leaves an empty piece there. [inSep]
    tells that the character before was part of a separator. *)
Fixpoint splitSpacesFrom (inSep : bool) (s : jsstring) : list jsstring :=
  match s with
  | [] => [[]]
  | c :: s' =>
      if isSpace c
      then if inSep then splitSpacesFrom true s'
           else [] :: splitSpacesFrom true s'
      else consFirst c (splitSpacesFrom false s')
  end.

Definition splitSpaces (s : jsstring) : list jsstring := splitSpacesFrom false s.

(** [s.split(/\s{2,}/)]: the separators are the maximal runs of two or more
    whitespace characters; a single one stays in its piece. *)
Fixpoint splitWideFrom (inSep : bool) (s : jsstring) : list jsstring :=
  match s with
  | [] => [[]]
  | c :: s' =>
      if isSpace c
      then if inSep then splitWideFrom true s'
           else match s' with
                | c2 :: _ =>
                    if isSpace c2 then [] :: splitWideFrom true s'
                    else consFirst c (splitWideFrom false s')
                | [] => consFirst c (splitWideFrom false s')
                end
      else consFirst c (splitWideFrom false s')
  end.

Definition splitWide (s : jsstring) : list jsstring := splitWideFrom false s.

(** [pieces.join(' ')] *)
Fixpoint joinSpace (ws : list jsstring) : jsstring :=
  match ws with
  | [] => []
  | [w] => w
  | w :: ws' => w ++ js " " ++ joinSpace ws'
  end.

(** [s.indexOf(c)], [None] for [-1]. *)
Fixpoint indexOfFrom (i : nat) (c : char) (s : jsstring) : option nat :=
  match s with
  | [] => None
  | x :: s' => if x =? c then Some i else indexOfFrom (S i) c s'
  end.

Definition indexOf (c : char) (s : jsstring) : option nat := indexOfFrom 0 c s.

(** [s.includes(c)] *)
Definition includes (c : char) (s : jsstring) : bool := existsb (N.eqb c) s.

(** [s.slice(-4)] *)
Definition sliceLast4 (s : jsstring) : jsstring := drop (length s - 4) s.

(** Decimal rendering of a length inside a template string. *)
Definition decimal (n : nat) : jsstring :=
  js (NilEmpty.string_of_uint (Nat.to_uint n)).

Definition dquote : jsstring := [34].
Definition TAB : char := 9.
Definition NEWLINE : char := 10.

(** ** The regular expressions of the parser *)

(** [/\s+-\s+(#\d+)/] at the start of [s]. Whitespace, the dash and the hash
    are disjoint classes, so each [\s+] takes its whole run. *)
Definition carrierRefAt (s : jsstring) : bool :=
  match s with
  | c :: _ =>
      isSpace c &&
      match dropWhile isSpace s with
      | d :: s2 =>
          (d =? 45) &&
          match s2 with
          | c2 :: _ =>
              isSpace c2 &&
              match dropWhile isSpace s2 with
              | h :: g :: _ => (h =? 35) && isDigit g
              | _ => false
              end
          | [] => false
          end
      | [] => false
      end
  | [] => false
  end.

(** [s.match(/\s+-\s+(#\d+)/)]: the [index] of the leftmost match. *)
Fixpoint carrierRefFrom (i : nat) (s : jsstring) : option nat :=
  match s with
  | [] => None
  | _ :: s' => if carrierRefAt s then Some i else carrierRefFrom (S i) s'
  end.

Definition carrierRefMatch (s : jsstring) : option nat := carrierRefFrom 0 s.

(** [s.match(/^([A-Z]\d{2}[A-Z])/i)]: the captured group, which is also the
    whole match. *)
Definition apartmentMatch (s : jsstring) : option jsstring :=
  match s with
  | a :: b :: c :: d :: _ =>
      if isLetter a && isDigit b && isDigit c && isLetter d
      then Some [a; b; c; d]
      else None
  | _ => None
  end.

(** [s.replace(/^Unit\s+/i, '')] *)
Definition stripUnit (s : jsstring) : jsstring :=
  match s with
  | u :: n :: i :: t :: w :: rest =>
      if ciChar 85 u && ciChar 78 n && ciChar 73 i && ciChar 84 t && isSpace w
      then dropWhile isSpace rest
      else s
  | _ => s
  end.

(** A literal word of a pattern under the flag [i], at the start of [s]:
    the text after it. [word] is in upper case. *)
Fixpoint afterWord (word s : jsstring) : option jsstring :=
  match word with
  | [] => Some s
  | u :: word' =>
      match s with
      | c :: s' => if ciChar u c then afterWord word' s' else None
      | [] => None
      end
  end.

(** [\s+] at the start of [s]: the text after the whole run. *)
Definition afterSpaces (s : jsstring) : option jsstring :=
  match s with
  | c :: _ => if isSpace c then Some (dropWhile isSpace s) else None
  | [] => None
  end.

(** [NO\s+(?:TRACKING|TRK)] at the start of [s]: the text after it. The two
    words differ in their third letter, so at most one alternative
    applies. *)
Definition afterNoTracking (s : jsstring) : option jsstring :=
  match afterWord (js "NO") s with
  | Some r =>
      match afterSpaces r with
      | Some r1 =>
          match afterWord (js "TRACKING") r1 with
          | Some r2 => Some r2
          | None => afterWord (js "TRK") r1
          end
      | None => None
      end
  | None => None
  end.

(** [\s+NUMBER] at the start of [s]: the text after it. *)
Definition afterNumber (s : jsstring) : option jsstring :=
  match afterSpaces s with
  | Some r => afterWord (js "NUMBER") r
  | None => None
  end.

(** [/^(NO\s+TRACKING|NO\s+TRK|NO\s+TRACKING\s+NUMBER)/i.test(s)] *)
Definition noTrackingPatterns (s : jsstring) : bool :=
  match afterWord (js "NO") s with
  | Some r =>
      match afterSpaces r with
      | Some r1 =>
          bool_decide (is_Some (afterWord (js "TRACKING") r1))
          || bool_decide (is_Some (afterWord (js "TRK") r1))
          || match afterWord (js "TRACKING") r1 with
             | Some r2 => bool_decide (is_Some (afterNumber r2))
             | None => false
             end
      | None => false
      end
  | None => false
  end.

Definition isDashOrSpace (c : char) : bool := (c =? 45) || isSpace c.
Definition notLineTerminator (c : char) : bool := negb (isLineTerminator c).

(** [\s+[-\s]*(.+)] at the start of [r]: the text captured by [(.+)].
    After the first whitespace character the greedy [\s+[-\s]*] takes the
    whole run of dashes and whitespace; what follows the run cannot be a
    line terminator, so [(.+)] starts there. When nothing follows the run,
    the matcher backtracks and [(.+)] takes the last character of the run,
    other than the first one, that is not a line terminator. *)
Definition recipientGroup (r : jsstring) : option jsstring :=
  match r with
  | c :: r' =>
      if isSpace c
      then match dropWhile isDashOrSpace r' with
           | [] =>
               match last (List.filter notLineTerminator r') with
               | Some x => Some [x]
               | None => None
               end
           | rest => Some (takeWhile notLineTerminator rest)
           end
      else None
  | [] => None
  end.

(** [s.match(/^(NO\s+(?:TRACKING|TRK)(?:\s+NUMBER)?)\s+[-\s]*(.+)/i)]: the
    two captured groups. The optional [\s+NUMBER] is tried first; when the
    rest of the pattern fails after it, the match is retried without it.
    The first group is the part of [s] read before the rest of the
    pattern. *)
Definition noTrackMatch (s : jsstring) : option (jsstring * jsstring) :=
  match afterNoTracking s with
  | Some r =>
      let withNumber :=
        match afterNumber r with
        | Some r2 =>
            match recipientGroup r2 with
            | Some g2 => Some (take (length s - length r2) s, g2)
            | None => None
            end
        | None => None
        end in
      match withNumber with
      | Some m => Some m
      | None =>
          match recipientGroup r with
          | Some g2 => Some (take (length s - length r) s, g2)
          | None => None
          end
      end
  | None => None
  end.

(** ** Data model ([src/types/models.ts]) *)

Inductive PackageStatus := pending | found | verified | not_found.
Inductive DetectionStatus := matched | duplicate | orphan | unreadable | ambiguous.

Global Instance PackageStatus_eq_dec : EqDecision PackageStatus.
Proof. solve_decision. Defined.
Global Instance DetectionStatus_eq_dec : EqDecision DetectionStatus.
Proof. solve_decision. Defined.

Record BoundingBox := mkBoundingBox {
  x : Q; y : Q; width : Q; height : Q
}.

(** [id] and [status] exist on both interfaces; they carry the prefix of
    their record here. *)
Record Package := mkPackage {
  pkg_id : jsstring;
  apartment : jsstring;
  trackingLast4 : jsstring;
  carrier : jsstring;
  recipient : jsstring;
  fullTracking : jsstring;
  importedAt : N;
  pkg_status : PackageStatus
}.

(** A detection refers to its bounding box, which is an object of its own.
    [DetectionOf Box] leaves open what the reference is: the box itself
    ([Detection], where objects are values) or a location in a store of
    objects. *)
Record DetectionOf (Box : Type) := mkDetection {
  det_id : jsstring;
  photoId : jsstring;
  boundingBox : Box;
  rawText : jsstring;
  parsedApartment : option jsstring;
  parsedLast4 : option jsstring;
  parsedDate : option jsstring;
  parsedInitials : option jsstring;
  confidence : Q;
  matchedPackageId : option jsstring;
  det_status : DetectionStatus;
  notes : option jsstring
}.
Arguments mkDetection {Box}.
Arguments det_id {Box}.
Arguments photoId {Box}.
Arguments boundingBox {Box}.
Arguments rawText {Box}.
Arguments parsedApartment {Box}.
Arguments parsedLast4 {Box}.
Arguments parsedDate {Box}.
Arguments parsedInitials {Box}.
Arguments confidence {Box}.
Arguments matchedPackageId {Box}.
Arguments det_status {Box}.
Arguments notes {Box}.

Abbreviation Detection := (DetectionOf BoundingBox).

Definition setPkgStatus (s : PackageStatus) (p : Package) : Package :=
  mkPackage (pkg_id p) (apartment p) (trackingLast4 p) (carrier p)
            (recipient p) (fullTracking p) (importedAt p) s.

Definition setDetStatus {Box} (s : DetectionStatus) (d : DetectionOf Box)
  : DetectionOf Box :=
  mkDetection (det_id d) (photoId d) (boundingBox d) (rawText d)
              (parsedApartment d) (parsedLast4 d) (parsedDate d)
              (parsedInitials d) (confidence d) (matchedPackageId d) s (notes d).

Definition setMatchedPackageId {Box} (m : option jsstring) (d : DetectionOf Box)
  : DetectionOf Box :=
  mkDetection (det_id d) (photoId d) (boundingBox d) (rawText d)
              (parsedApartment d) (parsedLast4 d) (parsedDate d)
              (parsedInitials d) (confidence d) m (det_status d) (notes d).

Definition setNotes {Box} (n : option jsstring) (d : DetectionOf Box)
  : DetectionOf Box :=
  mkDetection (det_id d) (photoId d) (boundingBox d) (rawText d)
              (parsedApartment d) (parsedLast4 d) (parsedDate d)
              (parsedInitials d) (confidence d) (matchedPackageId d)
              (det_status d) n.

(** The same detection with another reference to its box. *)
Definition withBox {A B} (d : DetectionOf A) (b : B) : DetectionOf B :=
  mkDetection (det_id d) (photoId d) b (rawText d)
              (parsedApartment d) (parsedLast4 d) (parsedDate d)
              (parsedInitials d) (confidence d) (matchedPackageId d)
              (det_status d) (notes d).

(** ** The reconciliation engine ([src/utils/matchingAlgorithm.ts]) *)

(** JavaScript truthiness of a [string | null] (or [string | undefined])
    value: [null] and the empty string are falsy. *)
Definition truthy (s : option jsstring) : bool :=
  match s with
  | Some (_ :: _) => true
  | _ => false
  end.

(** The template string [`${apartment}:${last4}`]. *)
Definition comboKey (a l : jsstring) : jsstring := a ++ js ":" ++ l.

Definition isClaimed (p : Package) : bool :=
  match pkg_status p with
  | found | verified => true
  | _ => false
  end.

(** [forEach] over the packages, adding the key of every found or verified
    one to the set. *)
Definition addClaimed (mc : gset jsstring) (ps : list Package) : gset jsstring :=
  foldl (fun acc p =>
           if isClaimed p
           then {[ comboKey (apartment p) (trackingLast4 p) ]} ∪ acc
           else acc) mc ps.

(** The predicate of [updatedPackages.filter(...)]. *)
Definition isMatch (a l : jsstring) (p : Package) : bool :=
  bool_decide (apartment p = a) && bool_decide (trackingLast4 p = l)
  && bool_decide (pkg_status p = pending).

(** [filter] returns references to the elements of [updatedPackages]: a
    reference is the position of the object in that array, paired here with
    the object it denotes at the time of the call. *)
Fixpoint matchingFrom (i : nat) (a l : jsstring) (ps : list Package)
  : list (nat * Package) :=
  match ps with
  | [] => []
  | p :: ps' =>
      if isMatch a l p then (i, p) :: matchingFrom (S i) a l ps'
      else matchingFrom (S i) a l ps'
  end.

Definition matchingPackages (a l : jsstring) (ps : list Package)
  : list (nat * Package) :=
  matchingFrom 0 a l ps.

Definition noteAmbiguous : jsstring :=
  js "Multiple packages match this apartment and tracking number.".
Definition noteOrphan : jsstring :=
  js "Sticker not found in imported package list.".

(** [detection.notes ? `${detection.notes}. ${msg}` : msg] *)
Definition appendNote {Box} (d : DetectionOf Box) (msg : jsstring)
  : option jsstring :=
  if truthy (notes d)
  then Some (default [] (notes d) ++ js ". " ++ msg)
  else Some msg.

(** The state threaded through [updatedDetections.forEach]: the working
    copies of the packages and the set of claimed combinations. *)
Record MatchState := mkMatchState {
  st_packages : list Package;
  matchedCombos : gset jsstring
}.

(** The body of [updatedDetections.forEach(detection => ...)]. *)
Definition processDetection (st : MatchState) (d : Detection)
  : MatchState * Detection :=
  if negb (truthy (parsedApartment d)) || negb (truthy (parsedLast4 d))
  then (st, setDetStatus unreadable d)
  else
    let a := default [] (parsedApartment d) in
    let l := default [] (parsedLast4 d) in
    let key := comboKey a l in
    if bool_decide (key ∈ matchedCombos st)
    then (st, setDetStatus duplicate d)
    else
      match matchingPackages a l (st_packages st) with
      | [(i, pkg)] =>
          (mkMatchState (<[i := setPkgStatus found pkg]> (st_packages st))
                        ({[ key ]} ∪ matchedCombos st),
           setMatchedPackageId (Some (pkg_id pkg)) (setDetStatus matched d))
      | _ :: _ :: _ =>
          (st, setNotes (appendNote d noteAmbiguous) (setDetStatus ambiguous d))
      | [] =>
          (st, setNotes (appendNote d noteOrphan) (setDetStatus orphan d))
      end.

Fixpoint matchLoop (st : MatchState) (ds : list Detection)
  : MatchState * list Detection :=
  match ds with
  | [] => (st, [])
  | d :: ds' =>
      let '(st1, d1) := processDetection st d in
      let '(st2, out) := matchLoop st1 ds' in
      (st2, d1 :: out)
  end.

Record MatchResult := mkMatchResult {
  updatedPackages : list Package;
  updatedDetections : list Detection
}.

(** The state in which the loop over the detections starts: the packages
    are copied, the set holds the keys of the found and verified ones. *)
Definition initialState (packages : list Package) : MatchState :=
  mkMatchState packages (addClaimed ∅ packages).

Definition matchDetections (packages : list Package) (detections : list Detection)
  : MatchResult :=
  let '(st, out) := matchLoop (initialState packages) detections in
  mkMatchResult (st_packages st) out.

Record RematchResult := mkRematchResult {
  rm_updatedPackages : list Package;
  updatedDetection : option Detection
}.

(** The set built in [rematchSingleDetection] before it calls
    [matchDetections]. *)
Definition rematchCombos (packages : list Package) (detection : Detection)
  (allDetections : list Detection) : gset jsstring :=
  foldl (fun acc det =>
           if negb (bool_decide (det_id det = det_id detection))
              && (bool_decide (det_status det = matched)
                  || bool_decide (det_status det = duplicate))
           then if truthy (parsedApartment det) && truthy (parsedLast4 det)
                then {[ comboKey (default [] (parsedApartment det))
                                 (default [] (parsedLast4 det)) ]} ∪ acc
                else acc
           else acc)
        (addClaimed ∅ packages) allDetections.

(** [result.updatedDetections[0]] is [head]; [None] stands for
    [undefined]. *)
Definition rematchSingleDetection (packages : list Package)
  (detection : Detection) (allDetections : list Detection) : RematchResult :=
  let matchedCombos := rematchCombos packages detection allDetections in
  let result := matchDetections packages [detection] in
  mkRematchResult (updatedPackages result) (head (updatedDetections result)).

(** ** The reconciliation engine on a store of objects

    The same function once more, with JavaScript's objects: packages,
    detections, bounding boxes and arrays live in a store and are passed by
    reference, a spread [{ ...obj }] allocates a fresh object, and an
    assignment to a field writes the object in place. A computation fails
    ([None]) when it reads a reference that does not hold an object of the
    kind it expects. *)

Module Store.

Definition loc := positive.

Inductive object :=
| Pkg (p : Package)
| Det (d : DetectionOf loc)
| Box (b : BoundingBox)
| Arr (elems : list loc).

Abbreviation store := (gmap loc object).

Definition comp (A : Type) : Type := store -> option (A * store).

Definition ret {A} (a : A) : comp A := fun σ => Some (a, σ).

Definition bind {A B} (m : comp A) (k : A -> comp B) : comp B :=
  fun σ => match m σ with
           | Some (a, σ') => k a σ'
           | None => None
           end.

Notation "'do' x <- m ; k" := (bind m (fun x => k))
  (at level 10, x name, m at level 100, k at level 200).
Notation "'run' m ; k" := (bind m (fun _ => k))
  (at level 10, m at level 100, k at level 200).

Definition alloc (o : object) : comp loc :=
  fun σ => let l := fresh (dom σ) in Some (l, <[l := o]> σ).

Definition readPkg (l : loc) : comp Package :=
  fun σ => match σ !! l with Some (Pkg p) => Some (p, σ) | _ => None end.
Definition readDet (l : loc) : comp (DetectionOf loc) :=
  fun σ => match σ !! l with Some (Det d) => Some (d, σ) | _ => None end.
Definition readBox (l : loc) : comp BoundingBox :=
  fun σ => match σ !! l with Some (Box b) => Some (b, σ) | _ => None end.
Definition readArr (l : loc) : comp (list loc) :=
  fun σ => match σ !! l with Some (Arr ls) => Some (ls, σ) | _ => None end.

Definition writePkg (l : loc) (p : Package) : comp unit :=
  fun σ => Some (tt, <[l := Pkg p]> σ).
Definition writeDet (l : loc) (d : DetectionOf loc) : comp unit :=
  fun σ => Some (tt, <[l := Det d]> σ).

Fixpoint mapM {A B} (f : A -> comp B) (xs : list A) : comp (list B) :=
  match xs with
  | [] => ret []
  | x :: xs' => do y <- f x; do ys <- mapM f xs'; ret (y :: ys)
  end.

Fixpoint filterM {A} (f : A -> comp bool) (xs : list A) : comp (list A) :=
  match xs with
  | [] => ret []
  | x :: xs' =>
      do keep <- f x; do ys <- filterM f xs';
      ret (if keep then x :: ys else ys)
  end.

Fixpoint foldM {A S} (f : S -> A -> comp S) (s : S) (xs : list A) : comp S :=
  match xs with
  | [] => ret s
  | x :: xs' => do s' <- f s x; foldM f s' xs'
  end.

(** [pkg => ({ ...pkg })] *)
Definition copyPackage (l : loc) : comp loc :=
  do p <- readPkg l; alloc (Pkg p).

(** [det => ({ ...det, boundingBox: { ...det.boundingBox } })] *)
Definition copyDetection (l : loc) : comp loc :=
  do d <- readDet l;
  do b <- readBox (boundingBox d);
  do bl <- alloc (Box b);
  alloc (Det (withBox d bl)).

Definition addClaimed (mc : gset jsstring) (l : loc) : comp (gset jsstring) :=
  do p <- readPkg l;
  ret (if isClaimed p
       then {[ comboKey (apartment p) (trackingLast4 p) ]} ∪ mc
       else mc).

(** The loop body, on the references held by [updatedPackages] and the
    reference [dl] to the detection. The consecutive assignments to the
    fields of one object are one write. *)
Definition processDetection (updatedPackages : list loc)
  (mc : gset jsstring) (dl : loc) : comp (gset jsstring) :=
  do d <- readDet dl;
  if negb (truthy (parsedApartment d)) || negb (truthy (parsedLast4 d))
  then run writeDet dl (setDetStatus unreadable d); ret mc
  else
    let a := default [] (parsedApartment d) in
    let l := default [] (parsedLast4 d) in
    let key := comboKey a l in
    if bool_decide (key ∈ mc)
    then run writeDet dl (setDetStatus duplicate d); ret mc
    else
      do matching <- filterM (fun pl => do p <- readPkg pl; ret (isMatch a l p))
                             updatedPackages;
      match matching with
      | [pl] =>
          do pkg <- readPkg pl;
          run writePkg pl (setPkgStatus found pkg);
          run writeDet dl (setMatchedPackageId (Some (pkg_id pkg))
                             (setDetStatus matched d));
          ret ({[ key ]} ∪ mc)
      | _ :: _ :: _ =>
          run writeDet dl (setNotes (appendNote d noteAmbiguous)
                             (setDetStatus ambiguous d));
          ret mc
      | [] =>
          run writeDet dl (setNotes (appendNote d noteOrphan)
                             (setDetStatus orphan d));
          ret mc
      end.

(** [matchDetections(packages, detections)], both arguments and both
    results being references to arrays. *)
Definition matchDetections (packages detections : loc) : comp (loc * loc) :=
  do ps <- readArr packages;
  do copiesP <- mapM copyPackage ps;
  do updatedPackages <- alloc (Arr copiesP);
  do ds <- readArr detections;
  do copiesD <- mapM copyDetection ds;
  do updatedDetections <- alloc (Arr copiesD);
  do elemsP <- readArr updatedPackages;
  do mc <- foldM addClaimed ∅ elemsP;
  do elemsD <- readArr updatedDetections;
  run foldM (processDetection elemsP) mc elemsD;
  ret (updatedPackages, updatedDetections).

(** What a reference denotes in a store. *)
Definition pkgAt (σ : store) (l : loc) (p : Package) : Prop :=
  σ !! l = Some (Pkg p).

Definition detAt (σ : store) (l : loc) (d : Detection) : Prop :=
  exists hd b, σ !! l = Some (Det hd) /\
               σ !! boundingBox hd = Some (Box b) /\ d = withBox hd b.

Definition arrAt (σ : store) (l : loc) (elems : list loc) : Prop :=
  σ !! l = Some (Arr elems).

End Store.

(** ** The manifest parser ([parsePackageList], in [unnamed/part_010]) *)

Record ParsingError := mkParsingError {
  lineNumber : nat;
  line : jsstring;
  reason : jsstring
}.

(** The outcome of the statements inside [try]: they return, or they
    throw. Reading a property of [undefined] is the one way in which they
    could throw. *)
Inductive attempt (A : Type) : Type :=
| Returned (a : A)
| Thrown (message : jsstring).
Arguments Returned {A} a.
Arguments Thrown {A} message.

(** [xs[i]] followed by a method call on the element. *)
Definition element {A B : Type} (xs : list A) (i : nat) (k : A -> attempt B)
  : attempt B :=
  match xs !! i with
  | Some v => k v
  | None => Thrown (js "Cannot read properties of undefined")
  end.

(** The fields of a line that passed every check before the duplicate
    check. *)
Record Extracted := mkExtracted {
  ex_apartment : jsstring;
  ex_carrier : jsstring;
  ex_recipient : jsstring;
  ex_fullTracking : jsstring;
  ex_trackingLast4 : jsstring
}.

Definition reasonNoApartmentAtStart : jsstring :=
  js "No valid apartment code found at start of line (expected format: C##L, N##L, etc.)".
Definition reasonNoCarrier : jsstring := js "Could not identify carrier name".
Definition reasonInsufficientFields (n : nat) : jsstring :=
  js "Insufficient fields - found " ++ decimal n ++
  js ", expected at least 3 (apartment, entity, carrier/tracking)".
Definition reasonNoApartmentIn (field : jsstring) : jsstring :=
  js "No valid apartment code found in " ++ dquote ++ field ++ dquote ++
  js " (expected format: C##L, N##L, etc. - any letter + 2 digits + letter)".
Definition reasonInvalidFormat (field : jsstring) (n : nat) : jsstring :=
  js "Invalid carrier/tracking format in " ++ dquote ++ field ++ dquote ++
  js " - expected " ++ dquote ++ js "CARRIER - #REF - TRACKING RECIPIENT" ++
  dquote ++ js " (found " ++ decimal n ++ js " parts, need 3)".
Definition reasonNoRecipient : jsstring :=
  js "Could not separate tracking number from recipient name".
Definition reasonTrackingTooShort : jsstring :=
  js "Tracking number too short (need at least 4 characters)".
Definition reasonDuplicate (apt last4 : jsstring) : jsstring :=
  js "Duplicate entry (" ++ apt ++ js " + " ++ last4 ++ js " already exists)".
Definition reasonException (message : jsstring) : jsstring :=
  js "Parsing error: " ++ message.

(** The line holds [" - #REFNUM"]: everything before it is apartment, unit,
    entity and carrier; the carrier is the last word. *)
Definition segmentByAnchor (trimmedLine : jsstring) (index : nat)
  : attempt (jsstring + jsstring * jsstring) :=
  let beforeCarrierRef := take index trimmedLine in
  let fromCarrierRef := trim (drop index trimmedLine) in
  match apartmentMatch beforeCarrierRef with
  | None => Returned (inl reasonNoApartmentAtStart)
  | Some m =>
      let apartment := toUpperCase m in
      let afterApartment := trim (drop (length m) beforeCarrierRef) in
      let withoutUnit := stripUnit afterApartment in
      let words := splitSpaces (trim withoutUnit) in
      if (length words <? 2)%nat
      then Returned (inl reasonNoCarrier)
      else
        element words (length words - 1) (fun carrier =>
          let carrierTrackingPart :=
            match indexOf TAB fromCarrierRef with
            | Some tabIndex => trim (take tabIndex fromCarrierRef)
            | None => fromCarrierRef
            end in
          Returned (inr (apartment, carrier ++ js " " ++ carrierTrackingPart)))
  end.

(** The fallback: fields separated by tabs, or else by two or more
    spaces. *)
Definition segmentByFields (trimmedLine : jsstring)
  : attempt (jsstring + jsstring * jsstring) :=
  let fields :=
    if includes TAB trimmedLine
    then map trim (splitChar TAB trimmedLine)
    else map trim (splitWide trimmedLine) in
  if (length fields <? 3)%nat
  then Returned (inl (reasonInsufficientFields (length fields)))
  else
    element fields 0 (fun field0 =>
      match apartmentMatch field0 with
      | None => Returned (inl (reasonNoApartmentIn field0))
      | Some m =>
          element fields 2 (fun field2 =>
            Returned (inr (toUpperCase m, field2)))
      end).

(** First half of the body of [try]: the apartment and the carrier/tracking
    field, or the reason pushed to [errors]. *)
Definition segmentLine (trimmedLine : jsstring)
  : attempt (jsstring + jsstring * jsstring) :=
  match carrierRefMatch trimmedLine with
  | Some index => segmentByAnchor trimmedLine index
  | None => segmentByFields trimmedLine
  end.

Definition NONE : jsstring := js "NONE".
Definition UNKNOWN : jsstring := js "UNKNOWN".

(** Second half: ["CARRIER - #REFNUM - TRACKINGNUM RECIPIENT NAME"]. *)
Definition decomposeField (apartment carrierTrackingField : jsstring)
  : attempt (jsstring + Extracted) :=
  let parts := splitDash carrierTrackingField in
  if (length parts <? 3)%nat
  then Returned (inl (reasonInvalidFormat carrierTrackingField (length parts)))
  else
    element parts 0 (fun part0 =>
    element parts 2 (fun part2 =>
      let carrier := trim part0 in
      let trackingAndRecipient := trim part2 in
      if noTrackingPatterns trackingAndRecipient
      then
        let justNoTracking :=
          mkExtracted apartment carrier UNKNOWN (trim trackingAndRecipient) NONE in
        match noTrackMatch trackingAndRecipient with
        | Some (group1, group2) =>
            match trim group2 with
            | _ :: _ =>
                Returned (inr (mkExtracted apartment carrier (trim group2)
                                           (trim group1) NONE))
            | [] => Returned (inr justNoTracking)
            end
        | None => Returned (inr justNoTracking)
        end
      else
        let tokens := splitSpaces trackingAndRecipient in
        if (length tokens <? 2)%nat
        then Returned (inl reasonNoRecipient)
        else
          element tokens 0 (fun fullTracking =>
            let recipient := joinSpace (drop 1 tokens) in
            if (length fullTracking <? 4)%nat
            then Returned (inl reasonTrackingTooShort)
            else Returned (inr (mkExtracted apartment carrier recipient
                                            fullTracking (sliceLast4 fullTracking)))))).

(** The body of [try] up to the duplicate check. *)
Definition extractLine (trimmedLine : jsstring) : attempt (jsstring + Extracted) :=
  match segmentLine trimmedLine with
  | Thrown message => Thrown message
  | Returned (inl why) => Returned (inl why)
  | Returned (inr (apartment, carrierTrackingField)) =>
      decomposeField apartment carrierTrackingField
  end.

(** What [lines.forEach] accumulates. *)
Record ParseState := mkParseState {
  acc_packages : list Package;
  acc_errors : list ParsingError;
  seenCombos : gset jsstring
}.

Definition pushError (st : ParseState) (e : ParsingError) : ParseState :=
  mkParseState (acc_packages st) (acc_errors st ++ [e]) (seenCombos st).

Section Parser.

(** [uuidv4()] and [Date.now()] read the environment: [uuidv4 k] and
    [now k] are what their call number [k] returns. Each is called once
    per package created, so the package created after [k] others gets
    [uuidv4 k] and [now k]. *)
Variable uuidv4 : nat -> jsstring.
Variable now : nat -> N.

(** The callback of [lines.forEach((line, index) => ...)]. *)
Definition processLine (st : ParseState) (index : nat) (ln : jsstring)
  : ParseState :=
  let lineNumber := (index + 1)%nat in
  let trimmedLine := trim ln in
  match trimmedLine with
  | [] => st
  | _ :: _ =>
      match extractLine trimmedLine with
      | Thrown message =>
          pushError st (mkParsingError lineNumber trimmedLine
                                       (reasonException message))
      | Returned (inl why) =>
          pushError st (mkParsingError lineNumber trimmedLine why)
      | Returned (inr e) =>
          let key := comboKey (ex_apartment e) (ex_trackingLast4 e) in
          if bool_decide (key ∈ seenCombos st)
          then pushError st
                 (mkParsingError lineNumber trimmedLine
                    (reasonDuplicate (ex_apartment e) (ex_trackingLast4 e)))
          else
            let pkg :=
              mkPackage (uuidv4 (length (acc_packages st)))
                        (ex_apartment e) (ex_trackingLast4 e) (ex_carrier e)
                        (ex_recipient e) (ex_fullTracking e)
                        (now (length (acc_packages st))) pending in
            mkParseState (acc_packages st ++ [pkg]) (acc_errors st)
                         ({[ key ]} ∪ seenCombos st)
      end
  end.

Fixpoint forEachLine (st : ParseState) (index : nat) (lines : list jsstring)
  : ParseState :=
  match lines with
  | [] => st
  | ln :: lines' => forEachLine (processLine st index ln) (S index) lines'
  end.

Definition parseLines (lines : list jsstring) : ParseState :=
  forEachLine (mkParseState [] [] ∅) 0 lines.

Record ParseResult := mkParseResult {
  packages : list Package;
  errors : list ParsingError
}.

Definition parsePackageList (rawText : jsstring) : ParseResult :=
  let st := parseLines (splitChar NEWLINE rawText) in
  mkParseResult (acc_packages st) (acc_errors st).

End Parser.


(** *** The earlier revision of the parser

    [src/utils/parsePackageList.ts] holds the parser before the anchor
    [" - #REFNUM"], the lines without a tracking number and the apartments
    of other prefixes were added: it knows the fields separated by tabs or
    by two or more spaces only, and the apartments [C##L]. *)

Module Legacy.

(** [s.match(/^(C\d{2}[A-Z])/)] *)
Definition apartmentMatch (s : jsstring) : option jsstring :=
  match s with
  | a :: b :: c :: d :: _ =>
      if (a =? 67) && isDigit b && isDigit c && isUpper d
      then Some [a; b; c; d]
      else None
  | _ => None
  end.

Definition reasonInsufficientFields : jsstring :=
  js "Insufficient fields (expected at least 3)".
Definition reasonNoApartment : jsstring :=
  js "Could not find apartment code (expected format: C##L, e.g., C02G)".
Definition reasonInvalidFormat : jsstring :=
  js "Could not parse carrier/tracking field (expected format: CARRIER - #REF - TRACKING RECIPIENT)".

(** The body of [try] up to the duplicate check. *)
Definition extractLine (trimmedLine : jsstring) : attempt (jsstring + Extracted) :=
  let fields :=
    if includes TAB trimmedLine
    then map trim (splitChar TAB trimmedLine)
    else map trim (splitWide trimmedLine) in
  if (length fields <? 3)%nat
  then Returned (inl reasonInsufficientFields)
  else
    element fields 0 (fun field0 =>
      match apartmentMatch field0 with
      | None => Returned (inl reasonNoApartment)
      | Some apartment =>
          element fields 2 (fun carrierTrackingField =>
            let parts := splitDash carrierTrackingField in
            if (length parts <? 3)%nat
            then Returned (inl reasonInvalidFormat)
            else
              element parts 0 (fun part0 =>
              element parts 2 (fun part2 =>
                let carrier := trim part0 in
                let trackingAndRecipient := trim part2 in
                let tokens := splitSpaces trackingAndRecipient in
                if (length tokens <? 2)%nat
                then Returned (inl reasonNoRecipient)
                else
                  element tokens 0 (fun fullTracking =>
                    let recipient := joinSpace (drop 1 tokens) in
                    if (length fullTracking <? 4)%nat
                    then Returned (inl reasonTrackingTooShort)
                    else Returned (inr (mkExtracted apartment carrier recipient
                                          fullTracking
                                          (sliceLast4 fullTracking)))))))
      end).

Section Parser.

Variable uuidv4 : nat -> jsstring.
Variable now : nat -> N.

(** The callback of [lines.forEach((line, index) => ...)]. *)
Definition processLine (st : ParseState) (index : nat) (ln : jsstring)
  : ParseState :=
  let lineNumber := (index + 1)%nat in
  let trimmedLine := trim ln in
  match trimmedLine with
  | [] => st
  | _ :: _ =>
      match extractLine trimmedLine with
      | Thrown message =>
          pushError st (mkParsingError lineNumber trimmedLine
                                       (reasonException message))
      | Returned (inl why) =>
          pushError st (mkParsingError lineNumber trimmedLine why)
      | Returned (inr e) =>
          let key := comboKey (ex_apartment e) (ex_trackingLast4 e) in
          if bool_decide (key ∈ seenCombos st)
          then pushError st
                 (mkParsingError lineNumber trimmedLine
                    (reasonDuplicate (ex_apartment e) (ex_trackingLast4 e)))
          else
            let pkg :=
              mkPackage (uuidv4 (length (acc_packages st)))
                        (ex_apartment e) (ex_trackingLast4 e) (ex_carrier e)
                        (ex_recipient e) (ex_fullTracking e)
                        (now (length (acc_packages st))) pending in
            mkParseState (acc_packages st ++ [pkg]) (acc_errors st)
                         ({[ key ]} ∪ seenCombos st)
      end
  end.

Fixpoint forEachLine (st : ParseState) (index : nat) (lines : list jsstring)
  : ParseState :=
  match lines with
  | [] => st
  | ln :: lines' => forEachLine (processLine st index ln) (S index) lines'
  end.

Definition parsePackageList (rawText : jsstring) : ParseResult :=
  let st := forEachLine (mkParseState [] [] ∅) 0 (splitChar NEWLINE rawText) in
  mkParseResult (acc_packages st) (acc_errors st).

End Parser.

End Legacy.

(** A line in the format of the earlier revision, of another prefix. *)
Definition lineNorth : jsstring :=
  js "N05B Unit    TEST LLC    UPS - #2165790850 - 1ZA8272V1341859679 JOHN DOE".
(** The same fields behind an apartment [C##L]. *)
Definition lineCentral : jsstring :=
  js "C05B Unit    TEST LLC    UPS - #2165790850 - 1ZA8272V1341859679 JOHN DOE".


(** *** Vocabulary for the statements about the engine *)

Definition readable (d : Detection) : bool :=
  truthy (parsedApartment d) && truthy (parsedLast4 d).

Definition detApartment (d : Detection) : jsstring := default [] (parsedApartment d).
Definition detLast4 (d : Detection) : jsstring := default [] (parsedLast4 d).
Definition detKey (d : Detection) : jsstring := comboKey (detApartment d) (detLast4 d).
Definition pkgKey (p : Package) : jsstring := comboKey (apartment p) (trackingLast4 p).

(** The five outcomes of the loop body, as a relation. *)
Inductive Step (st : MatchState) (d : Detection) : MatchState -> Detection -> Prop :=
| step_unreadable :
    readable d = false ->
    Step st d st (setDetStatus unreadable d)
| step_duplicate :
    readable d = true ->
    detKey d ∈ matchedCombos st ->
    Step st d st (setDetStatus duplicate d)
| step_matched i pkg :
    readable d = true ->
    detKey d ∉ matchedCombos st ->
    matchingPackages (detApartment d) (detLast4 d) (st_packages st) = [(i, pkg)] ->
    Step st d
      (mkMatchState (<[i := setPkgStatus found pkg]> (st_packages st))
                    ({[ detKey d ]} ∪ matchedCombos st))
      (setMatchedPackageId (Some (pkg_id pkg)) (setDetStatus matched d))
| step_ambiguous :
    readable d = true ->
    detKey d ∉ matchedCombos st ->
    (2 <= length (matchingPackages (detApartment d) (detLast4 d) (st_packages st)))%nat ->
    Step st d st (setNotes (appendNote d noteAmbiguous) (setDetStatus ambiguous d))
| step_orphan :
    readable d = true ->
    detKey d ∉ matchedCombos st ->
    matchingPackages (detApartment d) (detLast4 d) (st_packages st) = [] ->
    Step st d st (setNotes (appendNote d noteOrphan) (setDetStatus orphan d)).

(** Two packages that differ at most in their status. *)
Definition samePackageData (p q : Package) : Prop :=
  pkg_id p = pkg_id q /\ apartment p = apartment q /\
  trackingLast4 p = trackingLast4 q /\ carrier p = carrier q /\
  recipient p = recipient q /\ fullTracking p = fullTracking q /\
  importedAt p = importedAt q.

(** Two detections that differ at most in status, matchedPackageId and
    notes. *)
Definition sameDetectionData (d e : Detection) : Prop :=
  det_id d = det_id e /\ photoId d = photoId e /\
  boundingBox d = boundingBox e /\ rawText d = rawText e /\
  parsedApartment d = parsedApartment e /\ parsedLast4 d = parsedLast4 e /\
  parsedDate d = parsedDate e /\ parsedInitials d = parsedInitials e /\
  confidence d = confidence e.

(** The claimed set holds exactly the keys of the found and verified
    packages. *)
Definition claimedInv (st : MatchState) : Prop :=
  forall k, k ∈ matchedCombos st <->
            exists p, p ∈ st_packages st /\ isClaimed p = true /\ pkgKey p = k.

(** One iteration of the loop, and any number of them. *)
Definition stepsTo (st st' : MatchState) : Prop :=
  exists d d', Step st d st' d'.

Definition reaches : MatchState -> MatchState -> Prop := rtc stepsTo.



(** *** Sample records (the helpers of the test-suite) *)

Definition createPackage (apt last4 : string) (s : PackageStatus) : Package :=
  mkPackage (js "pkg-" ++ js apt ++ js "-" ++ js last4) (js apt) (js last4)
            (js "TEST") (js "Test User") (js "TRACK" ++ js last4) 0 s.

Definition createDetection (ident : string) (apt last4 : option string)
  (s : DetectionStatus) : Detection :=
  mkDetection (js ident) (js "photo-1")
              (mkBoundingBox 0 0 (Qmake 10 1) (Qmake 10 1))
              (js "raw") (js <$> apt) (js <$> last4) None None
              (Qmake 95 100) None s None.

(** *** Vocabulary for the statements about the parser *)

(** [/^[A-Z]\d{2}[A-Z]$/] *)
Definition isApartmentCode (s : jsstring) : bool :=
  match s with
  | [a; b; c; d] => isUpper a && isDigit b && isDigit c && isUpper d
  | _ => false
  end.

Definition pkgPair (p : Package) : jsstring * jsstring :=
  (apartment p, trackingLast4 p).

(** The package that a line with fields [e] becomes after [k] others. *)
Definition packageOf (uuidv4 : nat -> jsstring) (now : nat -> N) (k : nat)
  (e : Extracted) : Package :=
  mkPackage (uuidv4 k) (ex_apartment e) (ex_trackingLast4 e) (ex_carrier e)
            (ex_recipient e) (ex_fullTracking e) (now k) pending.

(** The three things a line can do to the accumulated state. *)
Inductive LineStep (uuidv4 : nat -> jsstring) (now : nat -> N)
  (st : ParseState) (index : nat) (ln : jsstring) : ParseState -> Prop :=
| line_skipped :
    trim ln = [] ->
    LineStep uuidv4 now st index ln st
| line_error why :
    trim ln <> [] -> why <> [] ->
    LineStep uuidv4 now st index ln
      (pushError st (mkParsingError (index + 1) (trim ln) why))
| line_package e :
    trim ln <> [] ->
    extractLine (trim ln) = Returned (inr e) ->
    comboKey (ex_apartment e) (ex_trackingLast4 e) ∉ seenCombos st ->
    LineStep uuidv4 now st index ln
      (mkParseState
         (acc_packages st ++ [packageOf uuidv4 now (length (acc_packages st)) e])
         (acc_errors st)
         ({[ comboKey (ex_apartment e) (ex_trackingLast4 e) ]} ∪ seenCombos st)).

(** The set of seen combinations holds exactly the keys of the packages
    created so far. *)
Definition seenInv (st : ParseState) : Prop :=
  forall k, k ∈ seenCombos st <-> exists p, p ∈ acc_packages st /\ pkgKey p = k.

(** The exact phrases [NO TRACKING], [NO TRK] and these followed by
    [NUMBER], in any letter case and with any whitespace between the
    words. *)
Definition noTrackingPhrase (phrase : jsstring) : Prop :=
  afterNoTracking phrase = Some [] \/
  exists r, afterNoTracking phrase = Some r /\ afterNumber r = Some [].

(** One whitespace character followed by dashes and whitespace. *)
Definition dashSeparator (sep : jsstring) : Prop :=
  exists c ds, sep = c :: ds /\ isSpace c = true /\
               forallb isDashOrSpace ds = true.

(** Recipient text: it starts with a character other than a dash or
    whitespace, has no line terminator and does not start with the word
    NUMBER. *)
Definition recipientText (rest : jsstring) : Prop :=
  exists c r, rest = c :: r /\ isDashOrSpace c = false /\
              forallb notLineTerminator rest = true /\
              afterWord (js "NUMBER") rest = None.

(** A string that does not end with whitespace. *)
Definition endsUnspaced (s : jsstring) : Prop :=
  forall c, last s = Some c -> isSpace c = false.

(** A string that does not start with whitespace. *)
Definition startsUnspaced (s : jsstring) : Prop :=
  forall c, head s = Some c -> isSpace c = false.

(** *** Sample manifests *)

Definition sampleUuid (k : nat) : jsstring := js "uuid-" ++ decimal k.
Definition sampleNow (k : nat) : N := 1770000000000.

Definition lineJohnDoe : jsstring :=
  js "N01A Unit Test LLC USPS - #111 - NO TRACKING -- John Doe".
Definition lineJaneRoe : jsstring :=
  js "N01A Unit Test LLC UPS - #222 - NO TRACKING -- Jane Roe".
Definition lineNumberAlone : jsstring :=
  js "N01B Unit Test LLC USPS - #333 - NO TRACKING NUMBER".
Definition lineAnchorOnly : jsstring := js "hello - #12".
Definition lineEspejo : jsstring :=
  js "C01K Unit ESCARDO LLC UPS - #2165790850 - 1ZA8272V1341859679 MARIA ESPEJO".

(** Lines joined by newlines. *)
Fixpoint joinLines (lines : list jsstring) : jsstring :=
  match lines with
  | [] => []
  | [ln] => ln
  | ln :: lines' => ln ++ [NEWLINE] ++ joinLines lines'
  end.

(** *** Lines written with single spaces *)

(** A word: not empty, without whitespace. *)
Definition isWord (w : jsstring) : bool :=
  match w with
  | [] => false
  | _ :: _ => forallb (fun c => negb (isSpace c)) w
  end.

(** A word other than a dash on its own. *)
Definition isPlainWord (w : jsstring) : bool :=
  isWord w && negb (bool_decide (w = js "-")).

(** ["APT Unit ENTITY ... CARRIER - #REF - TRACKING RECIPIENT ..."], the
    words separated by one space each. *)
Definition manifestLine (apt : jsstring) (entity : list jsstring)
  (carrierName ref tracking : jsstring) (recipientWords : list jsstring)
  : jsstring :=
  joinSpace (apt :: js "Unit" :: entity ++ [carrierName]) ++
  js " - #" ++ ref ++ js " - " ++ joinSpace (tracking :: recipientWords).

Definition manifestShape (apt : jsstring) (entity : list jsstring)
  (carrierName ref tracking : jsstring) (recipientWords : list jsstring)
  : Prop :=
  apartmentMatch apt = Some apt /\
  entity <> [] /\
  forallb isPlainWord (entity ++ [carrierName]) = true /\
  ref <> [] /\ forallb isDigit ref = true /\
  isWord tracking = true /\ (4 <= length tracking)%nat /\
  recipientWords <> [] /\ forallb isPlainWord recipientWords = true.

Definition lineOffice : jsstring :=
  js "N01C Unit OFFICE 609 LLC USPS - #2167439815 - 420330199361289719660506103530 Gustavo Cuina".

(** A store with the arrays and records of the first scenario. *)
Definition sampleStore : Store.store :=
  <[1%positive := Store.Arr [3%positive]]>
  (<[2%positive := Store.Arr [4%positive]]>
  (<[3%positive := Store.Pkg (createPackage "C01K" "1234" pending)]>
  (<[4%positive := Store.Det (withBox (createDetection "det-1" (Some "C01K")
                                         (Some "1234") matched) 5%positive)]>
  (<[5%positive := Store.Box (mkBoundingBox 0 0 (Qmake 10 1) (Qmake 10 1))]> ∅)))).

(** ** The summary panel ([src/components/summary/SummaryPanel.tsx]) *)

(** The object [stats]: the number of packages, and of those of each
    status. *)
Record Stats := mkStats {
  stats_total : nat;
  stats_pending : nat;
  stats_found : nat;
  stats_verified : nat;
  stats_notFound : nat
}.

Definition stats (packages : list Package) : Stats :=
  mkStats (length packages)
          (length (filter (fun p => pkg_status p = pending) packages))
          (length (filter (fun p => pkg_status p = found) packages))
          (length (filter (fun p => pkg_status p = verified) packages))
          (length (filter (fun p => pkg_status p = not_found) packages)).

(** *** Vocabulary for the counters *)

Definition countStatus (s : PackageStatus) (packages : list Package) : nat :=
  length (filter (fun p => pkg_status p = s) packages).

Definition countMatched (detections : list Detection) : nat :=
  length (filter (fun d => det_status d = matched) detections).

(** *** Vocabulary for the parser as a whole *)

(** The text with every line feed preceded by a carriage return, as an
    editor with Windows line endings stores it. *)
Fixpoint toCRLF (s : jsstring) : jsstring :=
  match s with
  | [] => []
  | c :: s' => if c =? NEWLINE then 13 :: NEWLINE :: toCRLF s' else c :: toCRLF s'
  end.

(** A detection that read the two fields of the label of [p]. *)
Definition readsLabelOf (p : Package) (d : Detection) : Prop :=
  parsedApartment d = Some (apartment p) /\
  parsedLast4 d = Some (trackingLast4 p).

(** The errors of the lines before position [index]: each belongs to a line
    that is not blank, and they come in the order of their lines. *)
Definition errorsUpTo (lines : list jsstring) (index : nat)
  (es : list ParsingError) : Prop :=
  Forall (fun e => (1 <= lineNumber e <= index)%nat /\
                   exists ln, lines !! (lineNumber e - 1)%nat = Some ln /\
                              line e = trim ln /\ trim ln <> [] /\ reason e <> [])
         es /\
  forall i j e1 e2, (i < j)%nat -> es !! i = Some e1 -> es !! j = Some e2 ->
                    (lineNumber e1 < lineNumber e2)%nat.

(** The fields of a line that passed every check. *)
Definition extractedShape (e : Extracted) : Prop :=
  length (ex_trackingLast4 e) = 4%nat /\
  (ex_trackingLast4 e = NONE \/
   ((4 <= length (ex_fullTracking e))%nat /\
    ex_trackingLast4 e = sliceLast4 (ex_fullTracking e))) /\
  ex_recipient e <> [].


(** The packages created so far, each with its position. *)
Definition packagesShaped (uuidv4 : nat -> jsstring) (now : nat -> N)
  (ps : list Package) : Prop :=
  forall k p, ps !! k = Some p ->
    pkg_id p = uuidv4 k /\ importedAt p = now k /\ pkg_status p = pending /\
    length (trackingLast4 p) = 4%nat /\
    (trackingLast4 p = NONE \/
     ((4 <= length (fullTracking p))%nat /\
      trackingLast4 p = sliceLast4 (fullTracking p))) /\
    recipient p <> [].


(** Two lines that are equal up to a carriage return at the end of the
    first. *)
Definition sameUpToCR (a b : jsstring) : Prop := a = b \/ a = b ++ [13].

(** *** Vocabulary for a scan of imported packages *)

(** The package [p], found when its key is in [mc]. *)
Definition markFound (mc : gset jsstring) (p : Package) : Package :=
  if bool_decide (pkgKey p ∈ mc) then setPkgStatus found p else p.

(** The detection [d] as returned when it is matched with [p]. *)
Definition matchedWith (p : Package) (d : Detection) : Detection :=
  setMatchedPackageId (Some (pkg_id p)) (setDetStatus matched d).

(** Pending packages with fields that are not empty and pairwise different
    keys. *)
Definition freshImport (ps : list Package) : Prop :=
  Forall (fun p => pkg_status p = pending /\ apartment p <> [] /\
                   trackingLast4 p <> []) ps /\
  NoDup (pkgKey <$> ps).

(** *** Samples of an import followed by a scan *)

(** The package of [lineOffice], the second of two lines. *)
Definition packageOffice : Package :=
  mkPackage (sampleUuid 1) (js "N01C") (js "3530") (js "USPS")
            (js "Gustavo Cuina") (js "420330199361289719660506103530")
            (sampleNow 1) pending.

(** A detection that read the label of [packageOffice]. *)
Definition detectionOffice : Detection :=
  createDetection "det-1" (Some "N01C") (Some "3530") orphan.

(** ** The session ([src/stores/sessionStore.tsx]) *)

(** [Photo] and [SessionState] of [src/types/models.ts]. The fields
    [packages], [photos] and [detections] of the state carry the prefix of
    their record, and so does the [id] of a photo. *)
Record Photo := mkPhoto {
  photo_id : jsstring;
  dataUrl : jsstring;
  capturedAt : N;
  processed : bool;
  photo_detections : list Detection
}.

Record SessionState := mkSessionState {
  ss_packages : list Package;
  ss_photos : list Photo;
  ss_detections : list Detection;
  sessionId : jsstring;
  createdAt : N;
  lastModified : N
}.

Inductive SessionAction :=
| SET_PACKAGES (packages : list Package)
| ADD_PHOTO (photo : Photo)
| ADD_DETECTIONS (photoId : jsstring) (detections : list Detection)
| UPDATE_PACKAGE_STATUS (id : jsstring) (status : PackageStatus)
| UPDATE_DETECTION (detection : Detection)
| UPDATE_PACKAGES_AND_DETECTIONS (packages : list Package)
                                 (detections : list Detection)
| DELETE_PHOTO (photoId : jsstring)
| CLEAR_SESSION
| LOAD_SESSION (state : SessionState).

(** [{ ...state, packages }], [{ ...state, photos }] and
    [{ ...state, detections }]. *)
Definition withPackages (packages : list Package) (s : SessionState)
  : SessionState :=
  mkSessionState packages (ss_photos s) (ss_detections s) (sessionId s)
                 (createdAt s) (lastModified s).

Definition withPhotos (photos : list Photo) (s : SessionState) : SessionState :=
  mkSessionState (ss_packages s) photos (ss_detections s) (sessionId s)
                 (createdAt s) (lastModified s).

Definition withDetections (detections : list Detection) (s : SessionState)
  : SessionState :=
  mkSessionState (ss_packages s) (ss_photos s) detections (sessionId s)
                 (createdAt s) (lastModified s).

(** [{ ...photo, detections }] *)
Definition withPhotoDetections (detections : list Detection) (photo : Photo)
  : Photo :=
  mkPhoto (photo_id photo) (dataUrl photo) (capturedAt photo) (processed photo)
          detections.

(** [uuidv4] and [now] give what the calls of [uuidv4()] and of
    [Date.now()] return, numbered from zero within the function modelled. *)
Definition createInitialState (uuidv4 : nat -> jsstring) (now : nat -> N)
  : SessionState :=
  mkSessionState [] [] [] (uuidv4 0%nat) (now 0%nat) (now 1%nat).

(** [det => det.id === detection.id ? detection : det] *)
Definition replaceDetection (detection det : Detection) : Detection :=
  if bool_decide (det_id det = det_id detection) then detection else det.

(** [det => action.detections.find(d => d.id === det.id) || det]: an object
    is truthy, so the detection found is taken. *)
Definition updatedOr (detections : list Detection) (det : Detection) : Detection :=
  default det (List.find (fun d => bool_decide (det_id d = det_id det)) detections).

(** The reducer reads the clock once, before it looks at the action;
    [CLEAR_SESSION] then reads an identifier and the clock twice more. With
    typed actions the [default] branch is never taken. *)
Definition sessionReducer (uuidv4 : nat -> jsstring) (now : nat -> N)
  (state : SessionState) (action : SessionAction) : SessionState :=
  let newState :=
    mkSessionState (ss_packages state) (ss_photos state) (ss_detections state)
                   (sessionId state) (createdAt state) (now 0%nat) in
  match action with
  | SET_PACKAGES packages => withPackages packages newState
  | ADD_PHOTO photo => withPhotos (ss_photos state ++ [photo]) newState
  | ADD_DETECTIONS photoId detections =>
      let updatedPhotos :=
        map (fun photo =>
               if bool_decide (photo_id photo = photoId)
               then mkPhoto (photo_id photo) (dataUrl photo) (capturedAt photo)
                            true detections
               else photo) (ss_photos state) in
      withDetections (ss_detections state ++ detections)
                     (withPhotos updatedPhotos newState)
  | UPDATE_PACKAGE_STATUS id status =>
      let updatedPackages :=
        map (fun pkg => if bool_decide (pkg_id pkg = id)
                        then setPkgStatus status pkg else pkg)
            (ss_packages state) in
      withPackages updatedPackages newState
  | UPDATE_DETECTION detection =>
      let updatedDetections :=
        map (replaceDetection detection) (ss_detections state) in
      let updatedPhotos :=
        map (fun photo =>
               withPhotoDetections
                 (map (replaceDetection detection) (photo_detections photo)) photo)
            (ss_photos state) in
      withPhotos updatedPhotos (withDetections updatedDetections newState)
  | UPDATE_PACKAGES_AND_DETECTIONS packages detections =>
      let updatedPhotos :=
        map (fun photo =>
               withPhotoDetections
                 (map (updatedOr detections) (photo_detections photo)) photo)
            (ss_photos state) in
      withPhotos updatedPhotos
                 (withDetections detections (withPackages packages newState))
  | DELETE_PHOTO deleted =>
      let photosWithoutDeleted :=
        List.filter (fun p => negb (bool_decide (photo_id p = deleted)))
                    (ss_photos state) in
      let detectionsWithoutDeleted :=
        List.filter (fun d => negb (bool_decide (photoId d = deleted)))
                    (ss_detections state) in
      withDetections detectionsWithoutDeleted
                     (withPhotos photosWithoutDeleted newState)
  | CLEAR_SESSION => createInitialState uuidv4 (fun k => now (S k))
  | LOAD_SESSION state' => state'
  end.

(** ** The detection hook ([useAIDetection], second file of [unnamed/part_013]) *)

(** One element of [AIDetectionResponse.detections]; the fields carry the
    prefix [ai_]. *)
Record AIDetection := mkAIDetection {
  ai_raw_text : jsstring;
  ai_apartment : option jsstring;
  ai_tracking_last4 : option jsstring;
  ai_date : option jsstring;
  ai_initials : option jsstring;
  ai_confidence : Q;
  ai_bounding_box : Q * Q * Q * Q;
  ai_notes : option jsstring
}.

(** The object built from one element of the response: the box is turned
    from corners in [0, 1] into origin and size in percent. Numbers are
    rationals here; the rounding of the multiplications is not modelled. *)
Definition toDetection (photoId id : jsstring) (det : AIDetection) : Detection :=
  let '(x_min, y_min, x_max, y_max) := ai_bounding_box det in
  mkDetection id photoId
    (mkBoundingBox (Qmult x_min (Qmake 100 1)) (Qmult y_min (Qmake 100 1))
                   (Qmult (Qminus x_max x_min) (Qmake 100 1))
                   (Qmult (Qminus y_max y_min) (Qmake 100 1)))
    (ai_raw_text det) (ai_apartment det) (ai_tracking_last4 det) (ai_date det)
    (ai_initials det) (ai_confidence det) None matched (ai_notes det).

(** [processPhoto] from the point where the service has answered with
    [aiResponse]. [state] is the state the callback closed over, [current]
    the state the reducer holds when the two dispatches reach it; they are
    the same state unless the session changed while the service was working.
    [uuidv4 k] is the identifier of detection [k]; [now k] is the clock of
    dispatch [k]. *)
Definition processPhoto (uuidv4 : nat -> jsstring) (now : nat -> nat -> N)
  (state current : SessionState) (photoId : jsstring)
  (aiResponse : list AIDetection) : SessionState :=
  let detections :=
    imap (fun index det => toDetection photoId (uuidv4 index) det) aiResponse in
  let s1 := sessionReducer uuidv4 (now 0%nat) current
              (ADD_DETECTIONS photoId detections) in
  let matchResult :=
    matchDetections (ss_packages state) (ss_detections state ++ detections) in
  sessionReducer uuidv4 (now 1%nat) s1
    (UPDATE_PACKAGES_AND_DETECTIONS (updatedPackages matchResult)
                                    (updatedDetections matchResult)).

(** ** The review card ([src/components/review/ReviewCard.tsx]) *)

(** [s || null] for a string [s]. *)
Definition orNull (s : jsstring) : option jsstring :=
  match s with
  | [] => None
  | _ :: _ => Some s
  end.

(** [detection.notes || ''] *)
Definition notesOrEmpty (d : Detection) : jsstring :=
  if truthy (notes d) then default [] (notes d) else [].

(** The detection dispatched by [handleSave]; [apartment], [tracking] and
    [notes] are the texts of the three inputs. *)
Definition savedDetection (detection : Detection)
  (apartment tracking notesText : jsstring) : Detection :=
  mkDetection (det_id detection) (photoId detection) (boundingBox detection)
              (rawText detection)
              (orNull (trim apartment)) (orNull (trim tracking))
              (parsedDate detection) (parsedInitials detection)
              (Qmake 1 1) (matchedPackageId detection) (det_status detection)
              (match trim notesText with
               | [] => notes detection
               | _ :: _ => Some (trim notesText)
               end).

(** The handlers run in the render that shows [state], which is the state
    the reducer holds. [now k] is the clock of dispatch [k]. *)
Definition handleSave (uuidv4 : nat -> jsstring) (now : nat -> nat -> N)
  (state : SessionState) (detection : Detection)
  (apartment tracking notesText : jsstring) : SessionState :=
  let updatedDetection := savedDetection detection apartment tracking notesText in
  let s1 := sessionReducer uuidv4 (now 0%nat) state
              (UPDATE_DETECTION updatedDetection) in
  let allDetections :=
    map (fun d => if bool_decide (det_id d = det_id detection)
                  then updatedDetection else d) (ss_detections state) in
  let matchResult := matchDetections (ss_packages state) allDetections in
  sessionReducer uuidv4 (now 1%nat) s1
    (UPDATE_PACKAGES_AND_DETECTIONS (updatedPackages matchResult)
                                    (updatedDetections matchResult)).

(** The detections dispatched by [handleMarkAsError] and by
    [handleConfirmCorrect]. *)
Definition markedAsError (detection : Detection) : Detection :=
  setNotes (Some (notesOrEmpty detection ++ js " [Marked as error by user]"))
           (setDetStatus unreadable detection).

Definition confirmedCorrect (detection : Detection) : Detection :=
  mkDetection (det_id detection) (photoId detection) (boundingBox detection)
              (rawText detection) (parsedApartment detection)
              (parsedLast4 detection) (parsedDate detection)
              (parsedInitials detection) (Qmake 1 1)
              (matchedPackageId detection) (det_status detection)
              (Some (notesOrEmpty detection ++ js " [Verified by user]")).

Definition handleMarkAsError (uuidv4 : nat -> jsstring) (now : nat -> N)
  (state : SessionState) (detection : Detection) : SessionState :=
  sessionReducer uuidv4 now state (UPDATE_DETECTION (markedAsError detection)).

Definition handleConfirmCorrect (uuidv4 : nat -> jsstring) (now : nat -> N)
  (state : SessionState) (detection : Detection) : SessionState :=
  sessionReducer uuidv4 now state (UPDATE_DETECTION (confirmedCorrect detection)).

(** ** The review queue ([src/components/review/ReviewQueue.tsx]) *)

Inductive QueueFilter :=
| filter_all | filter_low_confidence | filter_orphan | filter_ambiguous
| filter_unreadable.

(** [det.confidence < 0.9] *)
Definition lowConfidence (det : Detection) : bool :=
  negb (Qle_bool (Qmake 9 10) (confidence det)).

Definition flaggedDetections (state : SessionState) : list Detection :=
  List.filter (fun det =>
                 lowConfidence det
                 || bool_decide (det_status det = orphan)
                 || bool_decide (det_status det = ambiguous)
                 || bool_decide (det_status det = unreadable))
              (ss_detections state).

Definition filteredDetections (flt : QueueFilter) (state : SessionState)
  : list Detection :=
  List.filter (fun det =>
                 match flt with
                 | filter_all => true
                 | filter_low_confidence => lowConfidence det
                 | filter_orphan => bool_decide (det_status det = orphan)
                 | filter_ambiguous => bool_decide (det_status det = ambiguous)
                 | filter_unreadable => bool_decide (det_status det = unreadable)
                 end)
              (flaggedDetections state).

(** ** The import panel ([src/components/import/ImportPanel.tsx]) *)

(** [handleConfirmImport]: the text is parsed again and its packages
    replace those of the session. *)
Definition handleConfirmImport (uuidv4 : nat -> jsstring) (now : nat -> N)
  (clock : nat -> N) (state : SessionState) (rawText : jsstring) : SessionState :=
  sessionReducer uuidv4 clock state
    (SET_PACKAGES (packages (parsePackageList uuidv4 now rawText))).

(** ** Export ([exportRemainingPackages], in [unnamed/part_003]) *)

(** [`${pkg.apartment} - ${pkg.trackingLast4} - ${pkg.carrier} - ${pkg.recipient}`] *)
Definition packageRow (pkg : Package) : jsstring :=
  apartment pkg ++ js " - " ++ trackingLast4 pkg ++ js " - " ++ carrier pkg ++
  js " - " ++ recipient pkg.

(** The lines pushed for one status: nothing for no package, otherwise a
    title with the count, an empty line, a row for each package and an empty
    line. *)
Definition exportSection (title : jsstring) (pkgs : list Package)
  : list jsstring :=
  if (0 <? length pkgs)%nat
  then [title ++ js " (" ++ decimal (length pkgs) ++ js "):"; []] ++
       map packageRow pkgs ++ [[]]
  else [].

Definition titlePending : jsstring := js "PENDING".
Definition titleNotFound : jsstring := js "NOT FOUND".

(** The array [lines]; [generated] is what [new Date().toLocaleString()]
    returns. *)
Definition exportLines (generated : jsstring) (packages : list Package)
  : list jsstring :=
  let pendingPackages :=
    List.filter (fun p => bool_decide (pkg_status p = pending)) packages in
  let notFoundPackages :=
    List.filter (fun p => bool_decide (pkg_status p = not_found)) packages in
  [js "=== REMAINING PACKAGES ===";
   js "Generated: " ++ generated;
   js "Total: " ++ decimal (length packages);
   [];
   js "---";
   []] ++
  exportSection titlePending pendingPackages ++
  exportSection titleNotFound notFoundPackages.

Definition noRemaining : jsstring := js "No remaining packages to export.".

Definition exportRemainingPackages (generated : jsstring)
  (packages : list Package) : jsstring :=
  match packages with
  | [] => noRemaining
  | _ :: _ => joinLines (exportLines generated packages)
  end.

(** [handleExport] of the summary panel: the text it offers for download. *)
Definition handleExport (generated : jsstring) (state : SessionState) : jsstring :=
  let remainingPackages :=
    List.filter (fun p => bool_decide (pkg_status p = pending)
                          || bool_decide (pkg_status p = not_found))
                (ss_packages state) in
  exportRemainingPackages generated remainingPackages.

(** *** Vocabulary for the session *)

(** Two packages with the same fields, up to the identifier and the time of
    the import. *)
Definition sameListing (p q : Package) : Prop :=
  apartment p = apartment q /\ trackingLast4 p = trackingLast4 q /\
  carrier p = carrier q /\ recipient p = recipient q /\
  fullTracking p = fullTracking q /\ pkg_status p = pkg_status q.

(** ** The camera panel ([CameraPanel], first file of [unnamed/part_013]) *)

(** The photo that [handleCapture] and [handleFileUpload] add to the
    session before they ask for its detections. *)
Definition newPhoto (uuidv4 : nat -> jsstring) (now : nat -> N)
  (url : jsstring) : Photo :=
  mkPhoto (uuidv4 0%nat) url (now 0%nat) false [].

(** *** The session, step by step *)

(** The flat list and the lists of the photos hold the same detections: the
    identifiers of the flat list are pairwise different, and a detection of
    a photo is in the flat list and names its photo. *)
Definition sessionInv (s : SessionState) : Prop :=
  NoDup (det_id <$> ss_detections s) /\
  forall photo d, photo ∈ ss_photos s -> d ∈ photo_detections photo ->
                  d ∈ ss_detections s /\ photoId d = photo_id photo.

(** The detections a state holds: those of the flat list and those of its
    photos. *)
Definition holds (s : SessionState) (d : Detection) : Prop :=
  d ∈ ss_detections s \/
  exists photo, photo ∈ ss_photos s /\ d ∈ photo_detections photo.

(** Every detection of a photo names its photo. *)
Definition namesPhoto (s : SessionState) : Prop :=
  forall photo d, photo ∈ ss_photos s -> d ∈ photo_detections photo ->
                  photoId d = photo_id photo.

(** The identifiers handed out for a response are new: no state the
    session has been in holds a detection with one of them. *)
Definition freshIds (uuidv4 : nat -> jsstring) (n : nat)
  (known : list SessionState) : Prop :=
  NoDup (uuidv4 <$> seq 0 n) /\
  forall k s d, (k < n)%nat -> s ∈ known -> holds s d -> det_id d <> uuidv4 k.

(** What the panels do to the session: an import, a new photo, the answer
    of the service for a photo, the three actions of the review card on a
    detection of the session, the deletion of a photo, and a new session.
    [s] is the state the reducer holds and [known] the states the session
    has been in, [s] included. The handlers of the panels run in the render
    that shows [s]. [processPhoto] is asynchronous: when the answer of the
    service arrives, the callback still reads the packages and the
    detections of the state it closed over, [closure], which is [s] or an
    earlier state. *)
Inductive sessionStep (known : list SessionState) (closure s : SessionState)
  : SessionState -> Prop :=
| step_import u n clock rawText :
    sessionStep known closure s (handleConfirmImport u n clock s rawText)
| step_photo u n clock url :
    sessionStep known closure s
      (sessionReducer u clock s (ADD_PHOTO (newPhoto u n url)))
| step_answer u now pid aiResponse :
    freshIds u (length aiResponse) known ->
    sessionStep known closure s (processPhoto u now closure s pid aiResponse)
| step_save u now detection apt tracking notesText :
    detection ∈ ss_detections s ->
    sessionStep known closure s (handleSave u now s detection apt tracking notesText)
| step_error u now detection :
    detection ∈ ss_detections s ->
    sessionStep known closure s (handleMarkAsError u now s detection)
| step_confirm u now detection :
    detection ∈ ss_detections s ->
    sessionStep known closure s (handleConfirmCorrect u now s detection)
| step_delete u now pid :
    sessionStep known closure s (sessionReducer u now s (DELETE_PHOTO pid))
| step_clear u now :
    sessionStep known closure s (sessionReducer u now s CLEAR_SESSION).

(** The states of a session that started in [s0], the latest first. The
    callback of a step has closed over the current state or over any
    earlier one. *)
Inductive sessionRun (s0 : SessionState) : list SessionState -> Prop :=
| run_start : sessionRun s0 [s0]
| run_step closure s past s' :
    sessionRun s0 (s :: past) ->
    closure ∈ s :: past ->
    sessionStep (s :: past) closure s s' ->
    sessionRun s0 (s' :: s :: past).

(** A step whose callback has closed over the state the reducer holds: no
    answer of the service is overtaken by another change of the session. *)
Definition inOrderStep (s s' : SessionState) : Prop := sessionStep [s] s s s'.

(** *** Vocabulary for the states of a run *)

(** A detection with the identifier and the photo of one that a known state
    holds. *)
Definition originates (known : list SessionState) (d' : Detection) : Prop :=
  exists s d, s ∈ known /\ holds s d /\ det_id d = det_id d' /\
              photoId d = photoId d'.

(** A detection of photo [pid] whose identifier no known state holds. *)
Definition unseen (known : list SessionState) (pid : jsstring)
  (d' : Detection) : Prop :=
  photoId d' = pid /\
  forall s d, s ∈ known -> holds s d -> det_id d <> det_id d'.

Definition sourced (known : list SessionState) (pid : jsstring)
  (d' : Detection) : Prop :=
  originates known d' \/ unseen known pid d'.

Definition sourcedState (known : list SessionState) (pid : jsstring)
  (s' : SessionState) : Prop :=
  (forall d', d' ∈ ss_detections s' -> sourced known pid d') /\
  (forall photo d', photo ∈ ss_photos s' -> d' ∈ photo_detections photo ->
                    sourced known pid d' /\ photoId d' = photo_id photo).

(** In every known state the identifiers of the flat list are pairwise
    different and the detections of a photo name it; across the known
    states an identifier belongs to one photo. *)
Definition runInv (known : list SessionState) : Prop :=
  (forall s, s ∈ known ->
     NoDup (det_id <$> ss_detections s) /\ namesPhoto s) /\
  (forall s1 s2 d1 d2, s1 ∈ known -> s2 ∈ known -> holds s1 d1 -> holds s2 d2 ->
     det_id d1 = det_id d2 -> photoId d1 = photoId d2).

(** *** Samples of a session *)

Definition sampleClock (k : nat) : nat -> N := sampleNow.

(** One pending package, one photo without detections. *)
Definition sampleSession : SessionState :=
  mkSessionState [createPackage "C01K" "1234" pending]
                 [mkPhoto (js "photo-1") (js "data:image/png;base64,AAAA")
                          1770000000000 false []]
                 [] (js "session-1") 1770000000000 1770000000000.

(** The answer of the service for a photo of the sticker of that package. *)
Definition sampleAnswer : list AIDetection :=
  [mkAIDetection (js "C01K 1234") (Some (js "C01K")) (Some (js "1234")) None None
                 (Qmake 95 100)
                 (Qmake 1 10, Qmake 1 10, Qmake 3 10, Qmake 2 10) None].

(** The detection made of that answer for the photo. *)
Definition sampleDetection : Detection :=
  toDetection (js "photo-1") (sampleUuid 0) (mkAIDetection (js "C01K 1234")
    (Some (js "C01K")) (Some (js "1234")) None None (Qmake 95 100)
    (Qmake 1 10, Qmake 1 10, Qmake 3 10, Qmake 2 10) None).

(** Identifiers for a second photo. *)
Definition sampleUuid2 (k : nat) : jsstring := js "second-" ++ decimal k.

(** *** Vocabulary for the earlier revision of the parser *)

(** What the earlier revision stores for the package at position [k]: the
    apartment is what [/^(C\d{2}[A-Z])/] captured. *)
Definition legacyShape (uuidv4 : nat -> jsstring) (now : nat -> N) (k : nat)
  (p : Package) : Prop :=
  pkg_id p = uuidv4 k /\ importedAt p = now k /\ pkg_status p = pending /\
  (exists b c d, apartment p = [67; b; c; d] /\ isDigit b = true /\
                 isDigit c = true /\ isUpper d = true) /\
  (4 <= length (fullTracking p))%nat /\
  trackingLast4 p = sliceLast4 (fullTracking p) /\
  recipient p <> [].

Definition legacyInv (uuidv4 : nat -> jsstring) (now : nat -> N)
  (st : ParseState) : Prop :=
  seenInv st /\ NoDup (pkgKey <$> acc_packages st) /\
  (forall k p, acc_packages st !! k = Some p -> legacyShape uuidv4 now k p).

(** The package of [lineCentral]. *)
Definition packageCentral : Package :=
  mkPackage (sampleUuid 0) (js "C05B") (js "9679") (js "UPS") (js "JOHN DOE")
            (js "1ZA8272V1341859679") (sampleNow 0) pending.

(* ===================================================================== *)
(** * Part II: properties                                                  *)
(* ===================================================================== *)

(** ** The reconciliation engine *)

Section Matching.

Implicit Types (st : MatchState) (d : Detection) (ps : list Package)
  (ds : list Detection) (a l : jsstring).

Lemma processDetection_Step st d :
  Step st d (processDetection st d).1 (processDetection st d).2.
Proof.
  unfold processDetection.
  destruct (truthy (parsedApartment d)) eqn:Ha; simpl.
  2:{ apply step_unreadable. unfold readable. by rewrite Ha. }
  destruct (truthy (parsedLast4 d)) eqn:Hl; simpl.
  2:{ apply step_unreadable. unfold readable. by rewrite Ha, Hl. }
  assert (Hr : readable d = true) by (unfold readable; by rewrite Ha, Hl).
  fold (detApartment d) (detLast4 d). fold (detKey d).
  case_bool_decide as Hk; simpl.
  { by apply step_duplicate. }
  destruct (matchingPackages (detApartment d) (detLast4 d) (st_packages st))
    as [|[i pkg] [|q rest]] eqn:Hm; simpl.
  - by apply step_orphan.
  - by apply step_matched.
  - apply step_ambiguous; try done. rewrite Hm. simpl. lia.
Qed.

Lemma matchingFrom_spec i a l ps j p :
  (j, p) ∈ matchingFrom i a l ps <->
  exists k, j = (i + k)%nat /\ ps !! k = Some p /\ isMatch a l p = true.
Proof.
  revert i. induction ps as [|q ps IH]; intros i; simpl.
  - split; [intros H; inversion H | intros (k & _ & H & _); done].
  - destruct (isMatch a l q) eqn:Hq.
    + rewrite elem_of_cons, IH. split.
      * intros [Heq | (k & -> & Hk & Hp)].
        -- inversion Heq; subst. exists 0%nat. split; [lia | done].
        -- exists (S k). split; [lia | done].
      * intros ([|k] & -> & Hk & Hp).
        -- left. simpl in Hk. inversion Hk; subst. f_equal. lia.
        -- right. exists k. split; [lia | done].
    + rewrite IH. split.
      * intros (k & -> & Hk & Hp). exists (S k). split; [lia | done].
      * intros ([|k] & -> & Hk & Hp).
        -- simpl in Hk. inversion Hk; subst. congruence.
        -- exists k. split; [lia | done].
Qed.

Lemma matchingPackages_spec a l ps j p :
  (j, p) ∈ matchingPackages a l ps <-> ps !! j = Some p /\ isMatch a l p = true.
Proof.
  unfold matchingPackages. rewrite matchingFrom_spec. split.
  - intros (k & -> & H). done.
  - intros H. exists j. done.
Qed.

Lemma matchingFrom_insert_irrelevant i a l ps j p p0 :
  ps !! j = Some p0 -> isMatch a l p0 = false -> isMatch a l p = false ->
  matchingFrom i a l (<[j := p]> ps) = matchingFrom i a l ps.
Proof.
  revert i j. induction ps as [|q ps IH]; intros i j Hj H0 Hp; [done|].
  destruct j as [|j]; simpl in *.
  - inversion Hj; subst. by rewrite H0, Hp.
  - rewrite (IH (S i) j Hj H0 Hp). done.
Qed.

Lemma isMatch_true a l p :
  isMatch a l p = true <->
  apartment p = a /\ trackingLast4 p = l /\ pkg_status p = pending.
Proof.
  unfold isMatch. rewrite !andb_true_iff, !bool_decide_eq_true. tauto.
Qed.

Lemma matchingPackages_single a l ps i pkg :
  matchingPackages a l ps = [(i, pkg)] ->
  ps !! i = Some pkg /\ apartment pkg = a /\ trackingLast4 pkg = l /\
  pkg_status pkg = pending.
Proof.
  intros H.
  assert (Hin : (i, pkg) ∈ matchingPackages a l ps) by (rewrite H; left).
  apply matchingPackages_spec in Hin as [Hi Hm].
  apply isMatch_true in Hm. tauto.
Qed.

Lemma Step_mono st d st' d' :
  Step st d st' d' -> matchedCombos st ⊆ matchedCombos st'.
Proof. destruct 1; simpl; set_solver. Qed.

Lemma Step_length st d st' d' :
  Step st d st' d' -> length (st_packages st') = length (st_packages st).
Proof. destruct 1; simpl; try done. by rewrite length_insert. Qed.

Lemma Step_sameDetectionData st d st' d' :
  Step st d st' d' -> sameDetectionData d d'.
Proof. destruct 1; repeat split. Qed.

Lemma Step_lookup st d st' d' j p :
  Step st d st' d' -> st_packages st !! j = Some p ->
  exists p', st_packages st' !! j = Some p' /\ samePackageData p p' /\
             (pkg_status p' = pkg_status p \/
              (pkg_status p = pending /\ pkg_status p' = found)).
Proof.
  destruct 1 as [| |i pkg Hr Hk Hm| |]; intros Hj;
    try (exists p; repeat split; auto; fail).
  apply matchingPackages_single in Hm as (Hi & _ & _ & Hs). simpl.
  destruct (decide (i = j)) as [->|Hne].
  - exists (setPkgStatus found pkg). rewrite Hj in Hi. inversion Hi; subst.
    split; [apply list_lookup_insert_eq; by eapply lookup_lt_Some|].
    repeat split; auto.
  - exists p. rewrite list_lookup_insert_ne by done. repeat split; auto.
Qed.


Lemma Step_claimedInv st d st' d' :
  Step st d st' d' -> claimedInv st -> claimedInv st'.
Proof.
  destruct 1 as [| |i pkg Hr Hk Hm| |]; intros Hinv; try done.
  pose proof (matchingPackages_single _ _ _ _ _ Hm) as (Hi & Ha & Hl & Hs).
  intros k. simpl. rewrite elem_of_union, elem_of_singleton, (Hinv k). split.
  - intros [-> | (p & Hp & Hc & Hkey)].
    + exists (setPkgStatus found pkg). split; [|split; [done|]].
      * apply list_elem_of_lookup. exists i. apply list_lookup_insert_eq.
        by eapply lookup_lt_Some.
      * unfold pkgKey, detKey. simpl. by rewrite Ha, Hl.
    + exists p. split; [|done]. apply list_elem_of_lookup in Hp as [j Hj].
      apply list_elem_of_lookup. exists j. rewrite list_lookup_insert_ne; [done|].
      intros ->. rewrite Hj in Hi. inversion Hi; subst. unfold isClaimed in Hc.
      by rewrite Hs in Hc.
  - intros (p & Hp & Hc & Hkey). apply list_elem_of_lookup in Hp as [j Hj].
    destruct (decide (i = j)) as [->|Hne].
    + rewrite list_lookup_insert_eq in Hj by (by eapply lookup_lt_Some).
      inversion Hj; subst. left. unfold pkgKey, detKey. simpl. by rewrite Ha, Hl.
    + rewrite list_lookup_insert_ne in Hj by done. right.
      exists p. split; [|done]. apply list_elem_of_lookup. by exists j.
Qed.

Lemma addClaimed_spec mc ps k :
  k ∈ addClaimed mc ps <->
  k ∈ mc \/ exists p, p ∈ ps /\ isClaimed p = true /\ pkgKey p = k.
Proof.
  unfold addClaimed. revert mc. induction ps as [|q ps IH]; intros mc; simpl.
  - split; [auto | intros [H | (p & H & _)]; [done | inversion H]].
  - rewrite IH. destruct (isClaimed q) eqn:Hq.
    + rewrite elem_of_union, elem_of_singleton. split.
      * intros [[-> | H] | (p & Hp & Hc & Hk)]; auto.
        -- right. exists q. split; [left | done].
        -- right. exists p. split; [by right | done].
      * intros [H | (p & Hp & Hc & Hk)]; auto.
        apply elem_of_cons in Hp as [-> | Hp]; [by left; left|].
        right. exists p. done.
    + split.
      * intros [H | (p & Hp & Hc & Hk)]; auto.
        right. exists p. split; [by right | done].
      * intros [H | (p & Hp & Hc & Hk)]; auto.
        apply elem_of_cons in Hp as [-> | Hp]; [congruence|].
        right. exists p. done.
Qed.

Lemma initialState_claimedInv ps : claimedInv (initialState ps).
Proof.
  intros k. unfold initialState; simpl. rewrite addClaimed_spec. split.
  - intros [H | H]; [set_solver | done].
  - auto.
Qed.


Lemma reaches_mono st st' : reaches st st' -> matchedCombos st ⊆ matchedCombos st'.
Proof.
  induction 1 as [|s1 s2 s3 (d & d' & Hs) _ IH]; [done|].
  etrans; [by eapply Step_mono | done].
Qed.

Lemma reaches_length st st' :
  reaches st st' -> length (st_packages st') = length (st_packages st).
Proof.
  induction 1 as [|s1 s2 s3 (d & d' & Hs) _ IH]; [done|].
  rewrite IH. by eapply Step_length.
Qed.

Lemma reaches_claimedInv st st' : reaches st st' -> claimedInv st -> claimedInv st'.
Proof.
  induction 1 as [|s1 s2 s3 (d & d' & Hs) _ IH]; [done|].
  intros H. apply IH. by eapply Step_claimedInv.
Qed.


Lemma reaches_lookup st st' j p :
  reaches st st' -> st_packages st !! j = Some p ->
  exists p', st_packages st' !! j = Some p' /\ samePackageData p p' /\
             (pkg_status p' = pkg_status p \/
              (pkg_status p = pending /\ pkg_status p' = found)).
Proof.
  intros H. revert p. induction H as [s|s1 s2 s3 (d & d' & Hs) _ IH]; intros p Hj.
  - exists p. repeat split; auto.
  - destruct (Step_lookup _ _ _ _ _ _ Hs Hj) as (p1 & H1 & Hd1 & Hs1).
    destruct (IH _ H1) as (p2 & H2 & Hd2 & Hs2).
    exists p2. split; [done|]. split.
    + unfold samePackageData in *. destruct_and!. repeat split; congruence.
    + destruct Hs1 as [E1 | [E1 F1]], Hs2 as [E2 | [E2 F2]]; try (left; congruence);
        try (right; split; congruence).
Qed.

Lemma matchLoop_reaches st ds : reaches st (matchLoop st ds).1.
Proof.
  revert st. induction ds as [|d ds IH]; intros st; simpl; [apply rtc_refl|].
  pose proof (processDetection_Step st d) as Hs.
  destruct (processDetection st d) as [st1 d1]. simpl in Hs.
  specialize (IH st1). destruct (matchLoop st1 ds) as [st2 out]. simpl in *.
  eapply rtc_l; [|exact IH]. by exists d, d1.
Qed.

Lemma matchLoop_length st ds : length (matchLoop st ds).2 = length ds.
Proof.
  revert st. induction ds as [|d ds IH]; intros st; simpl; [done|].
  destruct (processDetection st d) as [st1 d1].
  specialize (IH st1). destruct (matchLoop st1 ds) as [st2 out]. simpl in *.
  by rewrite IH.
Qed.

Lemma matchLoop_app st ds1 ds2 :
  matchLoop st (ds1 ++ ds2) =
  ((matchLoop (matchLoop st ds1).1 ds2).1,
   (matchLoop st ds1).2 ++ (matchLoop (matchLoop st ds1).1 ds2).2).
Proof.
  revert st. induction ds1 as [|d ds1 IH]; intros st; simpl.
  - by destruct (matchLoop st ds2).
  - destruct (processDetection st d) as [st1 d1]. rewrite IH.
    destruct (matchLoop st1 ds1) as [st2 out]. simpl. done.
Qed.





Lemma processDetection_matched st d i pkg :
  readable d = true -> detKey d ∉ matchedCombos st ->
  matchingPackages (detApartment d) (detLast4 d) (st_packages st) = [(i, pkg)] ->
  processDetection st d =
  (mkMatchState (<[i := setPkgStatus found pkg]> (st_packages st))
                ({[ detKey d ]} ∪ matchedCombos st),
   setMatchedPackageId (Some (pkg_id pkg)) (setDetStatus matched d)).
Proof.
  intros Hr Hk Hm. unfold processDetection, readable in *.
  apply andb_true_iff in Hr as [-> ->]. simpl.
  fold (detApartment d) (detLast4 d). fold (detKey d).
  rewrite bool_decide_eq_false_2 by done. by rewrite Hm.
Qed.

Lemma processDetection_duplicate st d :
  readable d = true -> detKey d ∈ matchedCombos st ->
  processDetection st d = (st, setDetStatus duplicate d).
Proof.
  intros Hr Hk. unfold processDetection, readable in *.
  apply andb_true_iff in Hr as [-> ->]. simpl.
  fold (detApartment d) (detLast4 d). fold (detKey d).
  by rewrite bool_decide_eq_true_2.
Qed.

Lemma matchLoop_lookup st ds j e :
  ds !! j = Some e ->
  (matchLoop st ds).2 !! j =
  Some (processDetection (matchLoop st (take j ds)).1 e).2.
Proof.
  revert st j. induction ds as [|d ds IH]; intros st j Hj; [done|].
  destruct j as [|j]; simpl in *.
  - inversion Hj; subst. destruct (processDetection st e) as [st1 d1].
    by destruct (matchLoop st1 ds).
  - destruct (processDetection st d) as [st1 d1].
    specialize (IH st1 j Hj).
    destruct (matchLoop st1 ds) as [st2 out].
    destruct (matchLoop st1 (take j ds)) as [st3 out3]. simpl in *. done.
Qed.

Lemma matchDetections_length packages detections :
  length (updatedPackages (matchDetections packages detections)) = length packages /\
  length (updatedDetections (matchDetections packages detections)) = length detections.
Proof.
  unfold matchDetections.
  pose proof (matchLoop_reaches (initialState packages) detections) as Hr.
  pose proof (matchLoop_length (initialState packages) detections) as Hl.
  destruct (matchLoop (initialState packages) detections) as [st out]. simpl in *.
  split; [|done]. by rewrite (reaches_length _ _ Hr).
Qed.

Lemma matchLoop_sameDetectionData st ds :
  Forall2 sameDetectionData ds (matchLoop st ds).2.
Proof.
  revert st. induction ds as [|d ds IH]; intros st; simpl; [constructor|].
  pose proof (processDetection_Step st d) as Hs.
  destruct (processDetection st d) as [st1 d1]. simpl in Hs.
  specialize (IH st1). destruct (matchLoop st1 ds) as [st2 out]. simpl in *.
  constructor; [by eapply Step_sameDetectionData | done].
Qed.

(** The records returned are those received, in number and order, up to
    the status of a package and the status, matchedPackageId and notes of a
    detection. *)
Lemma matchDetections_same_data packages detections :
  Forall2 samePackageData packages
          (updatedPackages (matchDetections packages detections)) /\
  Forall2 sameDetectionData detections
          (updatedDetections (matchDetections packages detections)).
Proof.
  unfold matchDetections.
  pose proof (matchLoop_reaches (initialState packages) detections) as Hr.
  pose proof (matchLoop_sameDetectionData (initialState packages) detections) as Hd.
  destruct (matchLoop (initialState packages) detections) as [st out]. simpl in *.
  split; [|done]. apply Forall2_same_length_lookup_2.
  - by rewrite (reaches_length _ _ Hr).
  - intros i p q Hp Hq.
    destruct (reaches_lookup _ _ _ _ Hr Hp) as (p' & Hp' & Hsame & _).
    simpl in Hp'. rewrite Hq in Hp'. by injection Hp' as <-.
Qed.

End Matching.

(** C10. [rematchSingleDetection] never consults the set it builds from
    [allDetections]: whatever that argument is, the packages and the
    detection it returns are those of [matchDetections(packages, [detection])],
    whose single output detection is the loop body applied to [detection] in
    the initial state. *)
Theorem rematchSingleDetection_ignores_allDetections
  (packages : list Package) (detection : Detection)
  (all1 all2 : list Detection) :
  rematchSingleDetection packages detection all1 =
  rematchSingleDetection packages detection all2 /\
  rm_updatedPackages (rematchSingleDetection packages detection all1) =
  updatedPackages (matchDetections packages [detection]) /\
  updatedDetection (rematchSingleDetection packages detection all1) =
  updatedDetections (matchDetections packages [detection]) !! 0%nat /\
  updatedDetection (rematchSingleDetection packages detection all1) =
  Some (processDetection (initialState packages) detection).2.
Proof.
  unfold rematchSingleDetection, matchDetections. simpl.
  destruct (processDetection (initialState packages) detection) as [st d1].
  simpl. done.
Qed.

(** C1, at the failing input. One pending package C01K/1234; [det-1] and
    [det-2] both read C01K/1234 and [det-1] is recorded as matched. The set
    built from the other detections holds the key of [det-2], yet re-matching
    [det-2] alone calls it matched and takes the package, where the batch run
    over the same packages and detections calls it duplicate. *)
Theorem rematchSingleDetection_differs_from_batch :
  let p := createPackage "C01K" "1234" pending in
  let d1 := createDetection "det-1" (Some "C01K") (Some "1234") matched in
  let d2 := createDetection "det-2" (Some "C01K") (Some "1234") orphan in
  detKey d2 ∈ rematchCombos [p] d2 [d1; d2] /\
  (det_status <$> updatedDetection (rematchSingleDetection [p] d2 [d1; d2]))
    = Some matched /\
  (det_status <$> (updatedDetections (matchDetections [p] [d1; d2]) !! 1%nat))
    = Some duplicate.
Proof.
  split; [apply (bool_decide_unpack _); by vm_compute | split; by vm_compute].
Qed.




(** C3 as stated fails for a field that is not null but empty: the empty
    string is falsy, so a detection reading apartment [""] is unreadable
    although exactly one pending package has the same pair and the key is
    not claimed. *)
Lemma nonnull_empty_apartment_not_matched :
  let p := createPackage "" "1234" pending in
  let d := createDetection "det-1" (Some "") (Some "1234") matched in
  let r := matchDetections [p] [d] in
  parsedApartment d <> None /\ parsedLast4 d <> None /\
  (detKey d ∉ matchedCombos (initialState [p])) /\
  matchingPackages (detApartment d) (detLast4 d) [p] = [(0%nat, p)] /\
  (det_status <$> updatedDetections r) = [unreadable] /\
  (pkg_status <$> updatedPackages r) = [pending].
Proof.
  repeat split; try done; try (apply (bool_decide_unpack _); by vm_compute).
Qed.

(** C3, amended: "non-null" becomes "non-null and non-empty". When the loop
    reaches a detection [d] both of whose fields are truthy, in a state whose
    claimed set lacks the key of [d] and where exactly one pending package
    [pkg], at position [i], has the pair of [d], then in the result of the
    call the package at [i] is [pkg] with status found, the detection at the
    position of [d] is matched with matchedPackageId the id of [pkg], and
    every later detection of the call with the same pair is duplicate. *)
Theorem single_pending_match
  (packages : list Package) (pre post : list Detection) (d : Detection)
  (i : nat) (pkg : Package) :
  let st := (matchLoop (initialState packages) pre).1 in
  let r := matchDetections packages (pre ++ d :: post) in
  readable d = true ->
  detKey d ∉ matchedCombos st ->
  matchingPackages (detApartment d) (detLast4 d) (st_packages st) = [(i, pkg)] ->
  (exists p', updatedPackages r !! i = Some p' /\ pkg_status p' = found /\
              samePackageData pkg p') /\
  (exists d', updatedDetections r !! length pre = Some d' /\
              det_status d' = matched /\
              matchedPackageId d' = Some (pkg_id pkg) /\
              sameDetectionData d d') /\
  (forall j e, post !! j = Some e -> readable e = true ->
               detApartment e = detApartment d -> detLast4 e = detLast4 d ->
               exists e', updatedDetections r !! (length pre + 1 + j)%nat = Some e' /\
                          det_status e' = duplicate).
Proof.
  intros st r Hr Hk Hm. subst r. unfold matchDetections.
  rewrite matchLoop_app. fold st.
  pose proof (matchLoop_length (initialState packages) pre) as Hlen.
  destruct (matchLoop (initialState packages) pre) as [st0 out0].
  simpl in st, Hlen. subst st. simpl.
  rewrite (processDetection_matched _ _ _ _ Hr Hk Hm).
  set (st1 := mkMatchState _ _).
  pose proof (matchLoop_reaches st1 post) as Hreach.
  assert (Hpost : forall j e, post !! j = Some e ->
            (matchLoop st1 post).2 !! j =
            Some (processDetection (matchLoop st1 (take j post)).1 e).2)
    by (intros; by apply matchLoop_lookup).
  assert (Hmono : forall j, matchedCombos st1 ⊆ matchedCombos (matchLoop st1 (take j post)).1)
    by (intros; apply reaches_mono, matchLoop_reaches).
  destruct (matchLoop st1 post) as [stf outf]. simpl in *.
  apply matchingPackages_single in Hm as (Hi & Ha & Hl & Hs).
  split; [|split].
  - assert (H1 : st_packages st1 !! i = Some (setPkgStatus found pkg)).
    { subst st1. simpl. apply list_lookup_insert_eq. by eapply lookup_lt_Some. }
    destruct (reaches_lookup _ _ _ _ Hreach H1) as (p' & Hp' & Hd & Hst).
    exists p'. split; [done|]. split; [|done].
    destruct Hst as [Hst | [Hst _]]; [by rewrite Hst | done].
  - eexists. split.
    + rewrite lookup_app_r by lia. replace (length pre - length out0)%nat with 0%nat by lia.
      done.
    + repeat split.
  - intros j e Hj Hre Hea Hel.
    rewrite lookup_app_r by lia.
    replace (length pre + 1 + j - length out0)%nat with (S j) by lia. simpl.
    rewrite (Hpost _ _ Hj).
    rewrite processDetection_duplicate; [|done|].
    + eexists. split; [done|]. done.
    + apply Hmono. subst st1. simpl. unfold detKey. rewrite Hea, Hel. set_solver.
Qed.

(** The scenario of the specification (one pending package, one detection
    with its pair). *)
Lemma single_pending_match_witness :
  let p := createPackage "C01K" "1234" pending in
  let d := createDetection "det-1" (Some "C01K") (Some "1234") matched in
  let r := matchDetections [p] ([] ++ d :: []) in
  (exists p', updatedPackages r !! 0%nat = Some p' /\ pkg_status p' = found /\
              samePackageData p p') /\
  (exists d', updatedDetections r !! 0%nat = Some d' /\
              det_status d' = matched /\
              matchedPackageId d' = Some (pkg_id p) /\
              sameDetectionData d d') /\
  (forall j e, [] !! j = Some e -> readable e = true ->
               detApartment e = detApartment d -> detLast4 e = detLast4 d ->
               exists e', updatedDetections r !! (0 + 1 + j)%nat = Some e' /\
                          det_status e' = duplicate).
Proof.
  intros p d.
  apply (single_pending_match [p] [] [] d 0%nat p).
  - reflexivity.
  - apply (bool_decide_unpack _). by vm_compute.
  - reflexivity.
Defined.


(** ** The manifest parser *)

(** Replaces the literals of the source by their code units. *)
Ltac js_literals :=
  repeat match goal with
         | |- context [js (String ?a ?s)] =>
             let v := eval vm_compute in (js (String a s)) in
             change (js (String a s)) with v
         | H : context [js (String ?a ?s)] |- _ =>
             let v := eval vm_compute in (js (String a s)) in
             change (js (String a s)) with v in H
         end.

Section ParserProps.

Variable uuidv4 : nat -> jsstring.
Variable now : nat -> N.

Implicit Types (st : ParseState) (ln t : jsstring) (lines : list jsstring).

Lemma js_cons_nonempty (s r : jsstring) c : (c :: s) ++ r <> [].
Proof. done. Qed.

Lemma js_nonempty a s : js (String a s) <> [].
Proof. done. Qed.

Lemma js_app_nonempty a s (r : jsstring) : js (String a s) ++ r <> [].
Proof. done. Qed.

Ltac reason_nonempty :=
  unfold reasonNoApartmentAtStart, reasonNoCarrier, reasonInsufficientFields,
    reasonNoApartmentIn, reasonInvalidFormat, reasonNoRecipient,
    reasonTrackingTooShort, reasonDuplicate, reasonException;
  first [apply js_nonempty | apply js_app_nonempty].

Lemma segmentLine_reason_nonempty t why :
  segmentLine t = Returned (inl why) -> why <> [].
Proof.
  unfold segmentLine, segmentByAnchor, segmentByFields, element.
  destruct (carrierRefMatch t) as [index|].
  - destruct (apartmentMatch _); [|intros [= <-]; reason_nonempty].
    destruct (_ <? _)%nat; [intros [= <-]; reason_nonempty|].
    by destruct (_ !! _).
  - destruct (_ <? _)%nat; [intros [= <-]; reason_nonempty|].
    destruct (_ !! 0%nat); [|done].
    destruct (apartmentMatch _); [|intros [= <-]; reason_nonempty].
    by destruct (_ !! 2%nat).
Qed.

Lemma decomposeField_reason_nonempty apt field why :
  decomposeField apt field = Returned (inl why) -> why <> [].
Proof.
  unfold decomposeField, element.
  destruct (_ <? _)%nat; [intros [= <-]; reason_nonempty|].
  destruct (_ !! 0%nat); [|done]. destruct (_ !! 2%nat); [|done].
  destruct (noTrackingPatterns _).
  - destruct (noTrackMatch _) as [[g1 g2]|]; [|done]. by destruct (trim g2).
  - destruct (_ <? _)%nat; [intros [= <-]; reason_nonempty|].
    destruct (_ !! 0%nat); [|done].
    destruct (_ <? _)%nat; [intros [= <-]; reason_nonempty|done].
Qed.

Lemma extractLine_reason_nonempty t why :
  extractLine t = Returned (inl why) -> why <> [].
Proof.
  unfold extractLine.
  destruct (segmentLine t) as [[why'|[apt field]]|message] eqn:Hs; [| |done].
  - intros [= <-]. by eapply segmentLine_reason_nonempty.
  - apply decomposeField_reason_nonempty.
Qed.

Lemma processLine_LineStep st index ln :
  LineStep uuidv4 now st index ln (processLine uuidv4 now st index ln).
Proof.
  unfold processLine.
  destruct (trim ln) as [|c t] eqn:Ht; [by apply line_skipped|].
  rewrite <- Ht.
  assert (Hne : trim ln <> []) by (rewrite Ht; done).
  destruct (extractLine (trim ln)) as [[why|e]|message] eqn:He.
  - apply line_error; [done|]. by eapply extractLine_reason_nonempty.
  - case_bool_decide as Hk.
    + apply line_error; [done | reason_nonempty].
    + by apply line_package.
  - apply line_error; [done | reason_nonempty].
Qed.

Lemma forEachLine_app st index lines1 lines2 :
  forEachLine uuidv4 now st index (lines1 ++ lines2) =
  forEachLine uuidv4 now (forEachLine uuidv4 now st index lines1)
              (index + length lines1) lines2.
Proof.
  revert st index. induction lines1 as [|ln lines1 IH]; intros st index; simpl.
  - by rewrite Nat.add_0_r.
  - rewrite IH. f_equal. lia.
Qed.

Lemma parseLines_snoc lines ln :
  parseLines uuidv4 now (lines ++ [ln]) =
  processLine uuidv4 now (parseLines uuidv4 now lines) (length lines) ln.
Proof. unfold parseLines. by rewrite forEachLine_app. Qed.




Lemma parseLines_take_S lines i ln :
  lines !! i = Some ln ->
  parseLines uuidv4 now (take (S i) lines) =
  processLine uuidv4 now (parseLines uuidv4 now (take i lines)) i ln.
Proof.
  intros Hi. rewrite (take_S_r _ _ _ Hi), parseLines_snoc.
  rewrite length_take_le; [done|]. apply lookup_lt_Some in Hi. lia.
Qed.

Lemma LineStep_seenInv st index ln st' :
  LineStep uuidv4 now st index ln st' -> seenInv st -> seenInv st'.
Proof.
  destruct 1 as [|why|e Hne He Hk]; intros Hinv; try done.
  intros k. simpl. rewrite elem_of_union, elem_of_singleton, (Hinv k). split.
  - intros [-> | (p & Hp & Hkey)].
    + eexists. split; [apply elem_of_app; right; left | done].
    + exists p. split; [apply elem_of_app; by left | done].
  - intros (p & Hp & Hkey). apply elem_of_app in Hp as [Hp | Hp].
    + right. by exists p.
    + apply list_elem_of_singleton in Hp as ->. by left.
Qed.

Lemma LineStep_NoDup st index ln st' :
  LineStep uuidv4 now st index ln st' -> seenInv st ->
  NoDup (pkgPair <$> acc_packages st) -> NoDup (pkgPair <$> acc_packages st').
Proof.
  destruct 1 as [|why|e Hne He Hk]; intros Hinv Hnd; try done. simpl.
  rewrite fmap_app. apply NoDup_app. split; [done|]. split; [|apply NoDup_singleton].
  intros pr Hin Hin2. simpl in Hin2. apply list_elem_of_singleton in Hin2 as ->.
  apply list_elem_of_fmap in Hin as (p & Hpair & Hp).
  apply Hk. apply Hinv. exists p. split; [done|].
  unfold pkgPair, packageOf in Hpair. simpl in Hpair. inversion Hpair as [[Ha Hl]].
  unfold pkgKey. by rewrite <- Ha, <- Hl.
Qed.

Lemma forEachLine_invariants st index lines :
  seenInv st -> NoDup (pkgPair <$> acc_packages st) ->
  seenInv (forEachLine uuidv4 now st index lines) /\
  NoDup (pkgPair <$> acc_packages (forEachLine uuidv4 now st index lines)).
Proof.
  revert st index. induction lines as [|ln lines IH]; intros st index Hinv Hnd; [done|].
  simpl. pose proof (processLine_LineStep st index ln) as Hs.
  apply IH; [by eapply LineStep_seenInv | by eapply LineStep_NoDup].
Qed.

Lemma parseLines_invariants lines :
  seenInv (parseLines uuidv4 now lines) /\
  NoDup (pkgPair <$> acc_packages (parseLines uuidv4 now lines)).
Proof.
  apply forEachLine_invariants; simpl; [|constructor].
  intros k. split; [set_solver|]. intros (p & Hp & _). inversion Hp.
Qed.






(** *** Strings *)

Lemma takeWhile_dropWhile f (s : jsstring) : takeWhile f s ++ dropWhile f s = s.
Proof. induction s as [|c s IH]; simpl; [done|]. destruct (f c); simpl; congruence. Qed.

Lemma dropWhile_head f (s : jsstring) c r : dropWhile f s = c :: r -> f c = false.
Proof.
  induction s as [|x s IH]; simpl; [done|].
  destruct (f x) eqn:E; [done|]. by intros [= <- <-].
Qed.

Lemma dropWhile_false f (s : jsstring) c : f c = false -> dropWhile f (c :: s) = c :: s.
Proof. intros H. simpl. by rewrite H. Qed.

Lemma trimEnd_prefix (s : jsstring) : exists w, s = trimEnd s ++ w.
Proof.
  exists (rev (takeWhile isSpace (rev s))). unfold trimEnd.
  rewrite <- rev_app_distr, takeWhile_dropWhile. by rewrite rev_involutive.
Qed.

Lemma trim_head (s : jsstring) c r : trim s = c :: r -> isSpace c = false.
Proof.
  unfold trim, trimStart. intros H.
  destruct (trimEnd_prefix (dropWhile isSpace s)) as [w Hw].
  rewrite H in Hw. simpl in Hw. by apply dropWhile_head in Hw.
Qed.

Lemma trim_prefix_of_unspaced (s : jsstring) c r :
  s = c :: r -> isSpace c = false -> exists w, s = trim s ++ w.
Proof.
  intros -> Hc. unfold trim, trimStart. rewrite (dropWhile_false _ _ _ Hc).
  apply trimEnd_prefix.
Qed.

Lemma splitChar_head sep (s : jsstring) :
  exists p ps r, splitChar sep s = p :: ps /\ s = p ++ r.
Proof.
  induction s as [|c s (p & ps & r & IH & Hs)]; simpl.
  - by exists [], [], [].
  - destruct (c =? sep).
    + by exists [], (splitChar sep s), (c :: s).
    + rewrite IH. simpl. exists (c :: p), ps, r. by rewrite Hs at 1.
Qed.

Lemma splitWide_head (s : jsstring) :
  exists p ps r, splitWide s = p :: ps /\ s = p ++ r.
Proof.
  unfold splitWide.
  induction s as [|c s (p & ps & r & IH & Hs)]; simpl.
  - by exists [], [], [].
  - assert (Hcons : exists p0 ps0 r0,
              consFirst c (splitWideFrom false s) = p0 :: ps0 /\ c :: s = p0 ++ r0).
    { rewrite IH. simpl. exists (c :: p), ps, r. by rewrite Hs at 1. }
    destruct (isSpace c); [|done].
    destruct s as [|c2 s]; [done|].
    destruct (isSpace c2); [|done].
    by exists [], (splitWideFrom true (c2 :: s)), (c :: c2 :: s).
Qed.

Lemma apartmentMatch_app (p q m : jsstring) :
  apartmentMatch p = Some m -> apartmentMatch (p ++ q) = Some m.
Proof. destruct p as [|a [|b [|c [|d p]]]]; done. Qed.


Lemma toUpperChar_letter c : isLetter c = true -> isUpper (toUpperChar c) = true.
Proof.
  unfold isLetter, toUpperChar, isUpper, isLower.
  destruct ((97 <=? c) && (c <=? 122)) eqn:E.
  - intros _. apply andb_true_iff in E as [E1 E2].
    apply N.leb_le in E1, E2. apply andb_true_iff. split; apply N.leb_le; lia.
  - rewrite orb_false_r. done.
Qed.

Lemma toUpperChar_digit c : isDigit c = true -> toUpperChar c = c.
Proof.
  unfold isDigit, toUpperChar, isLower. intros H.
  apply andb_true_iff in H as [H1 H2]. apply N.leb_le in H1, H2.
  destruct ((97 <=? c) && (c <=? 122)) eqn:E; [|done].
  apply andb_true_iff in E as [E1 E2]. apply N.leb_le in E1, E2. lia.
Qed.

Lemma apartmentMatch_code (s m : jsstring) :
  apartmentMatch s = Some m -> isApartmentCode (toUpperCase m) = true.
Proof.
  destruct s as [|a [|b [|c [|d s]]]]; try done. simpl.
  destruct (isLetter a) eqn:Ha; [|done]. destruct (isDigit b) eqn:Hb; [|done].
  destruct (isDigit c) eqn:Hc; [|done]. destruct (isLetter d) eqn:Hd; [|done].
  intros [= <-]. simpl.
  rewrite (toUpperChar_letter _ Ha), (toUpperChar_letter _ Hd).
  rewrite (toUpperChar_digit _ Hb), (toUpperChar_digit _ Hc), Hb, Hc. done.
Qed.

(** *** The apartment of a line *)

Lemma trimmed_piece_prefix t c r p w :
  t = c :: r -> isSpace c = false -> t = p ++ w ->
  trim p = [] \/ exists w', t = trim p ++ w'.
Proof.
  intros Ht Hc Hp. destruct p as [|x p]; [by left|].
  right. rewrite Ht in Hp. simpl in Hp. injection Hp as <- Hr.
  destruct (trim_prefix_of_unspaced (c :: p) c p eq_refl Hc) as [w1 Hw1].
  exists (w1 ++ w). rewrite app_assoc, <- Hw1, Ht, Hr. done.
Qed.

Lemma firstField_prefix t c r field0 :
  t = c :: r -> isSpace c = false ->
  (if includes TAB t then map trim (splitChar TAB t)
   else map trim (splitWide t)) !! 0%nat = Some field0 ->
  field0 = [] \/ exists w, t = field0 ++ w.
Proof.
  intros Ht Hc H0.
  destruct (splitChar_head TAB t) as (p1 & ps1 & w1 & E1 & F1).
  destruct (splitWide_head t) as (p2 & ps2 & w2 & E2 & F2).
  destruct (includes TAB t).
  - rewrite E1 in H0. simpl in H0. injection H0 as <-.
    by eapply trimmed_piece_prefix.
  - rewrite E2 in H0. simpl in H0. injection H0 as <-.
    by eapply trimmed_piece_prefix.
Qed.

Lemma segmentLine_apartment t c r apt field :
  t = c :: r -> isSpace c = false ->
  segmentLine t = Returned (inr (apt, field)) ->
  exists m, apartmentMatch t = Some m /\ apt = toUpperCase m.
Proof.
  intros Ht Hc. unfold segmentLine, segmentByAnchor, segmentByFields, element.
  destruct (carrierRefMatch t) as [index|].
  - destruct (apartmentMatch (take index t)) as [m|] eqn:Hm; [|done].
    destruct (_ <? _)%nat; [done|]. destruct (_ !! _); [|done].
    intros [= <- _]. exists m. split; [|done].
    rewrite <- (take_drop index t). by apply apartmentMatch_app.
  - destruct (_ <? _)%nat; [done|].
    destruct (_ !! 0%nat) as [field0|] eqn:H0; [|done].
    destruct (apartmentMatch field0) as [m|] eqn:Hm; [|done].
    destruct (_ !! 2%nat); [|done]. intros [= <- _]. exists m. split; [|done].
    destruct (firstField_prefix _ _ _ _ Ht Hc H0) as [-> | [w Hw]]; [done|].
    rewrite Hw. by apply apartmentMatch_app.
Qed.



Lemma decomposeField_apartment apt field e :
  decomposeField apt field = Returned (inr e) -> ex_apartment e = apt.
Proof.
  unfold decomposeField, element.
  destruct (_ <? _)%nat; [done|].
  destruct (_ !! 0%nat); [|done]. destruct (_ !! 2%nat); [|done].
  destruct (noTrackingPatterns _).
  - destruct (noTrackMatch _) as [[g1 g2]|]; [|by intros [= <-]].
    destruct (trim g2); by intros [= <-].
  - destruct (_ <? _)%nat; [done|]. destruct (_ !! 0%nat); [|done].
    destruct (_ <? _)%nat; [done|]. by intros [= <-].
Qed.

Lemma extractLine_apartment t c r e :
  t = c :: r -> isSpace c = false ->
  extractLine t = Returned (inr e) ->
  exists m, apartmentMatch t = Some m /\ ex_apartment e = toUpperCase m.
Proof.
  intros Ht Hc. unfold extractLine.
  destruct (segmentLine t) as [[why|[apt field]]|message] eqn:Hs; try done.
  intros He. apply decomposeField_apartment in He as ->.
  by eapply segmentLine_apartment.
Qed.


Lemma LineStep_apartments st index ln st' :
  LineStep uuidv4 now st index ln st' ->
  Forall (fun p => isApartmentCode (apartment p) = true) (acc_packages st) ->
  Forall (fun p => isApartmentCode (apartment p) = true) (acc_packages st').
Proof.
  destruct 1 as [|why|e Hne He Hk]; intros Hall; try done. simpl.
  apply Forall_app. split; [done|]. apply Forall_singleton. simpl.
  destruct (trim ln) as [|c r] eqn:Ht; [done|].
  destruct (extractLine_apartment _ _ _ _ eq_refl (trim_head _ _ _ Ht) He)
    as (m & Hm & ->).
  by eapply apartmentMatch_code.
Qed.

Lemma forEachLine_apartments st index lines :
  Forall (fun p => isApartmentCode (apartment p) = true) (acc_packages st) ->
  Forall (fun p => isApartmentCode (apartment p) = true)
         (acc_packages (forEachLine uuidv4 now st index lines)).
Proof.
  revert st index. induction lines as [|ln lines IH]; intros st index Hall; [done|].
  simpl. apply IH. eapply LineStep_apartments; [apply processLine_LineStep | done].
Qed.


(** *** Lines without a tracking number *)

Lemma dropWhile_idemp f (s : jsstring) : dropWhile f (dropWhile f s) = dropWhile f s.
Proof.
  induction s as [|c s IH]; simpl; [done|].
  destruct (f c) eqn:E; [done|]. simpl. by rewrite E.
Qed.

Lemma trimEnd_idemp (s : jsstring) : trimEnd (trimEnd s) = trimEnd s.
Proof. unfold trimEnd. by rewrite rev_involutive, dropWhile_idemp. Qed.

Lemma trimStart_unspaced (s : jsstring) c r :
  s = c :: r -> isSpace c = false -> trimStart s = s.
Proof. intros -> H. by apply dropWhile_false. Qed.

Lemma trim_idemp (s : jsstring) : trim (trim s) = trim s.
Proof.
  destruct (trim s) as [|c r] eqn:E; [done|]. rewrite <- E.
  unfold trim at 1. rewrite (trimStart_unspaced _ c r E (trim_head _ _ _ E)).
  unfold trim. apply trimEnd_idemp.
Qed.

Lemma afterWord_app (w s r x : jsstring) :
  afterWord w s = Some r -> afterWord w (s ++ x) = Some (r ++ x).
Proof.
  revert s. induction w as [|u w IH]; intros s; simpl.
  - by intros [= ->].
  - destruct s as [|c s]; [done|]. simpl. destruct (ciChar u c); [apply IH | done].
Qed.

Lemma afterWord_length (w s r : jsstring) :
  afterWord w s = Some r -> length s = (length w + length r)%nat.
Proof.
  revert s. induction w as [|u w IH]; intros s; simpl.
  - by intros [= ->].
  - destruct s as [|c s]; [done|]. destruct (ciChar u c); [|done].
    intros H. simpl. by rewrite (IH _ H).
Qed.

Lemma afterSpaces_app (s r x : jsstring) :
  afterSpaces s = Some r -> r <> [] -> afterSpaces (s ++ x) = Some (r ++ x).
Proof.
  unfold afterSpaces. destruct s as [|c s]; [done|]. simpl.
  destruct (isSpace c); [|done]. intros [= <-] Hne. f_equal.
  induction s as [|d s IH]; simpl in *; [done|].
  destruct (isSpace d); [by apply IH | done].
Qed.

Lemma afterSpaces_length (s r : jsstring) :
  afterSpaces s = Some r -> (length r < length s)%nat.
Proof.
  unfold afterSpaces. destruct s as [|c s]; [done|]. simpl.
  destruct (isSpace c); [|done]. intros [= <-].
  induction s as [|d s IH]; simpl; [lia|]. destruct (isSpace d); simpl; lia.
Qed.

Lemma afterWord_TRK_not_TRACKING (s r x : jsstring) :
  afterWord (js "TRK") s = Some r -> afterWord (js "TRACKING") (s ++ x) = None.
Proof.
  js_literals. destruct s as [|a [|b [|c s]]]; try done; simpl.
  - by destruct (ciChar _ a).
  - destruct (ciChar _ a); [|done]. by destruct (ciChar _ b).
  - destruct (ciChar _ a); [|done]. destruct (ciChar _ b); [|done].
    unfold ciChar. destruct (toUpperChar c =? 75) eqn:E; [|done].
    apply N.eqb_eq in E. rewrite E. done.
Qed.

Lemma afterWord_nonempty (w s r : jsstring) :
  w <> [] -> afterWord w s = Some r -> s <> [].
Proof. destruct w; [done|]. by destruct s. Qed.

Lemma afterNoTracking_app (s r x : jsstring) :
  afterNoTracking s = Some r -> afterNoTracking (s ++ x) = Some (r ++ x).
Proof.
  unfold afterNoTracking.
  destruct (afterWord (js "NO") s) as [r0|] eqn:H0; [|done].
  rewrite (afterWord_app _ _ _ x H0).
  destruct (afterSpaces r0) as [r1|] eqn:H1; [|done].
  destruct (afterWord (js "TRACKING") r1) as [r2|] eqn:H2.
  - intros [= <-].
    rewrite (afterSpaces_app _ _ x H1) by (eapply afterWord_nonempty; [|eassumption]; by js_literals).
    by rewrite (afterWord_app _ _ _ x H2).
  - intros H3.
    rewrite (afterSpaces_app _ _ x H1) by (eapply afterWord_nonempty; [|eassumption]; by js_literals).
    rewrite (afterWord_TRK_not_TRACKING _ _ x H3). by apply afterWord_app.
Qed.

Lemma afterNumber_app (s r x : jsstring) :
  afterNumber s = Some r -> afterNumber (s ++ x) = Some (r ++ x).
Proof.
  unfold afterNumber. destruct (afterSpaces s) as [r1|] eqn:H1; [|done].
  intros H2. rewrite (afterSpaces_app _ _ x H1) by (eapply afterWord_nonempty; [|eassumption]; by js_literals).
  by apply afterWord_app.
Qed.

Lemma afterNoTracking_length (s r : jsstring) :
  afterNoTracking s = Some r -> (length r <= length s)%nat.
Proof.
  unfold afterNoTracking.
  destruct (afterWord (js "NO") s) as [r0|] eqn:H0; [|done].
  destruct (afterSpaces r0) as [r1|] eqn:H1; [|done].
  apply afterWord_length in H0. apply afterSpaces_length in H1.
  destruct (afterWord (js "TRACKING") r1) as [r2|] eqn:H2.
  - intros [= <-]. apply afterWord_length in H2. lia.
  - intros H3. apply afterWord_length in H3. lia.
Qed.

Lemma noTrackMatch_bare (s : jsstring) :
  afterNoTracking s = Some [] -> noTrackMatch s = None.
Proof. unfold noTrackMatch. by intros ->. Qed.

Lemma trimEnd_endsUnspaced (s : jsstring) : endsUnspaced (trimEnd s).
Proof.
  unfold trimEnd, endsUnspaced. intros c.
  destruct (dropWhile isSpace (rev s)) as [|d v] eqn:E; [done|].
  simpl. rewrite last_snoc. intros [= <-]. by eapply dropWhile_head.
Qed.

Lemma trim_endsUnspaced (s : jsstring) : endsUnspaced (trim s).
Proof. apply trimEnd_endsUnspaced. Qed.

Lemma trim_startsUnspaced (s : jsstring) : startsUnspaced (trim s).
Proof.
  intros c. destruct (trim s) as [|d r] eqn:E; [done|].
  intros [= <-]. by eapply trim_head.
Qed.

Lemma trimEnd_id (s : jsstring) : endsUnspaced s -> trimEnd s = s.
Proof.
  intros H. destruct (last s) as [c|] eqn:E.
  - apply last_Some in E as [l' ->]. unfold trimEnd.
    rewrite rev_app_distr. simpl. rewrite (H c) by apply last_snoc.
    simpl. by rewrite rev_involutive.
  - apply last_None in E as ->. done.
Qed.

Lemma trimStart_id (s : jsstring) : startsUnspaced s -> trimStart s = s.
Proof.
  destruct s as [|c r]; [done|]. intros H. apply dropWhile_false. by apply H.
Qed.

Lemma trim_id (s : jsstring) : startsUnspaced s -> endsUnspaced s -> trim s = s.
Proof. intros H1 H2. unfold trim. rewrite (trimStart_id _ H1). by apply trimEnd_id. Qed.

Lemma endsUnspaced_app_r (a b : jsstring) :
  endsUnspaced (a ++ b) -> b <> [] -> endsUnspaced b.
Proof.
  intros H Hb c Hc. apply H. rewrite last_app, Hc. done.
Qed.

Lemma endsUnspaced_app (a b : jsstring) :
  endsUnspaced b -> b <> [] -> endsUnspaced (a ++ b).
Proof.
  intros H Hb c. rewrite last_app.
  destruct (last b) as [d|] eqn:E.
  - intros [= <-]. by apply H.
  - by apply last_None in E.
Qed.

Lemma isSpace_range c : 65 <= c <= 122 -> isSpace c = false.
Proof.
  intros H. unfold isSpace. simpl.
  repeat (rewrite (proj2 (N.eqb_neq _ _)) by lia). simpl.
  destruct (8192 <=? c) eqn:E; [|done]. apply N.leb_le in E. lia.
Qed.

Lemma ciChar_range u c : isUpper u = true -> ciChar u c = true -> 65 <= c <= 122.
Proof.
  unfold isUpper, ciChar, toUpperChar, isLower. intros Hu Hc.
  apply andb_true_iff in Hu as [H1 H2]. apply N.leb_le in H1, H2.
  apply N.eqb_eq in Hc.
  destruct ((97 <=? c) && (c <=? 122)) eqn:E.
  - apply andb_true_iff in E as [E1 E2]. apply N.leb_le in E1, E2. lia.
  - lia.
Qed.

Lemma ciChar_unspaced u c : isUpper u = true -> ciChar u c = true -> isSpace c = false.
Proof. intros Hu Hc. apply isSpace_range. by eapply ciChar_range. Qed.

Lemma afterWord_suffix (w s r : jsstring) :
  afterWord w s = Some r -> exists pre, s = pre ++ r.
Proof.
  revert s. induction w as [|u w IH]; intros s; simpl.
  - intros [= ->]. by exists [].
  - destruct s as [|c s]; [done|]. destruct (ciChar u c); [|done].
    intros H. destruct (IH _ H) as [pre ->]. by exists (c :: pre).
Qed.

Lemma afterSpaces_suffix (s r : jsstring) :
  afterSpaces s = Some r -> exists pre, s = pre ++ r.
Proof.
  unfold afterSpaces. destruct s as [|c s]; [done|].
  destruct (isSpace c); [|done]. intros [= <-].
  exists (takeWhile isSpace (c :: s)). by rewrite takeWhile_dropWhile.
Qed.

Lemma afterWord_head (u : char) (w s r : jsstring) :
  isUpper u = true -> afterWord (u :: w) s = Some r -> startsUnspaced s.
Proof.
  intros Hu. simpl. destruct s as [|c s]; [done|].
  destruct (ciChar u c) eqn:E; [|done]. intros _ d [= <-].
  by eapply ciChar_unspaced.
Qed.

Lemma afterWord_ends (w s : jsstring) :
  w <> [] -> forallb isUpper w = true -> afterWord w s = Some [] ->
  endsUnspaced s /\ s <> [].
Proof.
  revert s. induction w as [|u w IH]; intros s Hne Hup; [done|].
  simpl in *. apply andb_true_iff in Hup as [Hu Hup].
  destruct s as [|c s]; [done|]. destruct (ciChar u c) eqn:E; [|done].
  intros H. split; [|done]. destruct w as [|u' w].
  - simpl in H. injection H as ->. intros d [= <-]. by eapply ciChar_unspaced.
  - destruct (IH s) as [He Hn]; [done..|].
    by apply (endsUnspaced_app [c]).
Qed.

Lemma afterNoTracking_suffix (s r : jsstring) :
  afterNoTracking s = Some r -> exists pre, s = pre ++ r.
Proof.
  unfold afterNoTracking.
  destruct (afterWord (js "NO") s) as [r0|] eqn:H0; [|done].
  destruct (afterSpaces r0) as [r1|] eqn:H1; [|done].
  apply afterWord_suffix in H0 as [p0 ->]. apply afterSpaces_suffix in H1 as [p1 ->].
  destruct (afterWord (js "TRACKING") r1) as [r2|] eqn:H2.
  - intros [= <-]. apply afterWord_suffix in H2 as [p2 ->].
    exists (p0 ++ p1 ++ p2). by rewrite <- !app_assoc.
  - intros H3. apply afterWord_suffix in H3 as [p2 ->].
    exists (p0 ++ p1 ++ p2). by rewrite <- !app_assoc.
Qed.

Lemma afterNoTracking_bare_ends (s : jsstring) :
  afterNoTracking s = Some [] -> endsUnspaced s.
Proof.
  unfold afterNoTracking.
  destruct (afterWord (js "NO") s) as [r0|] eqn:H0; [|done].
  destruct (afterSpaces r0) as [r1|] eqn:H1; [|done].
  apply afterWord_suffix in H0 as [p0 ->]. apply afterSpaces_suffix in H1 as [p1 ->].
  rewrite app_assoc.
  destruct (afterWord (js "TRACKING") r1) as [r2|] eqn:H2.
  - intros [= ->]. apply afterWord_ends in H2 as [H2 H3]; [|by js_literals..].
    by apply endsUnspaced_app.
  - intros H3. apply afterWord_ends in H3 as [H3 H4]; [|by js_literals..].
    by apply endsUnspaced_app.
Qed.

Lemma afterNoTracking_starts (s r : jsstring) :
  afterNoTracking s = Some r -> startsUnspaced s.
Proof.
  unfold afterNoTracking.
  destruct (afterWord (js "NO") s) as [r0|] eqn:H0; [|done].
  intros _. revert H0. js_literals. by apply afterWord_head.
Qed.

Lemma noTrackingPhrase_trim (phrase : jsstring) :
  noTrackingPhrase phrase -> trim phrase = phrase.
Proof.
  intros [H | (r & H & Hn)].
  - apply trim_id; [by eapply afterNoTracking_starts | by apply afterNoTracking_bare_ends].
  - apply trim_id; [by eapply afterNoTracking_starts|].
    apply afterNoTracking_suffix in H as [pre ->].
    unfold afterNumber in Hn. destruct (afterSpaces r) as [r1|] eqn:H1; [|done].
    apply afterSpaces_suffix in H1 as [p1 ->].
    apply afterWord_ends in Hn as [Hn Hn']; [|by js_literals..].
    rewrite app_assoc. by apply endsUnspaced_app.
Qed.

Lemma dropWhile_app_all f (ds rest : jsstring) :
  forallb f ds = true -> (forall c, head rest = Some c -> f c = false) ->
  dropWhile f (ds ++ rest) = rest.
Proof.
  intros Hds Hr. induction ds as [|d ds IH]; simpl in *.
  - destruct rest as [|c r]; [done|]. simpl. by rewrite (Hr c).
  - apply andb_true_iff in Hds as [-> Hds]. by apply IH.
Qed.

Lemma takeWhile_all f (s : jsstring) : forallb f s = true -> takeWhile f s = s.
Proof.
  induction s as [|c s IH]; simpl; [done|].
  intros H. apply andb_true_iff in H as [-> H]. by rewrite IH.
Qed.

Lemma isDashOrSpace_false c : isDashOrSpace c = false -> isSpace c = false /\ c <> 45.
Proof.
  unfold isDashOrSpace. intros H. apply orb_false_iff in H as [H1 H2].
  split; [done|]. by apply N.eqb_neq.
Qed.

Lemma recipientGroup_shape (sep rest : jsstring) :
  dashSeparator sep -> recipientText rest ->
  recipientGroup (sep ++ rest) = Some rest.
Proof.
  intros (c & ds & -> & Hc & Hds) (c0 & r0 & -> & Hc0 & Hlt & _). simpl.
  rewrite Hc. rewrite dropWhile_app_all; [|done|by intros ? [= <-]].
  change (Some (takeWhile notLineTerminator (c0 :: r0)) = Some (c0 :: r0)).
  by rewrite takeWhile_all.
Qed.

Lemma afterNumber_shape (sep rest : jsstring) :
  dashSeparator sep -> recipientText rest -> afterNumber (sep ++ rest) = None.
Proof.
  intros (c & ds & -> & Hc & Hds) (c0 & r0 & -> & Hc0 & _ & Hnum).
  unfold afterNumber, afterSpaces. simpl. rewrite Hc.
  apply isDashOrSpace_false in Hc0 as [Hc0 _].
  induction ds as [|d ds IH]; simpl in *.
  - by rewrite Hc0.
  - apply andb_true_iff in Hds as [Hd Hds]. destruct (isSpace d) eqn:E; [by apply IH|].
    unfold isDashOrSpace in Hd. rewrite E, orb_false_r in Hd.
    apply N.eqb_eq in Hd as ->. by js_literals.
Qed.

Lemma take_length_minus (a b : jsstring) :
  take (length (a ++ b) - length b) (a ++ b) = a.
Proof.
  rewrite length_app. replace (length a + length b - length b)%nat with (length a) by lia.
  apply take_app_length.
Qed.

Lemma noTrackMatch_shape (phrase sep rest : jsstring) :
  noTrackingPhrase phrase -> dashSeparator sep -> recipientText rest ->
  noTrackMatch (phrase ++ sep ++ rest) = Some (phrase, rest).
Proof.
  intros Hp Hsep Hrest. unfold noTrackMatch.
  destruct Hp as [H | (r & H & Hn)].
  - rewrite (afterNoTracking_app _ _ (sep ++ rest) H). simpl.
    rewrite (afterNumber_shape _ _ Hsep Hrest).
    rewrite (recipientGroup_shape _ _ Hsep Hrest).
    by rewrite take_length_minus.
  - rewrite (afterNoTracking_app _ _ (sep ++ rest) H).
    rewrite (afterNumber_app _ _ (sep ++ rest) Hn). simpl.
    rewrite (recipientGroup_shape _ _ Hsep Hrest).
    by rewrite take_length_minus.
Qed.

Lemma recipientText_trim (a rest : jsstring) :
  endsUnspaced (a ++ rest) -> recipientText rest -> trim rest = rest.
Proof.
  intros He (c & r & -> & Hc & _). apply trim_id.
  - intros d [= <-]. by apply isDashOrSpace_false in Hc as [? _].
  - by apply (endsUnspaced_app_r a).
Qed.

Lemma decomposeField_noTracking apt field part0 part1 part2 more :
  splitDash field = part0 :: part1 :: part2 :: more ->
  noTrackingPatterns (trim part2) = true ->
  exists rcp full,
    decomposeField apt field =
      Returned (inr (mkExtracted apt (trim part0) rcp full NONE)) /\
    (noTrackMatch (trim part2) = None -> full = trim part2 /\ rcp = UNKNOWN) /\
    (forall g1 g2, noTrackMatch (trim part2) = Some (g1, g2) -> trim g2 <> [] ->
                   full = trim g1 /\ rcp = trim g2).
Proof.
  intros Hparts Hno. unfold decomposeField, element. rewrite Hparts. simpl.
  rewrite Hno, trim_idemp.
  destruct (noTrackMatch (trim part2)) as [[g1 g2]|].
  - destruct (trim g2) as [|c r] eqn:Hg.
    + eexists _, _. split; [done|]. split; [done|]. intros ? ? [= <- <-]. by rewrite Hg.
    + eexists _, _. split; [done|]. split; [done|]. intros ? ? [= <- <-]. by rewrite Hg.
  - eexists _, _. split; [done|]. split; [done|]. done.
Qed.

(** C4, amended. A line whose tracking segment (the third [" - "] part of
    the carrier/tracking field, trimmed) passes the no-tracking test yields
    fields with trackingLast4 ["NONE"], never an error of its own; it
    becomes a package unless the pair (apartment, ["NONE"]) was seen before
    in the call. When the segment is exactly NO TRACKING or NO TRK,
    fullTracking is the segment and recipient is ["UNKNOWN"]. When the
    segment is a no-tracking phrase, a separator of whitespace and dashes
    and recipient text, fullTracking is the phrase and recipient is the
    text. *)
Theorem no_tracking_line (st : ParseState) (index : nat) (ln : jsstring)
  (apt field part0 part1 part2 : jsstring) (more : list jsstring) :
  trim ln <> [] ->
  segmentLine (trim ln) = Returned (inr (apt, field)) ->
  splitDash field = part0 :: part1 :: part2 :: more ->
  noTrackingPatterns (trim part2) = true ->
  exists e,
    extractLine (trim ln) = Returned (inr e) /\
    ex_apartment e = apt /\ ex_carrier e = trim part0 /\
    ex_trackingLast4 e = NONE /\
    (comboKey apt NONE ∉ seenCombos st ->
     processLine uuidv4 now st index ln =
     mkParseState
       (acc_packages st ++ [packageOf uuidv4 now (length (acc_packages st)) e])
       (acc_errors st)
       ({[ comboKey apt NONE ]} ∪ seenCombos st)) /\
    (afterNoTracking (trim part2) = Some [] ->
     ex_fullTracking e = trim part2 /\ ex_recipient e = UNKNOWN) /\
    (forall phrase sep rest,
       trim part2 = phrase ++ sep ++ rest ->
       noTrackingPhrase phrase -> dashSeparator sep -> recipientText rest ->
       ex_fullTracking e = phrase /\ ex_recipient e = rest).
Proof.
  intros Hne Hseg Hparts Hno.
  destruct (decomposeField_noTracking apt _ _ _ _ _ Hparts Hno)
    as (rcp & full & Hd & Hbare & Hshape).
  exists (mkExtracted apt (trim part0) rcp full NONE).
  assert (He : extractLine (trim ln) =
               Returned (inr (mkExtracted apt (trim part0) rcp full NONE)))
    by (unfold extractLine; by rewrite Hseg).
  split; [done|]. simpl. split; [done|]. split; [done|]. split; [done|].
  split; [|split].
  - intros Hk. unfold processLine.
    destruct (trim ln) as [|c t] eqn:Ht; [done|]. rewrite He. simpl.
    by rewrite bool_decide_eq_false_2.
  - intros Hb. by apply Hbare, noTrackMatch_bare.
  - intros phrase sep rest HT Hp Hsep Hrest.
    assert (Hm : noTrackMatch (trim part2) = Some (phrase, rest))
      by (rewrite HT; by apply noTrackMatch_shape).
    assert (Hr : trim rest = rest).
    { apply (recipientText_trim (phrase ++ sep)); [|done].
      rewrite <- app_assoc, <- HT. apply trim_endsUnspaced. }
    destruct (Hshape _ _ Hm) as [-> ->].
    + rewrite Hr. by destruct Hrest as (? & ? & -> & _).
    + by rewrite (noTrackingPhrase_trim _ Hp), Hr.
Qed.

(** *** Words joined by single spaces *)

Lemma isWord_cons (w : jsstring) :
  isWord w = true ->
  exists c r, w = c :: r /\ isSpace c = false /\
              forallb (fun c => negb (isSpace c)) r = true.
Proof.
  destruct w as [|c r]; [done|]. simpl. intros H.
  apply andb_true_iff in H as [H1 H2]. exists c, r.
  split; [done|]. split; [by apply negb_true_iff | done].
Qed.

Lemma isWord_unspaced (w : jsstring) :
  isWord w = true -> forallb (fun c => negb (isSpace c)) w = true.
Proof. by destruct w. Qed.

Lemma isPlainWord_isWord (w : jsstring) : isPlainWord w = true -> isWord w = true.
Proof. unfold isPlainWord. intros H. by apply andb_true_iff in H as [? _]. Qed.

Lemma joinSpace_cons2 (w w' : jsstring) (ws : list jsstring) :
  joinSpace (w :: w' :: ws) = w ++ 32 :: joinSpace (w' :: ws).
Proof. done. Qed.

Lemma joinSpace_starts (ws : list jsstring) :
  forallb isWord ws = true -> ws <> [] ->
  exists c r, joinSpace ws = c :: r /\ isSpace c = false.
Proof.
  destruct ws as [|w ws]; [done|]. intros H _. simpl in H.
  apply andb_true_iff in H as [Hw _].
  apply isWord_cons in Hw as (c & r & -> & Hc & _).
  destruct ws as [|w' ws].
  - by exists c, r.
  - rewrite joinSpace_cons2. simpl. by eexists c, _.
Qed.

Lemma unspaced_ends (w : jsstring) :
  forallb (fun c => negb (isSpace c)) w = true -> endsUnspaced w.
Proof.
  intros H c Hc. apply last_Some in Hc as [l' ->].
  rewrite forallb_app in H. apply andb_true_iff in H as [_ H]. simpl in H.
  rewrite andb_true_r in H. by apply negb_true_iff.
Qed.

Lemma joinSpace_ends (ws : list jsstring) :
  forallb isWord ws = true -> endsUnspaced (joinSpace ws).
Proof.
  induction ws as [|w ws IH]; [done|]. intros H. simpl in H.
  apply andb_true_iff in H as [Hw Hws]. destruct ws as [|w' ws].
  - simpl. by apply unspaced_ends, isWord_unspaced.
  - rewrite joinSpace_cons2. apply endsUnspaced_app.
    + apply (endsUnspaced_app [32]); [by apply IH|].
      destruct (joinSpace_starts (w' :: ws) Hws) as (c & r & -> & _); done.
    + done.
Qed.

Lemma joinSpace_trim (ws : list jsstring) :
  forallb isWord ws = true -> trim (joinSpace ws) = joinSpace ws.
Proof.
  intros H. apply trim_id; [|by apply joinSpace_ends].
  destruct ws as [|w ws]; [done|].
  destruct (joinSpace_starts (w :: ws) H) as (c & r & -> & Hc); [done|].
  by intros ? [= <-].
Qed.

Lemma forallb_isPlainWord_isWord (ws : list jsstring) :
  forallb isPlainWord ws = true -> forallb isWord ws = true.
Proof.
  induction ws as [|w ws IH]; [done|]. simpl. intros H.
  apply andb_true_iff in H as [H1 H2].
  by rewrite (isPlainWord_isWord _ H1), IH.
Qed.

(** [split(/\s+/)] gives the words back. *)
Lemma splitSpacesFrom_unspaced (w x : jsstring) b :
  forallb (fun c => negb (isSpace c)) w = true -> w <> [] ->
  splitSpacesFrom b (w ++ x) =
  match splitSpacesFrom false x with
  | p :: ps => (w ++ p) :: ps
  | [] => [w]
  end.
Proof.
  intros H Hne. revert b. induction w as [|c w IH]; intros b; [done|].
  simpl in *. apply andb_true_iff in H as [Hc Hw].
  apply negb_true_iff in Hc. rewrite Hc.
  destruct w as [|c' w].
  - simpl. by destruct (splitSpacesFrom false x).
  - rewrite IH by done. by destruct (splitSpacesFrom false x).
Qed.

Lemma splitSpaces_joinSpace (ws : list jsstring) :
  forallb isWord ws = true -> ws <> [] ->
  splitSpaces (joinSpace ws) = ws.
Proof.
  unfold splitSpaces. induction ws as [|w ws IH]; [done|]. intros H _.
  simpl in H. apply andb_true_iff in H as [Hw Hws].
  assert (Hwne : w <> []) by (by destruct w).
  destruct ws as [|w' ws].
  - simpl. rewrite <- (app_nil_r w) at 1.
    rewrite splitSpacesFrom_unspaced by (by try apply isWord_unspaced).
    simpl. by rewrite app_nil_r.
  - rewrite joinSpace_cons2.
    rewrite splitSpacesFrom_unspaced by (by try apply isWord_unspaced).
    destruct (joinSpace_starts (w' :: ws) Hws) as (c & r & Hj & Hc); [done|].
    change (splitSpacesFrom false (32 :: joinSpace (w' :: ws)))
      with ([] :: splitSpacesFrom true (joinSpace (w' :: ws))).
    cbv iota. rewrite app_nil_r. f_equal.
    assert (E : splitSpacesFrom true (joinSpace (w' :: ws)) =
                splitSpacesFrom false (joinSpace (w' :: ws)))
      by (rewrite Hj; simpl; by rewrite Hc).
    rewrite E. by apply IH.
Qed.

(** *** The anchor in a line of words *)

Lemma carrierRefAt_unspaced c (s : jsstring) :
  isSpace c = false -> carrierRefAt (c :: s) = false.
Proof. intros H. simpl. by rewrite H. Qed.

Lemma carrierRefFrom_unspaced (w x : jsstring) i :
  forallb (fun c => negb (isSpace c)) w = true ->
  carrierRefFrom i (w ++ x) = carrierRefFrom (i + length w) x.
Proof.
  revert i. induction w as [|c w IH]; intros i H.
  - simpl. by rewrite Nat.add_0_r.
  - simpl in H. apply andb_true_iff in H as [Hc Hw]. apply negb_true_iff in Hc.
    change (carrierRefFrom i ((c :: w) ++ x))
      with (if carrierRefAt (c :: w ++ x) then Some i
            else carrierRefFrom (S i) (w ++ x)).
    rewrite (carrierRefAt_unspaced _ _ Hc), IH by done. f_equal. simpl. lia.
Qed.

Lemma isPlainWord_not_dash (w : jsstring) :
  isPlainWord w = true ->
  exists c r, w = c :: r /\ isSpace c = false /\
              forallb (fun c => negb (isSpace c)) r = true /\
              (c = 45 -> exists c' r', r = c' :: r' /\ isSpace c' = false).
Proof.
  unfold isPlainWord. intros H. apply andb_true_iff in H as [Hw Hd].
  apply isWord_cons in Hw as (c & r & -> & Hc & Hr).
  exists c, r. repeat split; try done. intros ->.
  destruct r as [|c' r'].
  - by rewrite bool_decide_eq_true_2 in Hd.
  - simpl in Hr. apply andb_true_iff in Hr as [Hc' _].
    exists c', r'. split; [done|]. by apply negb_true_iff.
Qed.

Lemma carrierRefAt_space_word (w x : jsstring) :
  isPlainWord w = true -> carrierRefAt (32 :: w ++ x) = false.
Proof.
  intros H. destruct (isPlainWord_not_dash _ H) as (c & r & -> & Hc & Hr & Hd).
  unfold carrierRefAt.
  change (dropWhile isSpace (32 :: (c :: r) ++ x))
    with (dropWhile isSpace ((c :: r) ++ x)).
  simpl. rewrite Hc. destruct (c =? 45) eqn:E; [|done].
  apply N.eqb_eq in E. destruct (Hd E) as (c' & r' & -> & Hc'). simpl.
  by rewrite Hc'.
Qed.

Lemma carrierRefFrom_cons i c (s : jsstring) :
  carrierRefFrom i (c :: s) =
  if carrierRefAt (c :: s) then Some i else carrierRefFrom (S i) s.
Proof. done. Qed.

Lemma joinSpace_head (w : jsstring) (ws : list jsstring) :
  exists y, joinSpace (w :: ws) = w ++ y.
Proof.
  destruct ws as [|w' ws]; [exists []; by rewrite app_nil_r|].
  rewrite joinSpace_cons2. by eexists.
Qed.

Lemma carrierRefFrom_words (ws : list jsstring) (A : jsstring) i :
  ws <> [] -> forallb isPlainWord ws = true ->
  carrierRefAt A = true ->
  carrierRefFrom i (joinSpace ws ++ A) = Some (i + length (joinSpace ws))%nat.
Proof.
  intros Hne Hws HA. revert i. induction ws as [|w ws IH]; intros i; [done|].
  simpl in Hws. apply andb_true_iff in Hws as [Hw Hws].
  pose proof (isWord_unspaced _ (isPlainWord_isWord _ Hw)) as Hu.
  destruct ws as [|w' ws].
  - simpl. rewrite carrierRefFrom_unspaced by done.
    destruct A as [|a A]; [done|]. by rewrite carrierRefFrom_cons, HA.
  - rewrite joinSpace_cons2, <- app_assoc, carrierRefFrom_unspaced by done.
    rewrite <- app_comm_cons, carrierRefFrom_cons.
    assert (Hw' : isPlainWord w' = true)
      by (simpl in Hws; by apply andb_true_iff in Hws as [? _]).
    destruct (joinSpace_head w' ws) as [y Hy].
    assert (E : carrierRefAt (32 :: joinSpace (w' :: ws) ++ A) = false)
      by (rewrite Hy, <- app_assoc; by apply carrierRefAt_space_word).
    match goal with
    | |- context [carrierRefAt ?t] =>
        replace (carrierRefAt t) with false by (symmetry; exact E)
    end.
    rewrite IH by done. f_equal. rewrite length_app. simpl. lia.
Qed.

Lemma carrierRefAt_anchor (ref x : jsstring) :
  ref <> [] -> forallb isDigit ref = true ->
  carrierRefAt (js " - #" ++ ref ++ x) = true.
Proof.
  intros Hne Hd. destruct ref as [|g ref]; [done|]. simpl in Hd.
  apply andb_true_iff in Hd as [Hg _]. js_literals. simpl. by rewrite Hg.
Qed.

(** *** [split(' - ')] on words *)

Lemma splitDash_unspaced (w x : jsstring) :
  forallb (fun c => negb (isSpace c)) w = true -> w <> [] ->
  splitDash (w ++ x) =
  match splitDash x with
  | p :: ps => (w ++ p) :: ps
  | [] => [w]
  end.
Proof.
  intros H Hne. induction w as [|c w IH]; [done|].
  simpl in H. apply andb_true_iff in H as [Hc Hw].
  assert (Hc32 : (c =? 32) = false).
  { apply N.eqb_neq. intros ->. done. }
  assert (Hstep : splitDash ((c :: w) ++ x) = consFirst c (splitDash (w ++ x))).
  { simpl. destruct (w ++ x) as [|d [|e rest]]; try done. by rewrite Hc32. }
  rewrite Hstep. destruct w as [|c' w].
  - simpl. by destruct (splitDash x).
  - rewrite IH by done. by destruct (splitDash x).
Qed.

Lemma splitDash_space_word (w x : jsstring) :
  isPlainWord w = true ->
  splitDash (32 :: w ++ x) = consFirst 32 (splitDash (w ++ x)).
Proof.
  intros H. destruct (isPlainWord_not_dash _ H) as (c & r & -> & Hc & Hr & Hd).
  simpl. destruct (r ++ x) as [|e rest] eqn:E; [done|].
  destruct (c =? 45) eqn:Ec; [|done].
  apply N.eqb_eq in Ec. destruct (Hd Ec) as (c' & r' & -> & Hc').
  simpl in E. injection E as <- _.
  assert (Hc32 : (c' =? 32) = false) by (apply N.eqb_neq; by intros ->).
  by rewrite Hc32.
Qed.

Lemma splitDash_words (ws : list jsstring) :
  ws <> [] -> forallb isPlainWord ws = true ->
  splitDash (joinSpace ws) = [joinSpace ws].
Proof.
  intros Hne Hws. induction ws as [|w ws IH]; [done|].
  simpl in Hws. apply andb_true_iff in Hws as [Hw Hws].
  pose proof (isWord_unspaced _ (isPlainWord_isWord _ Hw)) as Hu.
  assert (Hwne : w <> []) by (apply isPlainWord_isWord in Hw; by destruct w).
  destruct ws as [|w' ws].
  - simpl. rewrite <- (app_nil_r w) at 1. rewrite splitDash_unspaced by done.
    simpl. by rewrite app_nil_r.
  - rewrite joinSpace_cons2, splitDash_unspaced by done.
    assert (Hw' : isPlainWord w' = true) by (simpl in Hws; by apply andb_true_iff in Hws as [? _]).
    assert (E : splitDash (32 :: joinSpace (w' :: ws)) = [32 :: joinSpace (w' :: ws)]).
    { destruct ws as [|w'' ws].
      - change (joinSpace [w']) with w'.
        rewrite <- (app_nil_r w') at 1. rewrite splitDash_space_word by done.
        rewrite app_nil_r. specialize (IH ltac:(done) Hws).
        change (joinSpace [w']) with w' in IH. by rewrite IH.
      - rewrite joinSpace_cons2, splitDash_space_word by done.
        specialize (IH ltac:(done) Hws). rewrite joinSpace_cons2 in IH. by rewrite IH. }
    by rewrite E.
Qed.

Lemma splitDash_separator (w x : jsstring) :
  forallb (fun c => negb (isSpace c)) w = true -> w <> [] ->
  splitDash (w ++ js " - " ++ x) = w :: splitDash x.
Proof.
  intros H Hne. rewrite splitDash_unspaced by done. js_literals.
  change (splitDash ([32; 45; 32] ++ x)) with ([] :: splitDash x).
  cbv iota. by rewrite app_nil_r.
Qed.

(** *** A line of the single-space format *)

Lemma isSpace_printable c : 33 <= c <= 159 -> isSpace c = false.
Proof.
  intros H. unfold isSpace. simpl.
  repeat (rewrite (proj2 (N.eqb_neq _ _)) by lia). simpl.
  destruct (8192 <=? c) eqn:E; [|done]. apply N.leb_le in E. lia.
Qed.

Lemma isLetter_unspaced c : isLetter c = true -> isSpace c = false.
Proof.
  unfold isLetter, isUpper, isLower. intros H. apply isSpace_printable.
  apply orb_true_iff in H as [H | H]; apply andb_true_iff in H as [H1 H2];
    apply N.leb_le in H1, H2; lia.
Qed.

Lemma isDigit_unspaced c : isDigit c = true -> isSpace c = false.
Proof.
  unfold isDigit. intros H. apply isSpace_printable.
  apply andb_true_iff in H as [H1 H2]. apply N.leb_le in H1, H2. lia.
Qed.

Lemma apartment_isPlainWord (apt : jsstring) :
  apartmentMatch apt = Some apt -> isPlainWord apt = true /\ length apt = 4%nat.
Proof.
  destruct apt as [|a [|b [|c [|d apt]]]]; try done. simpl.
  destruct (isLetter a) eqn:Ha; [|done]. destruct (isDigit b) eqn:Hb; [|done].
  destruct (isDigit c) eqn:Hc; [|done]. destruct (isLetter d) eqn:Hd; [|done].
  simpl. intros [= <-]. split; [|done]. unfold isPlainWord. simpl.
  rewrite (isLetter_unspaced _ Ha), (isDigit_unspaced _ Hb),
    (isDigit_unspaced _ Hc), (isLetter_unspaced _ Hd). simpl.
  apply negb_true_iff, bool_decide_eq_false_2. by js_literals.
Qed.

Lemma indexOfFrom_None i c (s : jsstring) :
  Forall (fun x => x <> c) s -> indexOfFrom i c s = None.
Proof.
  intros H. revert i. induction H as [|x s Hx _ IH]; intros i; [done|].
  simpl. apply N.eqb_neq in Hx. rewrite Hx. apply IH.
Qed.

Lemma unspaced_no_tab (w : jsstring) :
  forallb (fun c => negb (isSpace c)) w = true -> Forall (fun x => x <> TAB) w.
Proof.
  intros H. apply Forall_forall. intros x Hx ->.
  rewrite forallb_forall in H. apply list_elem_of_In in Hx.
  specialize (H _ Hx). done.
Qed.

Lemma joinSpace_no_tab (ws : list jsstring) :
  forallb isWord ws = true -> Forall (fun x => x <> TAB) (joinSpace ws).
Proof.
  induction ws as [|w ws IH]; [constructor|]. simpl. intros H.
  apply andb_true_iff in H as [Hw Hws].
  pose proof (unspaced_no_tab _ (isWord_unspaced _ Hw)) as Hwt.
  destruct ws as [|w' ws]; [done|].
  apply Forall_app. split; [done|]. js_literals. constructor; [done|]. by apply IH.
Qed.

Lemma digits_no_tab (ref : jsstring) :
  forallb isDigit ref = true -> Forall (fun x => x <> TAB) ref.
Proof.
  intros H. apply unspaced_no_tab. rewrite forallb_forall in *.
  intros x Hx. apply negb_true_iff, isDigit_unspaced. by apply H.
Qed.

Lemma noTrackingPatterns_word (tracking x : jsstring) :
  isWord tracking = true -> (4 <= length tracking)%nat ->
  noTrackingPatterns (tracking ++ x) = false.
Proof.
  intros Hw Hlen. apply isWord_unspaced in Hw.
  destruct tracking as [|a [|b [|c tracking]]]; simpl in Hlen; try lia.
  unfold noTrackingPatterns. js_literals. simpl.
  destruct (ciChar 78 a); [|done]. destruct (ciChar 79 b); [|done].
  simpl in Hw. apply andb_true_iff in Hw as [_ Hw]. apply andb_true_iff in Hw as [_ Hw].
  apply andb_true_iff in Hw as [Hc _]. apply negb_true_iff in Hc.
  unfold afterSpaces. by rewrite Hc.
Qed.

Lemma stripUnit_Unit (X : jsstring) c r :
  X = c :: r -> isSpace c = false -> stripUnit (js "Unit" ++ 32 :: X) = X.
Proof. intros -> Hc. js_literals. simpl. by rewrite Hc. Qed.

Lemma extractLine_manifestLine apt entity carrierName ref tracking rwords :
  manifestShape apt entity carrierName ref tracking rwords ->
  extractLine (manifestLine apt entity carrierName ref tracking rwords) =
  Returned (inr (mkExtracted (toUpperCase apt) carrierName (joinSpace rwords)
                             tracking (sliceLast4 tracking))).
Proof.
  intros (Hapt & Hent & Hwords & Href & Hdig & Htr & Hlen & Hrne & Hrw).
  destruct (apartment_isPlainWord _ Hapt) as [Haptw Haptl].
  set (X := joinSpace (entity ++ [carrierName])).
  set (U := joinSpace (js "Unit" :: entity ++ [carrierName])).
  set (B := joinSpace (apt :: js "Unit" :: entity ++ [carrierName])).
  set (T := joinSpace (tracking :: rwords)).
  set (A' := js "- #" ++ ref ++ js " - " ++ T).
  assert (Hne1 : entity ++ [carrierName] <> []) by (by destruct entity).
  assert (HXw : forallb isWord (entity ++ [carrierName]) = true)
    by (by apply forallb_isPlainWord_isWord).
  assert (HUp : forallb isPlainWord (js "Unit" :: entity ++ [carrierName]) = true)
    by (simpl; by rewrite Hwords).
  assert (HBp : forallb isPlainWord (apt :: js "Unit" :: entity ++ [carrierName]) = true)
    by (simpl; simpl in HUp; by rewrite Haptw, HUp).
  assert (HTw : forallb isWord (tracking :: rwords) = true)
    by (simpl; by rewrite Htr, (forallb_isPlainWord_isWord _ Hrw)).
  assert (HTp : forallb isPlainWord (tracking :: rwords) = true).
  { simpl. rewrite Hrw, andb_true_r. unfold isPlainWord. rewrite Htr. simpl.
    apply negb_true_iff, bool_decide_eq_false_2. intros ->. simpl in Hlen. lia. }
  assert (HBU : B = apt ++ 32 :: U).
  { unfold B, U. destruct (entity ++ [carrierName]); [done|]. done. }
  assert (HUX : U = js "Unit" ++ 32 :: X).
  { unfold U, X. destruct (entity ++ [carrierName]); [done|]. done. }
  assert (HL : manifestLine apt entity carrierName ref tracking rwords = B ++ 32 :: A')
    by done.
  destruct (joinSpace_starts _ HXw Hne1) as (cx & rx & HX & Hcx). fold X in HX.
  (* the anchor *)
  assert (Hanchor : carrierRefMatch (B ++ 32 :: A') = Some (length B)).
  { unfold carrierRefMatch.
    refine (carrierRefFrom_words (apt :: js "Unit" :: entity ++ [carrierName])
              (32 :: A') 0%nat _ HBp _); [done|].
    by apply (carrierRefAt_anchor ref (js " - " ++ T)). }
  unfold extractLine, segmentLine. rewrite HL, Hanchor.
  unfold segmentByAnchor. rewrite take_app_length, drop_app_length.
  (* the apartment and the carrier *)
  assert (HaptB : apartmentMatch B = Some apt)
    by (rewrite HBU; by apply apartmentMatch_app).
  rewrite HaptB.
  assert (Hafter : trim (drop (length apt) B) = U).
  { rewrite HBU, drop_app_length.
    change (trim (32 :: U)) with (trim U).
    apply joinSpace_trim. by apply forallb_isPlainWord_isWord. }
  rewrite Hafter, HUX, (stripUnit_Unit X cx rx HX Hcx).
  assert (Hsplit : splitSpaces (trim X) = entity ++ [carrierName])
    by (unfold X; by rewrite (joinSpace_trim _ HXw), (splitSpaces_joinSpace _ HXw Hne1)).
  rewrite !Hsplit.
  assert (Hlen2 : (length (entity ++ [carrierName]) <? 2)%nat = false).
  { apply Nat.ltb_ge. rewrite length_app. simpl. destruct entity; [done|]. simpl. lia. }
  rewrite Hlen2. unfold element.
  assert (Hlast : (entity ++ [carrierName]) !! (length (entity ++ [carrierName]) - 1)%nat
                  = Some carrierName).
  { rewrite length_app. simpl.
    replace (length entity + 1 - 1)%nat with (length entity) by lia.
    by rewrite list_lookup_middle. }
  rewrite Hlast.
  (* the carrier/tracking field *)
  assert (HA' : trim (32 :: A') = A').
  { change (trim (32 :: A')) with (trim A'). apply trim_id.
    - unfold A'. js_literals. by intros ? [= <-].
    - unfold A'. rewrite !app_assoc. apply endsUnspaced_app; [by apply joinSpace_ends|].
      destruct (joinSpace_starts _ HTw) as (c & r & E & _); [done|]. fold T in E.
      by rewrite E. }
  rewrite HA'.
  assert (Htab : indexOf TAB A' = None).
  { apply indexOfFrom_None. unfold A'. apply Forall_app. split; [by js_literals; repeat constructor|].
    apply Forall_app. split; [by apply digits_no_tab|].
    apply Forall_app. split; [by js_literals; repeat constructor|].
    by apply joinSpace_no_tab. }
  rewrite Htab.
  assert (Hfield : carrierName ++ js " " ++ A' =
                   carrierName ++ js " - " ++ (35 :: ref) ++ js " - " ++ T) by done.
  rewrite Hfield. unfold decomposeField, element.
  assert (Hcw : isWord carrierName = true).
  { rewrite forallb_app in HXw. apply andb_true_iff in HXw as [_ H]. simpl in H.
    by apply andb_true_iff in H as [? _]. }
  assert (Hcne : carrierName <> []) by (by destruct carrierName).
  assert (Hparts : splitDash (carrierName ++ js " - " ++ (35 :: ref) ++ js " - " ++ T)
                   = [carrierName; 35 :: ref; T]).
  { rewrite splitDash_separator by (by try apply isWord_unspaced).
    rewrite splitDash_separator; [|simpl|done].
    - unfold T. by rewrite splitDash_words.
    - rewrite forallb_forall in *. intros x Hx.
      apply negb_true_iff, isDigit_unspaced. by apply Hdig. }
  rewrite Hparts. simpl.
  assert (Hctrim : trim carrierName = carrierName).
  { apply (joinSpace_trim [carrierName]). simpl. by rewrite Hcw. }
  rewrite Hctrim.
  assert (HTtrim : trim T = T) by apply (joinSpace_trim _ HTw).
  rewrite !HTtrim.
  destruct (joinSpace_head tracking rwords) as [y Hy].
  assert (Hno : noTrackingPatterns T = false)
    by (unfold T; rewrite Hy; by apply noTrackingPatterns_word).
  assert (HTsplit : splitSpaces T = tracking :: rwords)
    by (unfold T; by rewrite (splitSpaces_joinSpace _ HTw)).
  rewrite Hno, !HTsplit.
  assert (Hlen3 : (length (tracking :: rwords) <? 2)%nat = false).
  { apply Nat.ltb_ge. simpl. destruct rwords; [done|]. simpl. lia. }
  rewrite Hlen3. simpl.
  assert (Hlen4 : (length tracking <? 4)%nat = false) by (by apply Nat.ltb_ge).
  rewrite Hlen4. by rewrite drop_0.
Qed.

(** *** Lines with the anchor are not short of fields *)

Lemma reason_starts_Ins n : take 3 (reasonInsufficientFields n) = js "Ins".
Proof. done. Qed.

Lemma segmentByAnchor_not_insufficient t idx n :
  segmentByAnchor t idx <> Returned (inl (reasonInsufficientFields n)).
Proof.
  unfold segmentByAnchor, element.
  destruct (apartmentMatch _); [|intros [= E]; by apply (f_equal (take 3)) in E].
  destruct (_ <? _)%nat; [intros [= E]; by apply (f_equal (take 3)) in E|].
  by destruct (_ !! _).
Qed.

Lemma decomposeField_not_insufficient apt field n :
  decomposeField apt field <> Returned (inl (reasonInsufficientFields n)).
Proof.
  unfold decomposeField, element.
  destruct (_ <? _)%nat; [intros [= E]; by apply (f_equal (take 3)) in E|].
  destruct (_ !! 0%nat); [|done]. destruct (_ !! 2%nat); [|done].
  destruct (noTrackingPatterns _).
  - destruct (noTrackMatch _) as [[g1 g2]|]; [|done]. by destruct (trim g2).
  - destruct (_ <? _)%nat; [intros [= E]; by apply (f_equal (take 3)) in E|].
    destruct (_ !! 0%nat); [|done].
    destruct (_ <? _)%nat; [intros [= E]; by apply (f_equal (take 3)) in E|done].
Qed.

Lemma manifestLine_trim apt entity carrierName ref tracking rwords :
  manifestShape apt entity carrierName ref tracking rwords ->
  manifestLine apt entity carrierName ref tracking rwords <> [].
Proof.
  intros (Hapt & _). unfold manifestLine.
  destruct apt as [|a apt]; [done|].
  destruct (joinSpace_head (a :: apt) (js "Unit" :: entity ++ [carrierName])) as [y ->].
  done.
Qed.

(** C6, amended. A non-blank line whose trimmed text holds the anchor
    [<space> - <space>#<digits>] is segmented at the anchor and is never
    rejected for insufficient fields; it becomes a package when the later
    stages succeed. In particular a line of the single-space format
    [APT Unit ENTITY ... CARRIER - #REF - TRACKING RECIPIENT ...] yields the
    apartment in upper case, the carrier, the tracking code, its last four
    characters and the recipient, and becomes a package unless its pair was
    seen before. *)
Theorem anchored_line (st : ParseState) (index : nat) (ln : jsstring) (idx : nat) :
  trim ln <> [] ->
  carrierRefMatch (trim ln) = Some idx ->
  segmentLine (trim ln) = segmentByAnchor (trim ln) idx /\
  (forall n, extractLine (trim ln) <> Returned (inl (reasonInsufficientFields n))) /\
  (forall n, acc_errors (processLine uuidv4 now st index ln) <>
             acc_errors st ++
               [mkParsingError (index + 1) (trim ln) (reasonInsufficientFields n)]) /\
  (forall apt entity carrierName ref tracking rwords,
     manifestShape apt entity carrierName ref tracking rwords ->
     trim ln = manifestLine apt entity carrierName ref tracking rwords ->
     let e := mkExtracted (toUpperCase apt) carrierName (joinSpace rwords)
                          tracking (sliceLast4 tracking) in
     extractLine (trim ln) = Returned (inr e) /\
     (comboKey (ex_apartment e) (ex_trackingLast4 e) ∉ seenCombos st ->
      processLine uuidv4 now st index ln =
      mkParseState
        (acc_packages st ++ [packageOf uuidv4 now (length (acc_packages st)) e])
        (acc_errors st)
        ({[ comboKey (ex_apartment e) (ex_trackingLast4 e) ]} ∪ seenCombos st))).
Proof.
  intros Hne Hidx.
  assert (Hseg : segmentLine (trim ln) = segmentByAnchor (trim ln) idx)
    by (unfold segmentLine; by rewrite Hidx).
  assert (Hext : forall n,
            extractLine (trim ln) <> Returned (inl (reasonInsufficientFields n))).
  { intros n. unfold extractLine. rewrite Hseg.
    pose proof (segmentByAnchor_not_insufficient (trim ln) idx n) as H1.
    destruct (segmentByAnchor (trim ln) idx) as [[why|[apt field]]|message]; [| |done].
    - intros [= E]. apply H1. by rewrite E.
    - apply decomposeField_not_insufficient. }
  split; [done|]. split; [done|]. split.
  - intros n E. unfold processLine in E.
    destruct (trim ln) as [|c t] eqn:Ht; [done|]. rewrite <- Ht in *.
    destruct (extractLine (trim ln)) as [[why|e]|message] eqn:He.
    + simpl in E. apply app_inv_head in E.
      assert (why = reasonInsufficientFields n) as -> by congruence.
      by apply (Hext n).
    + case_bool_decide.
      * simpl in E. apply app_inv_head in E.
        assert (E' : reasonDuplicate (ex_apartment e) (ex_trackingLast4 e)
                     = reasonInsufficientFields n) by congruence.
        by apply (f_equal (take 3)) in E'.
      * simpl in E. apply (f_equal length) in E. rewrite length_app in E.
        simpl in E. lia.
    + simpl in E. apply app_inv_head in E.
      assert (E' : reasonException message = reasonInsufficientFields n) by congruence.
      by apply (f_equal (take 3)) in E'.
  - intros apt entity carrierName ref tracking rwords Hshape Hln e.
    assert (He : extractLine (trim ln) = Returned (inr e))
      by (rewrite Hln; by apply extractLine_manifestLine).
    split; [done|]. intros Hk. unfold processLine.
    destruct (trim ln) as [|c t] eqn:Ht; [done|]. rewrite He.
    by rewrite bool_decide_eq_false_2.
Qed.

(** *** The statements inside [try] do not throw *)

Lemma segmentLine_returns t : exists r, segmentLine t = Returned r.
Proof.
  unfold segmentLine, segmentByAnchor, segmentByFields, element.
  destruct (carrierRefMatch t) as [index|].
  - destruct (apartmentMatch _); [|by eexists].
    destruct (_ <? _)%nat eqn:E; [by eexists|]. apply Nat.ltb_ge in E.
    destruct (_ !! _) eqn:El; [by eexists|]. apply lookup_ge_None in El. lia.
  - destruct (_ <? _)%nat eqn:E; [by eexists|]. apply Nat.ltb_ge in E.
    destruct (_ !! 0%nat) as [v|] eqn:El; [|apply lookup_ge_None in El; lia].
    destruct (apartmentMatch v); [|by eexists].
    destruct (_ !! 2%nat) eqn:El2; [by eexists|]. apply lookup_ge_None in El2. lia.
Qed.

Lemma decomposeField_returns apt field : exists r, decomposeField apt field = Returned r.
Proof.
  unfold decomposeField, element.
  destruct (_ <? _)%nat eqn:E; [by eexists|]. apply Nat.ltb_ge in E.
  destruct (_ !! 0%nat) as [p0|] eqn:El; [|apply lookup_ge_None in El; lia].
  destruct (_ !! 2%nat) as [p2|] eqn:El2; [|apply lookup_ge_None in El2; lia].
  destruct (noTrackingPatterns _).
  - destruct (noTrackMatch _) as [[g1 g2]|]; [|by eexists].
    destruct (trim g2); by eexists.
  - destruct (_ <? _)%nat eqn:E2; [by eexists|]. apply Nat.ltb_ge in E2.
    destruct (splitSpaces (trim p2) !! 0%nat) as [tk|] eqn:El3;
      [|apply lookup_ge_None in El3; lia].
    destruct (_ <? _)%nat; by eexists.
Qed.

(** No property of [undefined] is ever read: every index is guarded by the
    length check before it. *)
Lemma extractLine_returns t : exists r, extractLine t = Returned r.
Proof.
  unfold extractLine. destruct (segmentLine_returns t) as [[why|[apt field]] ->].
  - by eexists.
  - apply decomposeField_returns.
Qed.

(** *** A line that starts with an apartment code *)





Lemma dropWhile_app f (a b : jsstring) :
  dropWhile f (a ++ b) =
  match dropWhile f a with
  | [] => dropWhile f b
  | r => r ++ b
  end.
Proof.
  induction a as [|x a IH]; simpl; [by destruct (dropWhile f b)|].
  destruct (f x); [done | done].
Qed.





End ParserProps.

(** *** The apartment code *)

Section ApartmentCode.

Variable uuidv4 : nat -> jsstring.
Variable now : nat -> N.




End ApartmentCode.


(** The second of two lines without tracking number for one apartment:
    C4 as stated fails, the line passes the no-tracking test and yet is
    rejected as a duplicate entry. *)
Lemma no_tracking_second_line_rejected :
  let r := parsePackageList sampleUuid sampleNow (joinLines [lineJohnDoe; lineJaneRoe]) in
  (exists apt field part0 part1 part2,
     segmentLine (trim lineJaneRoe) = Returned (inr (apt, field)) /\
     splitDash field = [part0; part1; part2] /\
     noTrackingPatterns (trim part2) = true) /\
  (recipient <$> packages r) = [js "John Doe"] /\
  errors r = [mkParsingError 2 lineJaneRoe (reasonDuplicate (js "N01A") NONE)].
Proof.
  split; [|split]; [|by vm_compute..].
  exists (js "N01A"), (js "UPS - #222 - NO TRACKING -- Jane Roe"),
    (js "UPS"), (js "#222"), (js "NO TRACKING -- Jane Roe").
  by vm_compute.
Qed.

(** The phrase NO TRACKING NUMBER with nothing after it: the optional
    word is given back to the recipient group. *)
Lemma no_tracking_number_alone :
  let r := parsePackageList sampleUuid sampleNow lineNumberAlone in
  (fullTracking <$> packages r) = [js "NO TRACKING"] /\
  (recipient <$> packages r) = [js "NUMBER"] /\
  (trackingLast4 <$> packages r) = [NONE] /\
  errors r = [].
Proof. by vm_compute. Qed.

Lemma no_tracking_line_witness :
  exists e,
    extractLine (trim lineJohnDoe) = Returned (inr e) /\
    ex_apartment e = js "N01A" /\ ex_carrier e = trim (js "USPS") /\
    ex_trackingLast4 e = NONE /\
    (comboKey (js "N01A") NONE ∉ seenCombos (mkParseState [] [] ∅) ->
     processLine sampleUuid sampleNow (mkParseState [] [] ∅) 0 lineJohnDoe =
     mkParseState
       ([] ++ [packageOf sampleUuid sampleNow 0 e]) []
       ({[ comboKey (js "N01A") NONE ]} ∪ ∅)) /\
    (afterNoTracking (trim (js "NO TRACKING -- John Doe")) = Some [] ->
     ex_fullTracking e = trim (js "NO TRACKING -- John Doe") /\
     ex_recipient e = UNKNOWN) /\
    (forall phrase sep rest,
       trim (js "NO TRACKING -- John Doe") = phrase ++ sep ++ rest ->
       noTrackingPhrase phrase -> dashSeparator sep -> recipientText rest ->
       ex_fullTracking e = phrase /\ ex_recipient e = rest).
Proof.
  apply (no_tracking_line sampleUuid sampleNow (mkParseState [] [] ∅) 0
           lineJohnDoe (js "N01A")
           (js "USPS - #111 - NO TRACKING -- John Doe")
           (js "USPS") (js "#111") (js "NO TRACKING -- John Doe") []).
  - by vm_compute.
  - by vm_compute.
  - by vm_compute.
  - by vm_compute.
Defined.





(** C6 as stated fails: a line with the anchor, no tab and no run of
    spaces, which is not parsed into a package. *)
Lemma anchor_alone_is_no_package :
  let r := parsePackageList sampleUuid sampleNow lineAnchorOnly in
  carrierRefMatch (trim lineAnchorOnly) = Some 5%nat /\
  includes TAB lineAnchorOnly = false /\
  splitWide lineAnchorOnly = [lineAnchorOnly] /\
  packages r = [] /\
  errors r = [mkParsingError 1 lineAnchorOnly reasonNoApartmentAtStart].
Proof. by vm_compute. Qed.

Lemma anchored_line_witness :
  trim lineOffice <> [] /\
  carrierRefMatch (trim lineOffice) = Some 29%nat /\
  segmentLine (trim lineOffice) = segmentByAnchor (trim lineOffice) 29 /\
  (forall n, extractLine (trim lineOffice)
             <> Returned (inl (reasonInsufficientFields n))) /\
  (forall n, acc_errors (processLine sampleUuid sampleNow (mkParseState [] [] ∅)
                                     0 lineOffice) <>
             [] ++ [mkParsingError (0 + 1) (trim lineOffice)
                                   (reasonInsufficientFields n)]).
Proof.
  assert (H1 : trim lineOffice <> []) by (by vm_compute).
  assert (H2 : carrierRefMatch (trim lineOffice) = Some 29%nat) by (by vm_compute).
  split; [exact H1|]. split; [exact H2|].
  pose proof (anchored_line sampleUuid sampleNow (mkParseState [] [] ∅) 0
                lineOffice 29 H1 H2) as (G1 & G2 & G3 & _).
  split; [exact G1|]. split; [exact G2 | exact G3].
Defined.

(** The single-space line of the test-suite is parsed into its package. *)
Lemma office_line_parsed :
  packages (parsePackageList sampleUuid sampleNow lineOffice) =
  [mkPackage (sampleUuid 0) (js "N01C") (js "3530") (js "USPS")
             (js "Gustavo Cuina") (js "420330199361289719660506103530")
             (sampleNow 0) pending].
Proof. by vm_compute. Qed.

(** ** The earlier revision of the parser *)

(** What the earlier pattern accepts, the current one accepts with the same
    group, which is in upper case already. *)
Lemma legacy_apartmentMatch_current (s m : jsstring) :
  Legacy.apartmentMatch s = Some m ->
  apartmentMatch s = Some m /\ toUpperCase m = m /\ isApartmentCode m = true.
Proof.
  destruct s as [|a [|b [|c [|d s]]]]; try done. simpl.
  destruct (a =? 67) eqn:Ha; [|done]. apply N.eqb_eq in Ha as ->.
  destruct (isDigit b) eqn:Hb; [|done]. destruct (isDigit c) eqn:Hc; [|done].
  destruct (isUpper d) eqn:Hd; [|done]. simpl. intros [= <-].
  assert (Hl : isLetter d = true) by (unfold isLetter; by rewrite Hd).
  assert (Hlow : isLower d = false).
  { unfold isUpper in Hd. unfold isLower.
    apply andb_true_iff in Hd as [_ Hd]. apply N.leb_le in Hd.
    apply andb_false_iff. left. apply N.leb_gt. lia. }
  change (isLetter 67) with true. rewrite Hl. simpl. split; [done|].
  rewrite (toUpperChar_digit _ Hb), (toUpperChar_digit _ Hc).
  unfold toUpperChar at 2. rewrite Hlow. split; [done|].
  by rewrite Hb, Hc, Hd.
Qed.

(** Every apartment of the earlier revision is [C##L]. *)
Lemma legacy_apartments uuidv4 now st index lines :
  Forall (fun p => isApartmentCode (apartment p) = true) (acc_packages st) ->
  Forall (fun p => isApartmentCode (apartment p) = true)
         (acc_packages (Legacy.forEachLine uuidv4 now st index lines)).
Proof.
  revert st index. induction lines as [|ln lines IH]; intros st index Hall; [done|].
  simpl. apply IH. unfold Legacy.processLine.
  destruct (trim ln) as [|c t]; [done|].
  destruct (Legacy.extractLine (c :: t)) as [[why|e]|message] eqn:He; try done.
  destruct (bool_decide _); [done|]. simpl.
  apply Forall_app. split; [done|]. apply Forall_singleton. simpl.
  clear -He. unfold Legacy.extractLine, element in He.
  repeat match type of He with
         | (if ?b then _ else _) = _ => destruct b; [done|]
         | match ?x !! ?i with _ => _ end = _ => destruct (x !! i); [|done]
         | match Legacy.apartmentMatch ?x with _ => _ end = _ =>
             let E := fresh "E" in
             destruct (Legacy.apartmentMatch x) as [m|] eqn:E; [|done]
         end.
  injection He as <-. simpl.
  by apply legacy_apartmentMatch_current in E as (_ & _ & ?).
Qed.

(** A line of another prefix: an error for the earlier revision, a package
    for the current one. *)
Lemma legacy_rejects_other_prefix :
  Legacy.parsePackageList sampleUuid sampleNow lineNorth =
  mkParseResult [] [mkParsingError 1 lineNorth Legacy.reasonNoApartment] /\
  parsePackageList sampleUuid sampleNow lineNorth =
  mkParseResult
    [mkPackage (sampleUuid 0) (js "N05B") (js "9679") (js "UPS") (js "JOHN DOE")
               (js "1ZA8272V1341859679") (sampleNow 0) pending] [].
Proof. split; by vm_compute. Qed.

(** A line separated by single spaces: not enough fields for the earlier
    revision. *)
Lemma legacy_rejects_single_spaces :
  Legacy.parsePackageList sampleUuid sampleNow lineOffice =
  mkParseResult [] [mkParsingError 1 lineOffice Legacy.reasonInsufficientFields].
Proof. by vm_compute. Qed.

(** On a line [C##L] with fields two or more spaces apart, both revisions
    return the same package. *)
Lemma legacy_agrees_on_wide_line :
  Legacy.parsePackageList sampleUuid sampleNow lineCentral =
  parsePackageList sampleUuid sampleNow lineCentral /\
  length (packages (parsePackageList sampleUuid sampleNow lineCentral)) = 1%nat.
Proof. split; by vm_compute. Qed.

(** ** The reconciliation engine on a store of objects *)

Section StoreProps.

Local Abbreviation store := Store.store.
Local Abbreviation loc := Store.loc.
Local Abbreviation comp := Store.comp.
Local Abbreviation pkgAt := Store.pkgAt.
Local Abbreviation detAt := Store.detAt.
Local Abbreviation arrAt := Store.arrAt.
Local Abbreviation Pkg := Store.Pkg.
Local Abbreviation Det := Store.Det.
Local Abbreviation Box := Store.Box.
Local Abbreviation Arr := Store.Arr.

Implicit Types (σ : store) (l dl pl : loc) (ups : list loc).

Lemma bind_Some {A B} (m : comp A) (k : A -> comp B) σ a σ1 :
  m σ = Some (a, σ1) -> Store.bind m k σ = k a σ1.
Proof. unfold Store.bind. by intros ->. Qed.

Lemma alloc_spec σ o :
  exists l, Store.alloc o σ = Some (l, <[l := o]> σ) /\ σ !! l = None.
Proof.
  exists (fresh (dom σ)). split; [done|].
  apply not_elem_of_dom. apply is_fresh.
Qed.

Lemma readPkg_spec σ l p : pkgAt σ l p -> Store.readPkg l σ = Some (p, σ).
Proof. unfold pkgAt, Store.readPkg. by intros ->. Qed.

Lemma pkgAt_weaken σ σ' l p : σ ⊆ σ' -> pkgAt σ l p -> pkgAt σ' l p.
Proof. unfold pkgAt. intros Hsub H. by eapply lookup_weaken. Qed.

Lemma detAt_weaken σ σ' l d : σ ⊆ σ' -> detAt σ l d -> detAt σ' l d.
Proof.
  intros Hsub (hd & b & H1 & H2 & ->). exists hd, b.
  split; [by eapply lookup_weaken|]. split; [by eapply lookup_weaken | done].
Qed.

Lemma fresh_weaken σ σ' l : σ ⊆ σ' -> σ' !! l = None -> σ !! l = None.
Proof.
  intros Hsub H. destruct (σ !! l) as [o|] eqn:E; [|done].
  by rewrite (lookup_weaken _ _ _ _ E Hsub) in H.
Qed.

Lemma mapM_copyPackage σ ps pvals :
  Forall2 (pkgAt σ) ps pvals ->
  exists cs σ',
    Store.mapM Store.copyPackage ps σ = Some (cs, σ') /\ σ ⊆ σ' /\
    Forall2 (pkgAt σ') cs pvals /\ NoDup cs /\
    Forall (fun l => σ !! l = None) cs.
Proof.
  intros H. revert σ pvals H. induction ps as [|l ps IH]; intros σ pvals H.
  - inversion H; subst. exists [], σ. repeat split; try done; constructor.
  - inversion H as [|? p ? pvals' Hl Hps]; subst. simpl.
    destruct (alloc_spec σ (Pkg p)) as (c & Hc & Hcf).
    set (σ1 := <[c := Pkg p]> σ) in *.
    assert (Hcopy : Store.copyPackage l σ = Some (c, σ1)).
    { unfold Store.copyPackage, Store.bind. by rewrite (readPkg_spec _ _ _ Hl), Hc. }
    assert (Hsub1 : σ ⊆ σ1) by (by apply insert_subseteq).
    destruct (IH σ1 pvals') as (cs & σ' & Hm & Hsub & Hall & Hnd & Hfresh).
    { eapply Forall2_impl; [exact Hps|]. intros ? ?. by apply pkgAt_weaken. }
    rewrite (bind_Some _ _ _ _ _ Hcopy).
    rewrite (bind_Some _ _ _ _ _ Hm). exists (c :: cs), σ'. simpl. split; [done|].
    split; [by etrans|]. split; [|split].
    + constructor; [|done]. eapply pkgAt_weaken; [exact Hsub|].
      unfold pkgAt, σ1. apply lookup_insert_eq.
    + constructor; [|done]. intros Hin.
      rewrite Forall_forall in Hfresh. specialize (Hfresh _ Hin).
      unfold σ1 in Hfresh. by rewrite lookup_insert_eq in Hfresh.
    + constructor; [done|]. eapply Forall_impl; [exact Hfresh|].
      intros ? ?. by eapply fresh_weaken.
Qed.

Lemma mapM_copyDetection σ ds dvals :
  Forall2 (detAt σ) ds dvals ->
  exists cs σ',
    Store.mapM Store.copyDetection ds σ = Some (cs, σ') /\ σ ⊆ σ' /\
    Forall2 (detAt σ') cs dvals /\ NoDup cs /\
    Forall (fun l => σ !! l = None) cs.
Proof.
  intros H. revert σ dvals H. induction ds as [|l ds IH]; intros σ dvals H.
  - inversion H; subst. exists [], σ. repeat split; try done; constructor.
  - inversion H as [|? d ? dvals' Hl Hds]; subst. simpl.
    destruct Hl as (hd & b & Hhd & Hb & ->).
    destruct (alloc_spec σ (Box b)) as (bl & Hbl & Hblf).
    set (σ1 := <[bl := Box b]> σ) in *.
    destruct (alloc_spec σ1 (Det (withBox hd bl))) as (c & Hc & Hcf).
    set (σ2 := <[c := Det (withBox hd bl)]> σ1) in *.
    assert (Hcopy : Store.copyDetection l σ = Some (c, σ2)).
    { unfold Store.copyDetection, Store.bind, Store.readDet, Store.readBox. by rewrite Hhd, Hb, Hbl, Hc. }
    assert (Hsub1 : σ ⊆ σ1) by (by apply insert_subseteq).
    assert (Hsub2 : σ1 ⊆ σ2) by (by apply insert_subseteq).
    destruct (IH σ2 dvals') as (cs & σ' & Hm & Hsub & Hall & Hnd & Hfresh).
    { eapply Forall2_impl; [exact Hds|]. intros ? ?. apply detAt_weaken. by etrans. }
    rewrite (bind_Some _ _ _ _ _ Hcopy), (bind_Some _ _ _ _ _ Hm).
    exists (c :: cs), σ'. simpl. split; [done|].
    split; [by repeat (etrans; [eassumption|])|]. split; [|split].
    + constructor; [|done]. eapply detAt_weaken; [exact Hsub|].
      exists (withBox hd bl), b. split; [apply lookup_insert_eq|]. split; [|done].
      simpl. unfold σ2. rewrite lookup_insert_ne.
      * apply lookup_insert_eq.
      * intros ->. unfold σ1 in Hcf. by rewrite lookup_insert_eq in Hcf.
    + constructor; [|done]. intros Hin.
      rewrite Forall_forall in Hfresh. specialize (Hfresh _ Hin).
      unfold σ2 in Hfresh. by rewrite lookup_insert_eq in Hfresh.
    + constructor; [by apply (fresh_weaken σ σ1)|].
      eapply Forall_impl; [exact Hfresh|].
      intros x Hx. apply (fresh_weaken σ σ2); [by etrans | done].
Qed.

Lemma foldM_addClaimed σ cs pvals mc :
  Forall2 (pkgAt σ) cs pvals ->
  Store.foldM Store.addClaimed mc cs σ = Some (addClaimed mc pvals, σ).
Proof.
  intros H. revert mc. induction H as [|l p cs pvals Hl _ IH]; intros mc; [done|].
  simpl. erewrite bind_Some; [apply IH|].
  unfold Store.addClaimed, Store.bind. by rewrite (readPkg_spec _ _ _ Hl).
Qed.

Lemma filterM_matching σ a k pre ups pvals :
  Forall2 (pkgAt σ) ups pvals ->
  exists locs,
    Store.filterM (fun pl => Store.bind (Store.readPkg pl) (fun p => Store.ret (isMatch a k p))) ups σ
      = Some (locs, σ) /\
    Forall2 (fun pl jp => (pre ++ ups) !! jp.1 = Some pl /\ pkgAt σ pl jp.2)
            locs (matchingFrom (length pre) a k pvals).
Proof.
  intros H. revert pre. induction H as [|l p ups pvals Hl _ IH]; intros pre.
  - exists []. split; [done | constructor].
  - destruct (IH (pre ++ [l])) as (locs & Hf & Hrel).
    rewrite length_app in Hrel. simpl in Hrel.
    replace (length pre + 1)%nat with (S (length pre)) in Hrel by lia.
    rewrite <- app_assoc in Hrel. simpl in Hrel.
    simpl. unfold Store.bind, Store.ret in *. rewrite (readPkg_spec _ _ _ Hl), Hf.
    destruct (isMatch a k p).
    + exists (l :: locs). split; [done|]. constructor; [|done]. simpl.
      split; [|done]. by rewrite list_lookup_middle.
    + exists locs. done.
Qed.

Lemma write_det_state σ ups pvals dl (hd hd' : DetectionOf loc) b :
  σ !! dl = Some (Det hd) -> σ !! boundingBox hd = Some (Box b) ->
  boundingBox hd' = boundingBox hd ->
  Forall2 (pkgAt σ) ups pvals ->
  Forall2 (pkgAt (<[dl := Det hd']> σ)) ups pvals /\
  detAt (<[dl := Det hd']> σ) dl (withBox hd' b) /\
  (forall l, l <> dl -> <[dl := Det hd']> σ !! l = σ !! l).
Proof.
  intros Hhd Hb Hbox Hall. split; [|split].
  - eapply Forall2_impl; [exact Hall|]. intros l p Hl. unfold Store.pkgAt in *.
    rewrite lookup_insert_ne; [done|]. intros ->. congruence.
  - exists hd', b. split; [apply lookup_insert_eq|]. split; [|done].
    rewrite Hbox, lookup_insert_ne; [done|]. intros E. congruence.
  - intros l Hne. by rewrite lookup_insert_ne.
Qed.

Lemma write_pkg_state σ ups pvals i pl pkg' :
  NoDup ups -> Forall2 (pkgAt σ) ups pvals -> ups !! i = Some pl ->
  Forall2 (pkgAt (<[pl := Pkg pkg']> σ)) ups (<[i := pkg']> pvals).
Proof.
  intros Hnd Hall Hi. apply Forall2_same_length_lookup_2.
  - rewrite length_insert. by eapply Forall2_length.
  - intros j l p Hj Hp. unfold Store.pkgAt.
    destruct (decide (i = j)) as [->|Hne].
    + rewrite Hi in Hj. injection Hj as <-.
      rewrite list_lookup_insert_eq in Hp.
      * injection Hp as <-. apply lookup_insert_eq.
      * rewrite <- (Forall2_length _ _ _ Hall). by eapply lookup_lt_Some.
    + rewrite list_lookup_insert_ne in Hp by done.
      rewrite lookup_insert_ne.
      * by eapply (Forall2_lookup_lr _ _ _ _ _ _ Hall).
      * intros ->. apply Hne. by eapply NoDup_lookup.
Qed.

Lemma processDetection_refines σ ups dl st (d : Detection) :
  NoDup ups -> Forall2 (pkgAt σ) ups (st_packages st) -> detAt σ dl d ->
  exists σ',
    Store.processDetection ups (matchedCombos st) dl σ
      = Some (matchedCombos (processDetection st d).1, σ') /\
    Forall2 (pkgAt σ') ups (st_packages (processDetection st d).1) /\
    detAt σ' dl (processDetection st d).2 /\
    (forall l, l <> dl -> l ∉ ups -> σ' !! l = σ !! l).
Proof.
  intros Hnd Hall (hd & b & Hhd & Hb & ->).
  unfold Store.processDetection, processDetection, Store.bind, Store.readDet.
  rewrite Hhd. cbn [parsedApartment parsedLast4 withBox].
  destruct (negb (truthy (parsedApartment hd)) || negb (truthy (parsedLast4 hd))).
  { destruct (write_det_state σ ups _ dl hd (setDetStatus unreadable hd) b
                Hhd Hb eq_refl Hall) as (H1 & H2 & H3).
    eexists. split; [done|]. simpl. split; [done|]. split; [done|]. auto. }
  case_bool_decide as Hk.
  { destruct (write_det_state σ ups _ dl hd (setDetStatus duplicate hd) b
                Hhd Hb eq_refl Hall) as (H1 & H2 & H3).
    eexists. split; [done|]. simpl. split; [done|]. split; [done|]. auto. }
  destruct (filterM_matching σ (default [] (parsedApartment hd))
              (default [] (parsedLast4 hd)) [] ups _ Hall) as (locs & Hf & Hrel).
  simpl in Hrel. fold (matchingPackages (default [] (parsedApartment hd))
                         (default [] (parsedLast4 hd)) (st_packages st)) in Hrel.
  unfold Store.bind in Hf. rewrite Hf.
  destruct (matchingPackages _ _ (st_packages st)) as [|[i pkg] [|q rest]] eqn:Hm.
  - inversion Hrel; subst.
    destruct (write_det_state σ ups _ dl hd
                (setNotes (appendNote hd noteOrphan) (setDetStatus orphan hd)) b
                Hhd Hb eq_refl Hall) as (H1 & H2 & H3).
    eexists. split; [done|]. simpl. split; [done|]. split; [done|]. auto.
  - inversion Hrel as [|pl ? ? ? [Hi Hpl] Hnil]; subst. inversion Hnil; subst.
    simpl in Hi, Hpl. unfold Store.readPkg, Store.writePkg, Store.writeDet. rewrite Hpl.
    assert (Hne : pl <> dl) by (intros ->; unfold Store.pkgAt in Hpl; congruence).
    pose proof (write_pkg_state σ ups _ i pl (setPkgStatus found pkg) Hnd Hall Hi) as H1.
    set (σ1 := <[pl := Pkg (setPkgStatus found pkg)]> σ) in *.
    assert (Hhd1 : σ1 !! dl = Some (Det hd))
      by (unfold σ1; by rewrite lookup_insert_ne).
    assert (Hb1 : σ1 !! boundingBox hd = Some (Box b)).
    { unfold σ1. rewrite lookup_insert_ne; [done|]. intros E.
      unfold Store.pkgAt in Hpl. congruence. }
    destruct (write_det_state σ1 ups _ dl hd
                (setMatchedPackageId (Some (pkg_id pkg)) (setDetStatus matched hd)) b
                Hhd1 Hb1 eq_refl H1) as (H2 & H3 & H4).
    eexists. split; [done|]. simpl. split; [done|]. split; [done|].
    intros l Hl Hin. rewrite H4 by done. unfold σ1. rewrite lookup_insert_ne; [done|].
    intros ->. apply Hin. by eapply list_elem_of_lookup_2.
  - inversion Hrel as [|? ? ? ? _ Hrel2]; subst. inversion Hrel2; subst.
    destruct (write_det_state σ ups _ dl hd
                (setNotes (appendNote hd noteAmbiguous) (setDetStatus ambiguous hd)) b
                Hhd Hb eq_refl Hall) as (G1 & G2 & G3).
    eexists. split; [done|]. simpl. split; [done|]. split; [done|]. auto.
Qed.

Lemma not_in_pkgs σ ups pvals l o :
  Forall2 (pkgAt σ) ups pvals -> σ !! l = Some o ->
  (forall p, o <> Pkg p) -> l ∉ ups.
Proof.
  intros Hall Hl Ho Hin. apply list_elem_of_lookup in Hin as [i Hi].
  destruct (Forall2_lookup_l _ _ _ _ _ Hall Hi) as (p & _ & Hp).
  unfold Store.pkgAt in Hp. rewrite Hl in Hp. injection Hp as ->. by eapply Ho.
Qed.

Lemma not_in_dets σ uds dvals l o :
  Forall2 (detAt σ) uds dvals -> σ !! l = Some o ->
  (forall d, o <> Det d) -> l ∉ uds.
Proof.
  intros Hall Hl Ho Hin. apply list_elem_of_lookup in Hin as [i Hi].
  destruct (Forall2_lookup_l _ _ _ _ _ Hall Hi) as (d & _ & hd & b & Hd & _).
  rewrite Hl in Hd. injection Hd as ->. by eapply Ho.
Qed.

Lemma detAt_preserved σ σ' l d :
  detAt σ l d ->
  σ' !! l = σ !! l ->
  (forall hd, σ !! l = Some (Det hd) -> σ' !! boundingBox hd = σ !! boundingBox hd) ->
  detAt σ' l d.
Proof.
  intros (hd & b & Hhd & Hb & ->) Hl Hbox. exists hd, b.
  split; [by rewrite Hl|]. split; [|done]. by rewrite (Hbox hd Hhd).
Qed.

Lemma foldM_processDetection σ ups uds st dvals :
  NoDup ups -> NoDup uds ->
  Forall2 (pkgAt σ) ups (st_packages st) -> Forall2 (detAt σ) uds dvals ->
  exists σ',
    Store.foldM (Store.processDetection ups) (matchedCombos st) uds σ
      = Some (matchedCombos (matchLoop st dvals).1, σ') /\
    Forall2 (pkgAt σ') ups (st_packages (matchLoop st dvals).1) /\
    Forall2 (detAt σ') uds (matchLoop st dvals).2 /\
    (forall l, l ∉ uds -> l ∉ ups -> σ' !! l = σ !! l).
Proof.
  intros Hnd Hndu Hp Hd. revert σ st dvals Hp Hd Hndu.
  induction uds as [|dl uds IH]; intros σ st dvals Hp Hd Hndu.
  - inversion Hd; subst. exists σ. simpl. repeat split; done.
  - inversion Hd as [|? d ? dvals' Hdl Hds]; subst.
    apply NoDup_cons in Hndu as [Hnotin Hndu].
    destruct (processDetection_refines σ ups dl st d Hnd Hp Hdl)
      as (σ1 & Hrun & Hp1 & Hd1 & Hframe).
    assert (Hdl' := Hdl). destruct Hdl' as (hd0 & b0 & Hhd0 & Hb0 & _).
    assert (Hds1 : Forall2 (detAt σ1) uds dvals').
    { apply Forall2_same_length_lookup_2; [by eapply Forall2_length|].
      intros i l e Hl He. pose proof (Forall2_lookup_lr _ _ _ _ _ _ Hds Hl He) as Hle.
      assert (Hne : l <> dl) by (intros ->; apply Hnotin; by eapply list_elem_of_lookup_2).
      destruct Hle as (hd & b & Hhd & Hb & ->).
      exists hd, b. split; [|split; [|done]].
      - rewrite Hframe; [done | done |]. eapply not_in_pkgs; [exact Hp | exact Hhd | done].
      - rewrite Hframe; [done | intros E; congruence |].
        eapply not_in_pkgs; [exact Hp | exact Hb | done]. }
    simpl. destruct (processDetection st d) as [st1 d1] eqn:Est. simpl in *.
    destruct (IH σ1 st1 dvals' Hp1 Hds1 Hndu) as (σ' & Hfold & Hp' & Hd' & Hframe').
    destruct (matchLoop st1 dvals') as [st2 out] eqn:Eloop. simpl in *.
    exists σ'. split; [by rewrite (bind_Some _ _ _ _ _ Hrun)|]. split; [done|].
    split.
    + constructor; [|done]. destruct Hd1 as (hd1 & b1 & Hhd1 & Hb1 & ->).
      exists hd1, b1. split; [|split; [|done]].
      * rewrite Hframe'; [done | done |].
        eapply not_in_pkgs; [exact Hp1 | exact Hhd1 | done].
      * rewrite Hframe'; [done | |].
        -- eapply not_in_dets; [exact Hds1 | exact Hb1 | done].
        -- eapply not_in_pkgs; [exact Hp1 | exact Hb1 | done].
    + intros l Hl1 Hl2. apply not_elem_of_cons in Hl1 as [Hl1 Hl3].
      rewrite Hframe' by done. by apply Hframe.
Qed.

(** C7. Run on a store [σ] in which [packages] and [detections] refer to
    arrays of package and detection objects, [matchDetections] returns, and
    every object of [σ] (the two arrays, the packages, the detections and
    their bounding boxes) is the same afterwards. The two arrays returned
    and their elements are objects that did not exist in [σ]; their contents
    are the result of the function on values, which has as many packages
    and detections as the arguments, in the same order and with the same
    ids, differing from them at most in the status of a package and in the
    status, matchedPackageId and notes of a detection. *)
Theorem matchDetections_leaves_arguments
  (σ : store) (packages detections : loc) (ps ds : list loc)
  (pvals : list Package) (dvals : list Detection) :
  arrAt σ packages ps -> arrAt σ detections ds ->
  Forall2 (pkgAt σ) ps pvals -> Forall2 (detAt σ) ds dvals ->
  let r := matchDetections pvals dvals in
  exists σ' up ud ups uds,
    Store.matchDetections packages detections σ = Some ((up, ud), σ') /\
    (forall l o, σ !! l = Some o -> σ' !! l = Some o) /\
    σ !! up = None /\ σ !! ud = None /\
    Forall (fun l => σ !! l = None) ups /\
    Forall (fun l => σ !! l = None) uds /\
    arrAt σ' up ups /\ arrAt σ' ud uds /\
    Forall2 (pkgAt σ') ups (updatedPackages r) /\
    Forall2 (detAt σ') uds (updatedDetections r) /\
    length (updatedPackages r) = length pvals /\
    length (updatedDetections r) = length dvals /\
    Forall2 samePackageData pvals (updatedPackages r) /\
    Forall2 sameDetectionData dvals (updatedDetections r).
Proof.
  intros Hpa Hda Hps Hds r.
  destruct (mapM_copyPackage σ ps pvals Hps) as (ups & σa & HmP & Hsa & HPa & HndP & HfP).
  destruct (Store.alloc (Arr ups) σa) as [[up σb]|] eqn:Hup; [|done].
  destruct (alloc_spec σa (Arr ups)) as (up' & Hup' & Hupf).
  rewrite Hup in Hup'. injection Hup' as <- ->. set (σb := <[up := Arr ups]> σa) in *.
  assert (Hsb : σa ⊆ σb) by (by apply insert_subseteq).
  assert (Hds_b : Forall2 (detAt σb) ds dvals).
  { eapply Forall2_impl; [exact Hds|]. intros ? ?. apply detAt_weaken.
    exact (transitivity Hsa Hsb). }
  destruct (mapM_copyDetection σb ds dvals Hds_b) as (uds & σc & HmD & Hsc & HDc & HndD & HfD).
  destruct (alloc_spec σc (Arr uds)) as (ud & Hud & Hudf).
  set (σd := <[ud := Arr uds]> σc) in *.
  assert (Hsd : σc ⊆ σd) by (by apply insert_subseteq).
  assert (Hsub : σ ⊆ σd)
    by exact (transitivity Hsa (transitivity Hsb (transitivity Hsc Hsd))).
  assert (HPd : Forall2 (pkgAt σd) ups pvals).
  { eapply Forall2_impl; [exact HPa|]. intros ? ?. apply pkgAt_weaken.
    exact (transitivity Hsb (transitivity Hsc Hsd)). }
  assert (HDd : Forall2 (detAt σd) uds dvals).
  { eapply Forall2_impl; [exact HDc|]. intros ? ?. by apply detAt_weaken. }
  assert (Hupd : σd !! up = Some (Arr ups)).
  { eapply lookup_weaken; [apply lookup_insert_eq|]. exact (transitivity Hsc Hsd). }
  assert (Hudd : σd !! ud = Some (Arr uds)) by apply lookup_insert_eq.
  destruct (foldM_processDetection σd ups uds (initialState pvals) dvals HndP HndD HPd HDd)
    as (σ' & Hfold & HP' & HD' & Hframe).
  exists σ', up, ud, ups, uds.
  assert (Hrun : Store.matchDetections packages detections σ = Some ((up, ud), σ')).
  { unfold Store.matchDetections.
    erewrite bind_Some by (unfold Store.readArr; by rewrite Hpa).
    erewrite bind_Some by exact HmP.
    erewrite bind_Some by exact Hup.
    erewrite bind_Some
      by (unfold Store.readArr;
          by rewrite (lookup_weaken _ _ _ _ Hda (transitivity Hsa Hsb))).
    erewrite bind_Some by exact HmD.
    erewrite bind_Some by exact Hud.
    erewrite bind_Some by (unfold Store.readArr; by rewrite Hupd).
    erewrite bind_Some by (by apply foldM_addClaimed).
    erewrite bind_Some by (unfold Store.readArr; by rewrite Hudd).
    erewrite bind_Some by exact Hfold. done. }
  assert (HfD' : Forall (fun l => σ !! l = None) uds).
  { eapply Forall_impl; [exact HfD|]. intros x Hx.
    apply (fresh_weaken σ σb); [exact (transitivity Hsa Hsb) | exact Hx]. }
  destruct (matchDetections_same_data pvals dvals) as [Hsp Hsdd].
  destruct (matchDetections_length pvals dvals) as [Hlp Hld].
  assert (Hres : r = mkMatchResult (st_packages (matchLoop (initialState pvals) dvals).1)
                                   (matchLoop (initialState pvals) dvals).2).
  { subst r. unfold matchDetections. by destruct (matchLoop _ _). }
  split; [exact Hrun|]. split; [|split; [|split; [|split; [|split]]]].
  - intros l o Hl. rewrite Hframe.
    + by eapply lookup_weaken.
    + intros Hin. rewrite Forall_forall in HfD'. rewrite (HfD' _ Hin) in Hl. done.
    + intros Hin. rewrite Forall_forall in HfP. rewrite (HfP _ Hin) in Hl. done.
  - by apply (fresh_weaken σ σa).
  - apply (fresh_weaken σ σc); [|done].
    exact (transitivity Hsa (transitivity Hsb Hsc)).
  - done.
  - done.
  - split; [|split; [|split; [|split]]].
    + unfold Store.arrAt. rewrite Hframe; [done | |].
      * eapply not_in_dets; [exact HDd | exact Hupd | done].
      * eapply not_in_pkgs; [exact HPd | exact Hupd | done].
    + unfold Store.arrAt. rewrite Hframe; [done | |].
      * eapply not_in_dets; [exact HDd | exact Hudd | done].
      * eapply not_in_pkgs; [exact HPd | exact Hudd | done].
    + by rewrite Hres.
    + by rewrite Hres.
    + done.
Qed.

End StoreProps.

Lemma matchDetections_leaves_arguments_witness :
  exists σ' up ud,
    Store.matchDetections 1%positive 2%positive sampleStore = Some ((up, ud), σ') /\
    forall l o, sampleStore !! l = Some o -> σ' !! l = Some o.
Proof.
  assert (H1 : Store.arrAt sampleStore 1%positive [3%positive]) by (by vm_compute).
  assert (H2 : Store.arrAt sampleStore 2%positive [4%positive]) by (by vm_compute).
  assert (H3 : Forall2 (Store.pkgAt sampleStore) [3%positive]
                       [createPackage "C01K" "1234" pending]).
  { constructor; [by vm_compute | constructor]. }
  assert (H4 : Forall2 (Store.detAt sampleStore) [4%positive]
                       [createDetection "det-1" (Some "C01K") (Some "1234") matched]).
  { constructor; [|constructor].
    exists (withBox (createDetection "det-1" (Some "C01K") (Some "1234") matched)
                    5%positive), (mkBoundingBox 0 0 (Qmake 10 1) (Qmake 10 1)).
    split; [by vm_compute|]. split; [by vm_compute | done]. }
  destruct (matchDetections_leaves_arguments sampleStore 1%positive 2%positive
              _ _ _ _ H1 H2 H3 H4)
    as (σ' & up & ud & ups & uds & Hrun & Hframe & _).
  exists σ', up, ud. split; [exact Hrun | exact Hframe].
Defined.

(* ===================================================================== *)
(** * Part III: further properties                                         *)
(* ===================================================================== *)

(** ** The reconciliation engine, case by case *)

Section EngineProps.

Implicit Types (st : MatchState) (d : Detection) (ps : list Package)
  (ds : list Detection).

(** Where the loop stands when it reaches the detection at position [j]. *)
Lemma matchLoop_at st ds j e :
  ds !! j = Some e ->
  let stj := (matchLoop st (take j ds)).1 in
  (matchLoop st ds).2 !! j = Some (processDetection stj e).2 /\
  reaches st stj /\
  reaches (processDetection stj e).1 (matchLoop st ds).1.
Proof.
  intros Hj stj. split; [by apply matchLoop_lookup|].
  split; [apply matchLoop_reaches|].
  rewrite <- (take_drop_middle _ _ _ Hj) at 1. rewrite matchLoop_app. simpl.
  fold stj. destruct (processDetection stj e) as [st1 d1] eqn:E. simpl.
  pose proof (matchLoop_reaches st1 (drop (S j) ds)) as Hr.
  destruct (matchLoop st1 (drop (S j) ds)) as [st2 out]. done.
Qed.

(** The status of the detection returned tells which case of the loop body
    was taken. *)
Lemma Step_status st d st' d' :
  Step st d st' d' ->
  match det_status d' with
  | unreadable => readable d = false /\ d' = setDetStatus unreadable d /\ st' = st
  | duplicate => readable d = true /\ d' = setDetStatus duplicate d /\ st' = st /\
                 detKey d ∈ matchedCombos st
  | matched =>
      readable d = true /\ (detKey d ∉ matchedCombos st) /\
      exists i pkg,
        matchingPackages (detApartment d) (detLast4 d) (st_packages st) = [(i, pkg)] /\
        st' = mkMatchState (<[i := setPkgStatus found pkg]> (st_packages st))
                           ({[ detKey d ]} ∪ matchedCombos st) /\
        d' = setMatchedPackageId (Some (pkg_id pkg)) (setDetStatus matched d)
  | ambiguous =>
      readable d = true /\ (detKey d ∉ matchedCombos st) /\ st' = st /\
      (2 <= length (matchingPackages (detApartment d) (detLast4 d) (st_packages st)))%nat /\
      d' = setNotes (appendNote d noteAmbiguous) (setDetStatus ambiguous d)
  | orphan =>
      readable d = true /\ (detKey d ∉ matchedCombos st) /\ st' = st /\
      matchingPackages (detApartment d) (detLast4 d) (st_packages st) = [] /\
      d' = setNotes (appendNote d noteOrphan) (setDetStatus orphan d)
  end.
Proof.
  destruct 1; simpl; repeat split; try done. by eexists _, _.
Qed.

Lemma samePackageData_eq (p q : Package) :
  samePackageData p q -> q = setPkgStatus (pkg_status q) p.
Proof.
  destruct p, q. unfold samePackageData, setPkgStatus. simpl.
  intros (-> & -> & -> & -> & -> & -> & ->). done.
Qed.

(** The input detection behind an output detection, and the state in which
    the loop reached it. *)
Lemma matchDetections_at packages detections j d' :
  updatedDetections (matchDetections packages detections) !! j = Some d' ->
  exists d stj st',
    detections !! j = Some d /\
    reaches (initialState packages) stj /\
    Step stj d st' d' /\
    reaches st' (mkMatchState
                   (updatedPackages (matchDetections packages detections))
                   (matchedCombos (matchLoop (initialState packages) detections).1)).
Proof.
  intros Hj.
  assert (Hlt : (j < length detections)%nat).
  { rewrite <- (proj2 (matchDetections_length packages detections)).
    by eapply lookup_lt_Some. }
  apply lookup_lt_is_Some in Hlt as [d Hd].
  destruct (matchLoop_at (initialState packages) _ _ _ Hd) as (Ho & Hr1 & Hr2).
  pose proof (processDetection_Step
                (matchLoop (initialState packages) (take j detections)).1 d) as Hs.
  unfold matchDetections in *.
  destruct (matchLoop (initialState packages) detections) as [stf out] eqn:E.
  simpl in *. rewrite Ho in Hj. injection Hj as <-.
  eexists d, _, _. split; [done|]. split; [exact Hr1|]. split; [exact Hs|].
  by destruct stf.
Qed.

(** A package is returned as it was, or found when it was pending. *)
Lemma matchDetections_package (packages : list Package) ds i p :
  packages !! i = Some p ->
  updatedPackages (matchDetections packages ds) !! i = Some p \/
  (pkg_status p = pending /\
   updatedPackages (matchDetections packages ds) !! i = Some (setPkgStatus found p)).
Proof.
  intros Hi. unfold matchDetections.
  pose proof (matchLoop_reaches (initialState packages) ds) as Hr.
  destruct (matchLoop (initialState packages) ds) as [stf out]. simpl in *.
  destruct (reaches_lookup _ _ _ _ Hr Hi) as (p' & Hp' & Hsame & Hs).
  rewrite (samePackageData_eq _ _ Hsame) in Hp'.
  destruct Hs as [E | [E F]].
  - left. rewrite Hp', E. by destruct p.
  - right. split; [done|]. by rewrite Hp', F.
Qed.

Lemma matched_is_readable (packages : list Package) ds j d' :
  updatedDetections (matchDetections packages ds) !! j = Some d' ->
  det_status d' = matched -> readable d' = true.
Proof.
  intros Hj Hm.
  destruct (matchDetections_at _ _ _ _ Hj) as (d & stj & st' & _ & _ & Hs & _).
  apply Step_status in Hs. rewrite Hm in Hs.
  by destruct Hs as (Hrd & _ & i & pkg & _ & _ & ->).
Qed.

Lemma matched_names_found
  (packages : list Package) (detections : list Detection) (j : nat)
  (d' : Detection) :
  let r := matchDetections packages detections in
  updatedDetections r !! j = Some d' -> det_status d' = matched ->
  exists i p0,
    packages !! i = Some p0 /\ pkg_status p0 = pending /\
    updatedPackages r !! i = Some (setPkgStatus found p0) /\
    matchedPackageId d' = Some (pkg_id p0) /\
    parsedApartment d' = Some (apartment p0) /\
    parsedLast4 d' = Some (trackingLast4 p0).
Proof.
  intros r Hj Hm. subst r.
  destruct (matchDetections_at _ _ _ _ Hj) as (d & stj & st' & Hd & Hr1 & Hs & Hr2).
  apply Step_status in Hs. rewrite Hm in Hs.
  destruct Hs as (Hrd & Hk & i & pkg & Hmp & -> & ->).
  apply matchingPackages_single in Hmp as (Hi & Ha & Hl & Hst).
  assert (Hlt : (i < length packages)%nat).
  { pose proof (reaches_length _ _ Hr1) as HL. simpl in HL. rewrite <- HL.
    by eapply lookup_lt_Some. }
  apply lookup_lt_is_Some in Hlt as [p0 H0].
  destruct (reaches_lookup _ _ _ _ Hr1 H0) as (p1 & H1 & Hsame1 & Hs1).
  simpl in H0. rewrite Hi in H1. injection H1 as <-.
  assert (Hp0 : pkg_status p0 = pending)
    by (destruct Hs1 as [E | [E F]]; congruence).
  assert (Epkg : pkg = p0).
  { rewrite (samePackageData_eq _ _ Hsame1), Hst.
    destruct p0; simpl in *; by subst. }
  subst pkg.
  assert (H2 : st_packages
                 (mkMatchState (<[i:=setPkgStatus found p0]> (st_packages stj))
                               ({[detKey d]} ∪ matchedCombos stj)) !! i
               = Some (setPkgStatus found p0)).
  { simpl. apply list_lookup_insert_eq. by eapply lookup_lt_Some. }
  destruct (reaches_lookup _ _ _ _ Hr2 H2) as (p2 & Hp2 & Hsame2 & Hs2).
  simpl in Hp2.
  assert (Ep2 : p2 = setPkgStatus found p0).
  { rewrite (samePackageData_eq _ _ Hsame2).
    destruct Hs2 as [E | [E F]]; [by rewrite E | done]. }
  subst p2. exists i, p0. repeat split; try done.
  - simpl. unfold readable in Hrd. apply andb_true_iff in Hrd as [Hra _].
    unfold detApartment in Ha. destruct (parsedApartment d); [simpl in Ha; by subst | done].
  - simpl. unfold readable in Hrd. apply andb_true_iff in Hrd as [_ Hrl].
    unfold detLast4 in Hl. destruct (parsedLast4 d); [simpl in Hl; by subst | done].
Qed.

(** A detection returned as matched names a package that the call found:
    the package was pending when the call began, is returned with status
    found and nothing else changed, and carries the two readings of the
    detection, which are not empty. *)
Theorem matched_detection_names_found_package
  (packages : list Package) (detections : list Detection) (j : nat)
  (d' : Detection) :
  let r := matchDetections packages detections in
  updatedDetections r !! j = Some d' -> det_status d' = matched ->
  readable d' = true /\
  exists i p0,
    packages !! i = Some p0 /\ pkg_status p0 = pending /\
    updatedPackages r !! i = Some (setPkgStatus found p0) /\
    matchedPackageId d' = Some (pkg_id p0) /\
    parsedApartment d' = Some (apartment p0) /\
    parsedLast4 d' = Some (trackingLast4 p0).
Proof.
  intros r Hj Hm. split.
  - exact (matched_is_readable packages detections j d' Hj Hm).
  - exact (matched_names_found packages detections j d' Hj Hm).
Qed.

(** No two detections of one call are matched with the same key: the second
    one finds the key claimed. *)
Theorem matched_detections_have_distinct_keys
  (packages : list Package) (detections : list Detection) (j k : nat)
  (dj dk : Detection) :
  let r := matchDetections packages detections in
  updatedDetections r !! j = Some dj -> updatedDetections r !! k = Some dk ->
  (j < k)%nat ->
  det_status dj = matched -> det_status dk = matched ->
  detKey dj <> detKey dk.
Proof.
  intros r Hj Hk Hlt Mj Mk Heq. subst r. unfold matchDetections in *.
  assert (Hlen := matchLoop_length (initialState packages) detections).
  destruct (matchLoop (initialState packages) detections) as [stf out] eqn:E.
  simpl in *.
  assert (Hk' : (k < length detections)%nat)
    by (rewrite <- Hlen; by eapply lookup_lt_Some).
  apply lookup_lt_is_Some in Hk' as [ek Hek].
  assert (Hjin : (j < length detections)%nat) by (apply lookup_lt_Some in Hek; lia).
  apply lookup_lt_is_Some in Hjin as [ej Hej].
  assert (Hj' : take k detections !! j = Some ej)
    by (by rewrite lookup_take_lt).
  (* the state in which [k] is reached *)
  pose proof (matchLoop_lookup (initialState packages) _ _ _ Hek) as Ok.
  rewrite E in Ok. simpl in Ok. rewrite Hk in Ok. injection Ok as Ok.
  set (stk := (matchLoop (initialState packages) (take k detections)).1) in *.
  pose proof (processDetection_Step stk ek) as Sk. rewrite <- Ok in Sk.
  apply Step_status in Sk. rewrite Mk in Sk. destruct Sk as (_ & Hnk & _).
  (* [j] was reached before, in the run over the first [k] detections *)
  destruct (matchLoop_at (initialState packages) _ _ _ Hj') as (Oj & _ & Rj).
  fold stk in Rj.
  rewrite take_take in Oj, Rj. replace (j `min` k)%nat with j in * by lia.
  pose proof (matchLoop_lookup (initialState packages) _ _ _ Hej) as Oj2.
  rewrite E in Oj2. simpl in Oj2. rewrite Hj in Oj2. injection Oj2 as Oj2.
  set (stj := (matchLoop (initialState packages) (take j detections)).1) in *.
  pose proof (processDetection_Step stj ej) as Sj. rewrite <- Oj2 in Sj.
  pose proof (Step_status _ _ _ _ Sj) as Tj. rewrite Mj in Tj.
  destruct Tj as (_ & _ & i & pkg & _ & Est & Edj).
  apply reaches_mono in Rj. rewrite Est in Rj. simpl in Rj.
  apply Hnk. apply Rj.
  assert (Kj : detKey dj = detKey ej) by (by rewrite Edj).
  assert (Kk : detKey dk = detKey ek).
  { destruct (Step_sameDetectionData _ _ _ _ (processDetection_Step stk ek))
      as (_ & _ & _ & _ & Ha & Hl & _).
    rewrite <- Ok in Ha, Hl. unfold detKey, detApartment, detLast4.
    by rewrite Ha, Hl. }
  rewrite <- Kk, <- Heq, Kj. set_solver.
Qed.

Lemma claimed_is_duplicate
  (packages : list Package) (detections : list Detection) (j : nat)
  (d : Detection) (p : Package) :
  detections !! j = Some d ->
  p ∈ packages ->
  pkg_status p = found \/ pkg_status p = verified ->
  readable d = true ->
  parsedApartment d = Some (apartment p) ->
  parsedLast4 d = Some (trackingLast4 p) ->
  updatedDetections (matchDetections packages detections) !! j =
  Some (setDetStatus duplicate d).
Proof.
  intros Hj Hp Hst Hrd Ha Hl.
  destruct (matchLoop_at (initialState packages) _ _ _ Hj) as (Ho & Hr1 & _).
  unfold matchDetections.
  destruct (matchLoop (initialState packages) detections) as [stf out].
  simpl in *. rewrite Ho. f_equal.
  rewrite processDetection_duplicate; [done | done |].
  apply (reaches_mono _ _ Hr1). apply initialState_claimedInv.
  exists p. split; [done|]. split.
  - unfold isClaimed. by destruct Hst as [-> | ->].
  - unfold pkgKey, detKey, detApartment, detLast4. by rewrite Ha, Hl.
Qed.

(** A readable detection whose readings are those of a package that is
    already found or verified when the call begins is returned as duplicate,
    whatever its status was and wherever it stands among the detections;
    nothing else of it changes, and the package is returned as it was. *)
Theorem detection_of_claimed_package_is_duplicate
  (packages : list Package) (detections : list Detection) (j : nat)
  (d : Detection) (i : nat) (p : Package) :
  detections !! j = Some d ->
  packages !! i = Some p ->
  pkg_status p = found \/ pkg_status p = verified ->
  readable d = true ->
  parsedApartment d = Some (apartment p) ->
  parsedLast4 d = Some (trackingLast4 p) ->
  let r := matchDetections packages detections in
  updatedDetections r !! j = Some (setDetStatus duplicate d) /\
  updatedPackages r !! i = Some p.
Proof.
  intros Hj Hi Hst Hrd Ha Hl r. subst r. split.
  - apply (claimed_is_duplicate packages detections j d p); try done.
    by eapply list_elem_of_lookup_2.
  - destruct (matchDetections_package packages detections i p Hi) as [E | [E _]];
      [done|]. destruct Hst as [Hs | Hs]; rewrite Hs in E; done.
Qed.

(** What a call does to the fields of a detection. The status is unreadable
    exactly when a reading is null or empty. matchedPackageId is written for
    a matched detection only and never cleared. The note is extended for an
    orphan and for an ambiguous detection, and kept for the others. *)
Theorem matchDetections_fields
  (packages : list Package) (detections : list Detection) (j : nat)
  (d d' : Detection) :
  detections !! j = Some d ->
  updatedDetections (matchDetections packages detections) !! j = Some d' ->
  (det_status d' = unreadable <-> readable d = false) /\
  (det_status d' <> matched -> matchedPackageId d' = matchedPackageId d) /\
  notes d' = match det_status d' with
             | orphan => appendNote d noteOrphan
             | ambiguous => appendNote d noteAmbiguous
             | _ => notes d
             end.
Proof.
  intros Hd Hj.
  destruct (matchDetections_at _ _ _ _ Hj) as (e & stj & st' & He & _ & Hs & _).
  rewrite Hd in He. injection He as <-.
  destruct Hs; simpl; repeat split; try done; try congruence.
Qed.

Lemma matchingFrom_none i a l ps :
  Forall (fun p => pkg_status p <> pending) ps -> matchingFrom i a l ps = [].
Proof.
  intros H. revert i. induction H as [|p ps Hp _ IH]; intros i; [done|].
  simpl. rewrite IH. destruct (isMatch a l p) eqn:E; [|done].
  apply isMatch_true in E as (_ & _ & E). done.
Qed.

Lemma matchLoop_none_pending st ds :
  Forall (fun p => pkg_status p <> pending) (st_packages st) ->
  (matchLoop st ds).1 = st /\
  Forall (fun d' => det_status d' = unreadable \/ det_status d' = duplicate \/
                    det_status d' = orphan) (matchLoop st ds).2.
Proof.
  intros Hnp. induction ds as [|d ds [IH1 IH2]]; simpl; [done|].
  pose proof (processDetection_Step st d) as Hs.
  destruct (processDetection st d) as [st1 d1]. simpl in Hs.
  assert (Hm : matchingPackages (detApartment d) (detLast4 d) (st_packages st) = [])
    by (by apply matchingFrom_none).
  assert (E : st1 = st /\ (det_status d1 = unreadable \/ det_status d1 = duplicate \/
                           det_status d1 = orphan)).
  { destruct Hs as [| |i pkg ? ? Hm'|? ? Hl|]; simpl; auto.
    - by rewrite Hm in Hm'.
    - rewrite Hm in Hl. simpl in Hl. lia. }
  destruct E as [-> E].
  destruct (matchLoop st ds) as [st2 out]. simpl in *. subst st2.
  split; [done | by constructor].
Qed.

(** When no package is pending (the list is empty, or every package is
    found, verified or not found), a call changes no package and matches
    nothing: every detection is unreadable, duplicate or orphan. *)
Theorem nothing_pending_nothing_matched
  (packages : list Package) (detections : list Detection) :
  Forall (fun p => pkg_status p <> pending) packages ->
  let r := matchDetections packages detections in
  updatedPackages r = packages /\
  Forall (fun d' => det_status d' = unreadable \/ det_status d' = duplicate \/
                    det_status d' = orphan) (updatedDetections r).
Proof.
  intros Hnp r. subst r. unfold matchDetections.
  destruct (matchLoop_none_pending (initialState packages) detections Hnp)
    as [E1 E2].
  destruct (matchLoop (initialState packages) detections) as [stf out].
  simpl in *. by subst stf.
Qed.

Lemma countStatus_insert s ps i p q :
  ps !! i = Some p ->
  (countStatus s (<[i := q]> ps) + (if decide (pkg_status p = s) then 1 else 0) =
   countStatus s ps + (if decide (pkg_status q = s) then 1 else 0))%nat.
Proof.
  unfold countStatus. revert i. induction ps as [|x ps IH]; intros i Hi; [done|].
  destruct i as [|i]; simpl in *.
  - injection Hi as ->. rewrite !filter_cons.
    repeat case_decide; simpl; lia.
  - specialize (IH i Hi). rewrite !filter_cons.
    destruct (decide (pkg_status x = s)); simpl; lia.
Qed.

Lemma Step_counts st d st' d' s :
  Step st d st' d' ->
  (countStatus s (st_packages st') + (if decide (s = pending) then countMatched [d'] else 0) =
   countStatus s (st_packages st) + (if decide (s = found) then countMatched [d'] else 0))%nat.
Proof.
  destruct 1 as [| |i pkg Hr Hk Hm| |]; simpl;
    try (unfold countMatched; rewrite filter_cons; simpl;
         repeat case_decide; simpl; try congruence; lia).
  apply matchingPackages_single in Hm as (Hi & _ & _ & Hs).
  pose proof (countStatus_insert s _ _ _ (setPkgStatus found pkg) Hi) as E.
  simpl in E. rewrite Hs in E. unfold countMatched. rewrite filter_cons. simpl.
  destruct s; repeat case_decide; simpl in *; try congruence; lia.
Qed.

Lemma countMatched_cons d ds :
  countMatched (d :: ds) = (countMatched [d] + countMatched ds)%nat.
Proof.
  unfold countMatched. rewrite !filter_cons. case_decide; simpl; lia.
Qed.

Lemma matchLoop_counts st ds s :
  (countStatus s (st_packages (matchLoop st ds).1) +
     (if decide (s = pending) then countMatched (matchLoop st ds).2 else 0) =
   countStatus s (st_packages st) +
     (if decide (s = found) then countMatched (matchLoop st ds).2 else 0))%nat.
Proof.
  revert st. induction ds as [|d ds IH]; intros st; simpl.
  - unfold countMatched. simpl. repeat case_decide; lia.
  - pose proof (processDetection_Step st d) as Hs.
    destruct (processDetection st d) as [st1 d1]. simpl in Hs.
    apply (Step_counts _ _ _ _ s) in Hs. specialize (IH st1).
    destruct (matchLoop st1 ds) as [st2 out]. simpl in *.
    rewrite (countMatched_cons d1 out).
    repeat case_decide; try congruence; lia.
Qed.

(** The counters of the summary after a call: every detection returned as
    matched moved one package from pending to found, and nothing else moved. *)
Theorem stats_after_matchDetections
  (packages : list Package) (detections : list Detection) :
  let r := matchDetections packages detections in
  let m := countMatched (updatedDetections r) in
  stats_total (stats (updatedPackages r)) = stats_total (stats packages) /\
  stats_found (stats (updatedPackages r)) = (stats_found (stats packages) + m)%nat /\
  (stats_pending (stats (updatedPackages r)) + m)%nat = stats_pending (stats packages) /\
  stats_verified (stats (updatedPackages r)) = stats_verified (stats packages) /\
  stats_notFound (stats (updatedPackages r)) = stats_notFound (stats packages).
Proof.
  intros r m. subst r m.
  pose proof (proj1 (matchDetections_length packages detections)) as Hlen.
  pose proof (fun s => matchLoop_counts (initialState packages) detections s) as Hc.
  unfold matchDetections in *.
  destruct (matchLoop (initialState packages) detections) as [stf out].
  simpl in *. split; [done|].
  pose proof (Hc pending) as Hp. pose proof (Hc found) as Hf.
  pose proof (Hc verified) as Hv. pose proof (Hc not_found) as Hn.
  unfold countStatus in *. repeat case_decide; try congruence.
  repeat split; lia.
Qed.

Lemma Step_fun st d st' d' :
  Step st d st' d' -> processDetection st d = (st', d').
Proof.
  intros Hs. pose proof (processDetection_Step st d) as Hp.
  destruct (processDetection st d) as [s1 d1]. simpl in Hp.
  destruct Hs as [Hr|Hr Hk|i pkg Hr Hk Hm|Hr Hk Hl|Hr Hk Hm];
    destruct Hp as [Hr'|Hr' Hk'|i' pkg' Hr' Hk' Hm'|Hr' Hk' Hl'|Hr' Hk' Hm'];
    try done; try congruence;
    try (rewrite Hm in Hl'; simpl in Hl'; lia);
    try (rewrite Hm' in Hl; simpl in Hl; lia).
Qed.

(** What a step does to the state: nothing, or one package found and its
    key claimed. *)
Lemma Step_effect st d st' d' :
  Step st d st' d' ->
  st' = st \/
  exists i pkg,
    readable d = true /\
    matchingPackages (detApartment d) (detLast4 d) (st_packages st) = [(i, pkg)] /\
    st' = mkMatchState (<[i := setPkgStatus found pkg]> (st_packages st))
                       ({[ detKey d ]} ∪ matchedCombos st).
Proof. destruct 1; auto. right. by eexists _, _. Qed.

Lemma detKey_pair (a b : Detection) :
  detKey a <> detKey b ->
  (detApartment a, detLast4 a) <> (detApartment b, detLast4 b).
Proof. intros H E. apply H. unfold detKey. by injection E as -> ->. Qed.

(** A step of [a] after another detection [b], with another key, found its
    package. *)
Lemma Step_frame st a sa a' i pkg b :
  matchingPackages (detApartment b) (detLast4 b) (st_packages st) = [(i, pkg)] ->
  (readable a = true -> detKey a <> detKey b) ->
  Step st a sa a' ->
  Step (mkMatchState (<[i := setPkgStatus found pkg]> (st_packages st))
                     ({[ detKey b ]} ∪ matchedCombos st))
       a
       (mkMatchState (<[i := setPkgStatus found pkg]> (st_packages sa))
                     ({[ detKey b ]} ∪ matchedCombos sa))
       a'.
Proof.
  intros Hmb Hne Hs.
  pose proof (matchingPackages_single _ _ _ _ _ Hmb) as (Hi & Hba & Hbl & Hbs).
  assert (Hsame : readable a = true ->
            matchingPackages (detApartment a) (detLast4 a)
              (<[i := setPkgStatus found pkg]> (st_packages st)) =
            matchingPackages (detApartment a) (detLast4 a) (st_packages st)).
  { intros Hr. apply matchingFrom_insert_irrelevant with (p0 := pkg); [done| |].
    - destruct (isMatch _ _ pkg) eqn:E; [|done].
      apply isMatch_true in E as (Ea & El & _). exfalso.
      apply (detKey_pair a b (Hne Hr)). congruence.
    - destruct (isMatch _ _ (setPkgStatus found pkg)) eqn:E; [|done].
      by apply isMatch_true in E as (_ & _ & E). }
  destruct Hs as [Hr|Hr Hk|ia pa Hr Hk Hm|Hr Hk Hl|Hr Hk Hm].
  - by apply step_unreadable.
  - apply step_duplicate; [done | simpl; set_solver].
  - pose proof (matchingPackages_single _ _ _ _ _ Hm) as (Hia & Haa & Hal & Has).
    assert (Hii : ia <> i).
    { intros ->. rewrite Hi in Hia. injection Hia as ->.
      apply (detKey_pair a b (Hne Hr)). congruence. }
    set (S0 := mkMatchState (<[i:=setPkgStatus found pkg]> (st_packages st))
                            ({[detKey b]} ∪ matchedCombos st)).
    assert (HkS : detKey a ∉ matchedCombos S0)
      by (simpl; specialize (Hne Hr); set_solver).
    assert (HmS : matchingPackages (detApartment a) (detLast4 a) (st_packages S0)
                  = [(ia, pa)]) by (simpl; by rewrite Hsame).
    pose proof (step_matched S0 a ia pa Hr HkS HmS) as G. simpl in G.
    match type of G with
    | Step _ _ ?s1 _ => match goal with
                        | |- Step _ _ ?s2 _ => replace s2 with s1; [exact G|]
                        end
    end.
    simpl. f_equal; [by apply list_insert_insert_ne | set_solver].
  - apply step_ambiguous; [done | simpl; specialize (Hne Hr); set_solver |].
    simpl. by rewrite Hsame.
  - apply step_orphan; [done | simpl; specialize (Hne Hr); set_solver |].
    simpl. by rewrite Hsame.
Qed.

Lemma Step_diamond st a sa a' b sb b' :
  (readable a = true -> readable b = true -> detKey a <> detKey b) ->
  Step st a sa a' -> Step st b sb b' ->
  exists s, Step sb a s a' /\ Step sa b s b'.
Proof.
  intros Hne Ha Hb.
  destruct (Step_effect _ _ _ _ Ha) as [-> | (ia & pa & Hra & Hma & Ea)];
    destruct (Step_effect _ _ _ _ Hb) as [-> | (ib & pb & Hrb & Hmb & Eb)].
  - by exists st.
  - exists sb. split; [|done]. subst sb.
    apply (Step_frame st a st a' ib pb b Hmb); [|done]. intros Hr. by apply Hne.
  - exists sa. split; [done|]. subst sa.
    apply (Step_frame st b st b' ia pa a Hma); [|done].
    intros Hr E. by apply Hne.
  - pose proof (Step_frame st a sa a' ib pb b Hmb (fun Hr => Hne Hr Hrb) Ha) as Fa.
    pose proof (Step_frame st b sb b' ia pa a Hma
                  (fun Hr E => Hne Hra Hr (eq_sym E)) Hb) as Fb.
    rewrite <- Eb in Fa. rewrite <- Ea in Fb.
    eexists. split; [exact Fa|].
    replace (mkMatchState (<[ib:=setPkgStatus found pb]> (st_packages sa))
                          ({[detKey b]} ∪ matchedCombos sa))
      with (mkMatchState (<[ia:=setPkgStatus found pa]> (st_packages sb))
                         ({[detKey a]} ∪ matchedCombos sb)); [exact Fb|].
    subst sa sb. simpl.
    pose proof (matchingPackages_single _ _ _ _ _ Hma) as (Hia & Haa & Hal & _).
    pose proof (matchingPackages_single _ _ _ _ _ Hmb) as (Hib & Hba & Hbl & _).
    assert (Hii : ia <> ib).
    { intros ->. rewrite Hib in Hia. injection Hia as ->.
      apply (detKey_pair a b (Hne Hra Hrb)). congruence. }
    f_equal; [by apply list_insert_insert_ne | set_solver].
Qed.

(** The order of two neighbouring detections matters only when they have
    the same key: when one of them is unreadable or their keys differ,
    exchanging them exchanges their results and changes nothing else. *)
Theorem independent_detections_commute
  (packages : list Package) (pre post : list Detection) (a b : Detection) :
  (readable a = true -> readable b = true -> detKey a <> detKey b) ->
  let r1 := matchDetections packages (pre ++ a :: b :: post) in
  let r2 := matchDetections packages (pre ++ b :: a :: post) in
  updatedPackages r1 = updatedPackages r2 /\
  exists o1 a' b' o2,
    length o1 = length pre /\
    updatedDetections r1 = o1 ++ a' :: b' :: o2 /\
    updatedDetections r2 = o1 ++ b' :: a' :: o2.
Proof.
  intros Hne r1 r2. subst r1 r2. unfold matchDetections.
  rewrite !matchLoop_app.
  pose proof (matchLoop_length (initialState packages) pre) as Hlen.
  destruct (matchLoop (initialState packages) pre) as [st o1]. simpl in *.
  pose proof (processDetection_Step st a) as Ha.
  pose proof (processDetection_Step st b) as Hb.
  destruct (processDetection st a) as [sa a'] eqn:Ea.
  destruct (processDetection st b) as [sb b'] eqn:Eb. simpl in *.
  destruct (Step_diamond _ _ _ _ _ _ _ Hne Ha Hb) as (s & Hsa & Hsb).
  rewrite (Step_fun _ _ _ _ Hsa), (Step_fun _ _ _ _ Hsb).
  destruct (matchLoop s post) as [sf o2]. simpl.
  split; [done|]. by exists o1, a', b', o2.
Qed.

End EngineProps.

(** ** The manifest parser, text by text *)

Section ParserWhole.

Variable uuidv4 : nat -> jsstring.
Variable now : nat -> N.

(** *** Every line is accounted for *)

Lemma LineStep_accounts st index ln st' :
  LineStep uuidv4 now st index ln st' ->
  (length (acc_packages st') + length (acc_errors st') =
   length (acc_packages st) + length (acc_errors st) +
   (if decide (trim ln = []) then 0 else 1))%nat.
Proof.
  destruct 1; simpl; rewrite ?length_app; simpl; case_decide; try done; lia.
Qed.

Lemma forEachLine_accounts st index lines :
  (length (acc_packages (forEachLine uuidv4 now st index lines)) +
   length (acc_errors (forEachLine uuidv4 now st index lines)) =
   length (acc_packages st) + length (acc_errors st) +
   length (filter (fun ln => trim ln <> []) lines))%nat.
Proof.
  revert st index. induction lines as [|ln lines IH]; intros st index; simpl.
  - lia.
  - rewrite IH, filter_cons.
    pose proof (LineStep_accounts _ _ _ _ (processLine_LineStep uuidv4 now st index ln)) as E.
    repeat case_decide; simpl; try done; lia.
Qed.

Lemma errorsUpTo_mono lines i j es :
  (i <= j)%nat -> errorsUpTo lines i es -> errorsUpTo lines j es.
Proof.
  intros Hij [H1 H2]. split; [|done].
  eapply Forall_impl; [exact H1|]. intros e [Hr He]. split; [lia | done].
Qed.

Lemma errorsUpTo_snoc lines i ln why es :
  lines !! i = Some ln -> trim ln <> [] -> why <> [] ->
  errorsUpTo lines i es ->
  errorsUpTo lines (S i) (es ++ [mkParsingError (i + 1) (trim ln) why]).
Proof.
  intros Hi Hne Hw [H1 H2]. split.
  - apply Forall_app. split.
    + eapply Forall_impl; [exact H1|]. intros e [Hr He]. split; [lia | done].
    + apply Forall_singleton. simpl. split; [lia|]. exists ln.
      replace (i + 1 - 1)%nat with i by lia. done.
  - intros a b e1 e2 Hab Ha Hb.
    destruct (decide (b < length es)%nat) as [Hlt|Hge].
    + rewrite lookup_app_l in Ha by lia. rewrite lookup_app_l in Hb by lia.
      exact (H2 a b e1 e2 Hab Ha Hb).
    + pose proof (lookup_lt_Some _ _ _ Hb) as Hlen.
      rewrite length_app in Hlen. simpl in Hlen.
      rewrite lookup_app_l in Ha by lia. rewrite lookup_app_r in Hb by lia.
      apply list_lookup_singleton_Some in Hb as [_ <-]. simpl.
      rewrite Forall_forall in H1.
      destruct (H1 e1) as [Hr _]; [by eapply list_elem_of_lookup_2 | lia].
Qed.

Lemma parseLines_errorsUpTo lines i :
  (i <= length lines)%nat ->
  errorsUpTo lines i (acc_errors (parseLines uuidv4 now (take i lines))).
Proof.
  induction i as [|i IH]; intros Hi.
  - rewrite take_0. split; [constructor | done].
  - assert (Hlt : (i < length lines)%nat) by lia.
    apply lookup_lt_is_Some in Hlt as [ln Hln].
    rewrite (parseLines_take_S uuidv4 now _ _ _ Hln).
    specialize (IH ltac:(lia)).
    destruct (processLine_LineStep uuidv4 now
                (parseLines uuidv4 now (take i lines)) i ln) as [Hb|why Hne Hw|e Hne He Hk].
    + apply (errorsUpTo_mono lines i); [lia | done].
    + simpl. by apply errorsUpTo_snoc.
    + simpl. apply (errorsUpTo_mono lines i); [lia | done].
Qed.

(** The packages and the errors returned account for the lines of the text
    that are not blank, one each. The errors come in the order of their
    lines: the line numbers increase strictly, each is the number of a
    line of the text, counted from one, that is not blank and whose trimmed
    text the error carries, with a reason that is not empty. *)
Theorem parsePackageList_accounts_for_lines (rawText : jsstring) :
  let lines := splitChar NEWLINE rawText in
  let r := parsePackageList uuidv4 now rawText in
  (length (packages r) + length (errors r))%nat =
    length (filter (fun ln => trim ln <> []) lines) /\
  (forall i j e1 e2, (i < j)%nat ->
     errors r !! i = Some e1 -> errors r !! j = Some e2 ->
     (lineNumber e1 < lineNumber e2)%nat) /\
  forall e, e ∈ errors r ->
    (1 <= lineNumber e <= length lines)%nat /\
    exists ln, lines !! (lineNumber e - 1)%nat = Some ln /\
               line e = trim ln /\ trim ln <> [] /\ reason e <> [].
Proof.
  intros lines r. subst r. unfold parsePackageList. simpl. fold lines.
  split.
  - unfold parseLines. rewrite forEachLine_accounts. simpl. lia.
  - pose proof (parseLines_errorsUpTo lines (length lines) ltac:(lia)) as [H1 H2].
    rewrite firstn_all in H1, H2. split; [done|].
    intros e He. rewrite Forall_forall in H1. by apply H1.
Qed.

(** *** The packages returned *)

Lemma splitSpacesFrom_last b (s : jsstring) c :
  last s = Some c -> isSpace c = false ->
  exists w, last (splitSpacesFrom b s) = Some w /\ w <> [].
Proof.
  revert b. induction s as [|x s IH]; intros b Hl Hc; [done|].
  destruct s as [|y s'].
  - simpl in Hl. injection Hl as ->. simpl. rewrite Hc. by exists [c].
  - assert (Hl' : last (y :: s') = Some c) by done.
    change (splitSpacesFrom b (x :: y :: s'))
      with (if isSpace x
            then if b then splitSpacesFrom true (y :: s')
                 else [] :: splitSpacesFrom true (y :: s')
            else consFirst x (splitSpacesFrom false (y :: s'))).
    destruct (isSpace x).
    + destruct (IH true Hl' Hc) as (w & Hw & Hne).
      destruct b; [by exists w|]. exists w. split; [|done].
      destruct (splitSpacesFrom true (y :: s')); [done|]. done.
    + destruct (IH false Hl' Hc) as (w & Hw & Hne).
      destruct (splitSpacesFrom false (y :: s')) as [|w0 [|w1 ws]]; [done| |].
      * simpl in *. by exists (x :: w0).
      * exists w. done.
Qed.

Lemma joinSpace_nonempty (ws : list jsstring) w :
  last ws = Some w -> w <> [] -> joinSpace ws <> [].
Proof.
  destruct ws as [|a [|b ws]]; [done| |].
  - simpl. by intros [= ->].
  - intros _ _. change (joinSpace (a :: b :: ws))
      with (a ++ js " " ++ joinSpace (b :: ws)).
    intros E. apply app_eq_nil in E as [_ E]. done.
Qed.

Lemma sliceLast4_length (s : jsstring) :
  (4 <= length s)%nat -> length (sliceLast4 s) = 4%nat.
Proof. intros H. unfold sliceLast4. rewrite length_drop. lia. Qed.

Lemma decomposeField_shape apt field e :
  decomposeField apt field = Returned (inr e) -> extractedShape e.
Proof.
  unfold decomposeField, element, extractedShape.
  destruct (_ <? _)%nat; [done|].
  destruct (_ !! 0%nat) as [p0|]; [|done].
  destruct (_ !! 2%nat) as [p2|]; [|done].
  destruct (noTrackingPatterns _).
  - destruct (noTrackMatch _) as [[g1 g2]|].
    + destruct (trim g2) eqn:E; intros [= <-]; simpl; repeat split; auto.
    + intros [= <-]; simpl; repeat split; auto.
  - destruct (_ <? _)%nat eqn:Hlen; [done|]. apply Nat.ltb_ge in Hlen.
    destruct (splitSpaces (trim p2) !! 0%nat) as [tk|] eqn:E0; [|done].
    destruct (_ <? _)%nat eqn:H4; [done|]. apply Nat.ltb_ge in H4.
    intros [= <-]. simpl. split; [by apply sliceLast4_length|]. split; [by right|].
    (* the recipient *)
    destruct (trim p2) as [|c t] eqn:Et; [simpl in Hlen; lia|].
    assert (Hlast : exists z, last (trim p2) = Some z /\ isSpace z = false).
    { destruct (last (trim p2)) as [z|] eqn:Ez.
      - exists z. split; [done|]. by apply (trim_endsUnspaced p2).
      - apply last_None in Ez. congruence. }
    destruct Hlast as (z & Hz & Hzs). rewrite Et in Hz.
    destruct (splitSpacesFrom_last false (c :: t) z Hz Hzs) as (w & Hw & Hne).
    fold (splitSpaces (c :: t)) in Hw.
    apply joinSpace_nonempty with (w := w); [|done].
    destruct (splitSpaces (c :: t)) as [|a [|b ws]]; simpl in Hlen; try lia.
    done.
Qed.

Lemma extractLine_shape t e :
  extractLine t = Returned (inr e) -> extractedShape e.
Proof.
  unfold extractLine.
  destruct (segmentLine t) as [[why|[apt field]]|message]; try done.
  apply decomposeField_shape.
Qed.

Lemma LineStep_shaped st index ln st' :
  LineStep uuidv4 now st index ln st' ->
  packagesShaped uuidv4 now (acc_packages st) -> packagesShaped uuidv4 now (acc_packages st').
Proof.
  destruct 1 as [|why|e Hne He Hk]; intros Hs; try done. simpl.
  intros k p Hk'.
  destruct (decide (k < length (acc_packages st))%nat) as [Hlt|Hge].
  - rewrite lookup_app_l in Hk' by done. by apply Hs.
  - pose proof (lookup_lt_Some _ _ _ Hk') as Hlen.
    rewrite length_app in Hlen. simpl in Hlen.
    rewrite lookup_app_r in Hk' by lia.
    apply list_lookup_singleton_Some in Hk' as [Hk0 <-].
    assert (k = length (acc_packages st)) as -> by lia.
    destruct (extractLine_shape _ _ He) as (H1 & H2 & H3). simpl.
    repeat split; done.
Qed.

Lemma forEachLine_shaped st index lines :
  packagesShaped uuidv4 now (acc_packages st) ->
  packagesShaped uuidv4 now (acc_packages (forEachLine uuidv4 now st index lines)).
Proof.
  revert st index. induction lines as [|ln lines IH]; intros st index Hs; [done|].
  simpl. apply IH. eapply LineStep_shaped; [apply processLine_LineStep | done].
Qed.

(** Every package returned is pending and carries the identifier and the
    time of its creation: the package at position [k] has what the call
    number [k] of [uuidv4] and of [Date.now] returned. Its trackingLast4 has
    four code units: the sentinel [NONE], or the last four of a fullTracking
    of at least four. Its recipient is not empty. *)
Theorem parsePackageList_packages (rawText : jsstring) (k : nat) (p : Package) :
  packages (parsePackageList uuidv4 now rawText) !! k = Some p ->
  pkg_id p = uuidv4 k /\ importedAt p = now k /\ pkg_status p = pending /\
  length (trackingLast4 p) = 4%nat /\
  (trackingLast4 p = NONE \/
   ((4 <= length (fullTracking p))%nat /\
    trackingLast4 p = sliceLast4 (fullTracking p))) /\
  recipient p <> [].
Proof.
  unfold parsePackageList, parseLines. simpl.
  apply forEachLine_shaped. intros k' p' H. done.
Qed.

(** *** Line endings *)

Lemma trim_snoc_CR (l : jsstring) : trim (l ++ [13]) = trim l.
Proof.
  unfold trim, trimStart. rewrite dropWhile_app.
  destruct (dropWhile isSpace l) as [|c r] eqn:E; [done|].
  unfold trimEnd. rewrite rev_app_distr. done.
Qed.

Lemma sameUpToCR_trim a b : sameUpToCR a b -> trim a = trim b.
Proof. intros [-> | ->]; [done | apply trim_snoc_CR]. Qed.

Lemma consFirst_sameUpToCR c l1 l2 :
  Forall2 sameUpToCR l1 l2 -> Forall2 sameUpToCR (consFirst c l1) (consFirst c l2).
Proof.
  destruct 1 as [|a b l1 l2 Hab H]; simpl; [repeat constructor|].
  constructor; [|done]. destruct Hab as [-> | ->]; [by left | by right].
Qed.

Lemma splitChar_toCRLF (s : jsstring) :
  Forall2 sameUpToCR (splitChar NEWLINE (toCRLF s)) (splitChar NEWLINE s).
Proof.
  induction s as [|c s IH]; [repeat constructor|].
  change (toCRLF (c :: s))
    with (if c =? NEWLINE then 13 :: NEWLINE :: toCRLF s else c :: toCRLF s).
  change (splitChar NEWLINE (c :: s))
    with (if c =? NEWLINE then [] :: splitChar NEWLINE s
          else consFirst c (splitChar NEWLINE s)).
  destruct (c =? NEWLINE) eqn:E.
  - change (splitChar NEWLINE (13 :: NEWLINE :: toCRLF s))
      with (consFirst 13 ([] :: splitChar NEWLINE (toCRLF s))).
    simpl. constructor; [by right | done].
  - change (splitChar NEWLINE (c :: toCRLF s))
      with (if c =? NEWLINE then [] :: splitChar NEWLINE (toCRLF s)
            else consFirst c (splitChar NEWLINE (toCRLF s))).
    rewrite E. by apply consFirst_sameUpToCR.
Qed.

Lemma processLine_trim st index l1 l2 :
  trim l1 = trim l2 ->
  processLine uuidv4 now st index l1 = processLine uuidv4 now st index l2.
Proof. intros E. unfold processLine. by rewrite E. Qed.

Lemma forEachLine_trim st index ls1 ls2 :
  Forall2 (fun a b => trim a = trim b) ls1 ls2 ->
  forEachLine uuidv4 now st index ls1 = forEachLine uuidv4 now st index ls2.
Proof.
  intros H. revert st index. induction H as [|a b ls1 ls2 Hab _ IH];
    intros st index; [done|].
  simpl. by rewrite (processLine_trim _ _ _ _ Hab), IH.
Qed.

(** A text stored with Windows line endings is parsed as the same text
    with line feeds alone: same packages, same errors, same line numbers. *)
Theorem parsePackageList_line_endings (rawText : jsstring) :
  parsePackageList uuidv4 now (toCRLF rawText) =
  parsePackageList uuidv4 now rawText.
Proof.
  unfold parsePackageList, parseLines.
  rewrite (forEachLine_trim _ _ (splitChar NEWLINE (toCRLF rawText))
             (splitChar NEWLINE rawText)); [done|].
  eapply Forall2_impl; [apply splitChar_toCRLF|].
  intros a b. apply sameUpToCR_trim.
Qed.

End ParserWhole.

(** ** An import followed by scans *)

Section ImportThenScan.

Implicit Types (st : MatchState) (d : Detection) (ps : list Package)
  (ds : list Detection).

(** *** Packages with pairwise different pairs *)

Lemma matchingFrom_no_match i a l ps :
  (forall p, p ∈ ps -> isMatch a l p = false) -> matchingFrom i a l ps = [].
Proof.
  revert i. induction ps as [|q ps IH]; intros i H; [done|].
  simpl. rewrite (H q) by left. apply IH. intros p Hp. apply H. by right.
Qed.

Lemma matchingFrom_at_most_one i a l ps :
  NoDup (pkgPair <$> ps) -> (length (matchingFrom i a l ps) <= 1)%nat.
Proof.
  revert i. induction ps as [|q ps IH]; intros i Hnd; simpl; [lia|].
  apply NoDup_cons in Hnd as [Hq Hnd].
  destruct (isMatch a l q) eqn:E; [|by apply IH].
  rewrite matchingFrom_no_match; [simpl; lia|].
  intros p Hp. destruct (isMatch a l p) eqn:Ep; [|done].
  apply isMatch_true in E as (Ea & El & _).
  apply isMatch_true in Ep as (Epa & Epl & _).
  exfalso. apply Hq. apply list_elem_of_fmap. exists p. split; [|done].
  unfold pkgPair. congruence.
Qed.

Lemma Step_pairs st d st' d' :
  Step st d st' d' -> pkgPair <$> st_packages st' = pkgPair <$> st_packages st.
Proof.
  destruct 1 as [| |i pkg Hr Hk Hm| |]; try done. simpl.
  apply matchingPackages_single in Hm as (Hi & _).
  rewrite list_fmap_insert. apply list_insert_id.
  rewrite list_lookup_fmap, Hi. done.
Qed.

Lemma reaches_pairs st st' :
  reaches st st' -> pkgPair <$> st_packages st' = pkgPair <$> st_packages st.
Proof.
  induction 1 as [|s1 s2 s3 (d & d' & Hs) _ IH]; [done|].
  rewrite IH. by eapply Step_pairs.
Qed.

Lemma distinct_pairs_never_ambiguous (packages : list Package) ds :
  NoDup (pkgPair <$> packages) ->
  Forall (fun d' => det_status d' <> ambiguous)
         (updatedDetections (matchDetections packages ds)).
Proof.
  intros Hnd. apply Forall_lookup. intros j d' Hj Hamb.
  destruct (matchDetections_at _ _ _ _ Hj) as (d & stj & st' & _ & Hr & Hs & _).
  apply Step_status in Hs. rewrite Hamb in Hs. destruct Hs as (_ & _ & _ & Hlen & _).
  pose proof (matchingFrom_at_most_one 0 (detApartment d) (detLast4 d)
                (st_packages stj)) as Hle.
  rewrite (reaches_pairs _ _ Hr) in Hle. specialize (Hle Hnd).
  unfold matchingPackages in Hlen. lia.
Qed.

(** *** Each label scanned once *)

Lemma matchingFrom_unique j a l (qs : list Package) i q :
  qs !! i = Some q -> isMatch a l q = true ->
  (forall i' q', qs !! i' = Some q' -> i' <> i -> isMatch a l q' = false) ->
  matchingFrom j a l qs = [((j + i)%nat, q)].
Proof.
  revert j i. induction qs as [|x qs IH]; intros j i Hi Hq Hothers; [done|].
  destruct i as [|i]; simpl in *.
  - injection Hi as ->. rewrite Hq. rewrite Nat.add_0_r. f_equal.
    apply matchingFrom_no_match. intros p Hp.
    apply list_elem_of_lookup in Hp as [k Hk]. by apply (Hothers (S k)).
  - rewrite (Hothers 0%nat x eq_refl) by lia.
    rewrite (IH (S j) i Hi Hq).
    + f_equal. f_equal. lia.
    + intros i' q' Hi' Hne. apply (Hothers (S i')); [done | lia].
Qed.

Lemma NoDup_fmap_lookup {A B} (f : A -> B) (l : list A) i j x y :
  NoDup (f <$> l) -> l !! i = Some x -> l !! j = Some y -> f x = f y -> i = j.
Proof.
  intros Hnd Hi Hj E.
  apply (NoDup_lookup _ i j (f x) Hnd); rewrite list_lookup_fmap.
  - by rewrite Hi.
  - by rewrite Hj, E.
Qed.

Lemma readsLabelOf_readable p d :
  apartment p <> [] -> trackingLast4 p <> [] -> readsLabelOf p d ->
  readable d = true /\ detApartment d = apartment p /\
  detLast4 d = trackingLast4 p /\ detKey d = pkgKey p.
Proof.
  intros Ha Hl [Ea El]. unfold readable, detKey, pkgKey, detApartment, detLast4.
  rewrite Ea, El. simpl.
  destruct (apartment p); [done|]. destruct (trackingLast4 p); [done|]. done.
Qed.

Lemma markFound_step (ps : list Package) (mc : gset jsstring) i p :
  NoDup (pkgKey <$> ps) -> ps !! i = Some p ->
  <[i := setPkgStatus found p]> (markFound mc <$> ps) =
  markFound ({[ pkgKey p ]} ∪ mc) <$> ps.
Proof.
  intros Hnd Hi. apply list_eq. intros k.
  destruct (decide (k = i)) as [->|Hne].
  - rewrite list_lookup_insert_eq
      by (rewrite length_fmap; by eapply lookup_lt_Some).
    rewrite list_lookup_fmap, Hi. simpl. unfold markFound.
    rewrite bool_decide_eq_true_2 by set_solver. done.
  - rewrite list_lookup_insert_ne by done. rewrite !list_lookup_fmap.
    destruct (ps !! k) as [q|] eqn:Hk; [|done]. simpl. f_equal.
    unfold markFound.
    assert (Hq : pkgKey q <> pkgKey p).
    { intros E. apply Hne. by apply (NoDup_fmap_lookup pkgKey ps k i q p). }
    destruct (decide (pkgKey q ∈ mc)).
    + rewrite !bool_decide_eq_true_2 by set_solver. done.
    + rewrite !bool_decide_eq_false_2 by set_solver. done.
Qed.

Lemma pkgKey_pair p q : pkgPair p = pkgPair q -> pkgKey p = pkgKey q.
Proof. unfold pkgPair, pkgKey. by intros [= -> ->]. Qed.

(** The loop over detections that read the labels of [scanned], in a state
    where the packages with a key in [mc] are found. *)
Lemma matchLoop_scan (ps : list Package) (scanned : list Package) ds
  (mc : gset jsstring) :
  freshImport ps ->
  Forall2 readsLabelOf scanned ds ->
  NoDup (pkgKey <$> scanned) ->
  (forall p, p ∈ scanned -> p ∈ ps /\ pkgKey p ∉ mc) ->
  matchLoop (mkMatchState (markFound mc <$> ps) mc) ds =
  (mkMatchState (markFound (list_to_set (pkgKey <$> scanned) ∪ mc) <$> ps)
                (list_to_set (pkgKey <$> scanned) ∪ mc),
   zip_with matchedWith scanned ds).
Proof.
  intros [Hfresh Hnd] H. revert mc.
  induction H as [|p d scanned ds Hpd _ IH]; intros mc Hnds Hin.
  - simpl. by rewrite !(left_id_L ∅ (∪)).
  - simpl in Hnds. apply NoDup_cons in Hnds as [Hp Hnds].
    destruct (Hin p ltac:(left)) as [Hpin Hpk].
    apply list_elem_of_lookup in Hpin as [i Hi].
    rewrite Forall_forall in Hfresh.
    destruct (Hfresh p ltac:(by eapply list_elem_of_lookup_2)) as (Hst & Ha & Hl).
    destruct (readsLabelOf_readable p d Ha Hl Hpd) as (Hr & Eda & Edl & Ek).
    simpl.
    assert (Hm : matchingPackages (detApartment d) (detLast4 d)
                   (st_packages (mkMatchState (markFound mc <$> ps) mc)) = [(i, p)]).
    { simpl. unfold matchingPackages.
      rewrite (matchingFrom_unique 0 _ _ _ i p); [done| | |].
      - rewrite list_lookup_fmap, Hi. simpl. unfold markFound.
        by rewrite bool_decide_eq_false_2.
      - apply isMatch_true. by rewrite Eda, Edl.
      - intros i' q' Hi' Hne. rewrite list_lookup_fmap in Hi'.
        destruct (ps !! i') as [q|] eqn:Hq; [|done]. simpl in Hi'.
        injection Hi' as <-. unfold markFound.
        destruct (isMatch _ _ _) eqn:E; [|done]. exfalso.
        apply isMatch_true in E as (Ea & El & Es).
        case_bool_decide as Hk; [done|].
        apply Hne. apply (NoDup_fmap_lookup pkgKey ps i' i q p Hnd Hq Hi).
        apply pkgKey_pair. unfold pkgPair. congruence. }
    rewrite (processDetection_matched _ _ i p Hr); [|simpl; by rewrite Ek|done].
    simpl. rewrite Ek, (markFound_step ps mc i p Hnd Hi).
    rewrite (IH ({[pkgKey p]} ∪ mc) Hnds).
    + replace (list_to_set (pkgKey <$> scanned) ∪ ({[pkgKey p]} ∪ mc))
        with ({[pkgKey p]} ∪ list_to_set (pkgKey <$> scanned) ∪ mc)
        by set_solver.
      done.
    + intros q Hq. destruct (Hin q ltac:(by right)) as [Hqin Hqk].
      split; [done|]. intros Hk. apply elem_of_union in Hk as [Hk | Hk]; [|done].
      apply elem_of_singleton in Hk. apply Hp. rewrite <- Hk.
      apply list_elem_of_fmap. by exists q.
Qed.

Lemma addClaimed_pending (ps : list Package) :
  Forall (fun p => pkg_status p = pending) ps -> addClaimed ∅ ps = ∅.
Proof.
  intros H. apply set_eq. intros k. rewrite addClaimed_spec. split; [|set_solver].
  intros [Hk | (p & Hp & Hc & _)]; [done|].
  rewrite Forall_forall in H. unfold isClaimed in Hc. by rewrite (H p Hp) in Hc.
Qed.

Lemma markFound_empty (ps : list Package) : markFound ∅ <$> ps = ps.
Proof.
  induction ps as [|p ps IH]; [done|]. rewrite fmap_cons, IH. f_equal.
Qed.

(** Pending packages with different keys, and detections that read the
    labels of some of them, each once, in any order: every detection is
    matched with the package whose label it read, the packages whose labels
    were read are found, and the others are returned as they were. *)
Lemma scan_of_fresh_import (ps scanned : list Package) ds :
  freshImport ps ->
  NoDup scanned -> (forall p, p ∈ scanned -> p ∈ ps) ->
  Forall2 readsLabelOf scanned ds ->
  let r := matchDetections ps ds in
  updatedDetections r = zip_with matchedWith scanned ds /\
  forall i p, ps !! i = Some p ->
    (p ∈ scanned -> updatedPackages r !! i = Some (setPkgStatus found p)) /\
    (p ∉ scanned -> updatedPackages r !! i = Some p).
Proof.
  intros Hf Hnd Hsub Hreads r. subst r.
  pose proof Hf as [Hfresh Hkeys].
  assert (Hinj : forall p q, p ∈ ps -> q ∈ ps -> pkgKey p = pkgKey q -> p = q).
  { intros p q Hp Hq E.
    apply list_elem_of_lookup in Hp as [i Hi]. apply list_elem_of_lookup in Hq as [j Hj].
    pose proof (NoDup_fmap_lookup pkgKey ps i j p q Hkeys Hi Hj E) as <-.
    congruence. }
  assert (Hnk : NoDup (pkgKey <$> scanned)).
  { apply NoDup_fmap_2_strong; [|done]. intros p q Hp Hq. apply Hinj; by apply Hsub. }
  assert (E : matchLoop (initialState ps) ds =
              (mkMatchState
                 (markFound (list_to_set (pkgKey <$> scanned) ∪ ∅) <$> ps)
                 (list_to_set (pkgKey <$> scanned) ∪ ∅),
               zip_with matchedWith scanned ds)).
  { unfold initialState.
    rewrite addClaimed_pending
      by (eapply Forall_impl; [exact Hfresh | by intros p (? & _)]).
    rewrite <- (markFound_empty ps) at 1.
    apply (matchLoop_scan ps scanned ds ∅ Hf Hreads Hnk).
    intros p Hp; split; [by apply Hsub | set_solver]. }
  unfold matchDetections. rewrite E.
  cbn [updatedPackages updatedDetections st_packages].
  split; [done|]. intros i p Hi. rewrite list_lookup_fmap, Hi.
  cbn [fmap option_fmap option_map].
  unfold markFound. split.
  - intros Hp. rewrite bool_decide_eq_true_2; [done|].
    apply elem_of_union. left. apply elem_of_list_to_set, list_elem_of_fmap.
    by exists p.
  - intros Hp. rewrite bool_decide_eq_false_2; [done|].
    intros Hk. apply elem_of_union in Hk as [Hk | Hk]; [|done].
    apply elem_of_list_to_set, list_elem_of_fmap in Hk as (q & Eq & Hq).
    apply Hp. rewrite (Hinj p q); [done | by eapply list_elem_of_lookup_2
                                   | by apply Hsub | done].
Qed.

End ImportThenScan.

Section ImportedPackages.

Variable uuidv4 : nat -> jsstring.
Variable now : nat -> N.

Lemma isApartmentCode_length (s : jsstring) :
  isApartmentCode s = true -> length s = 4%nat.
Proof. by destruct s as [|a [|b [|c [|d [|e s]]]]]. Qed.

Lemma comboKey_inj (a1 a2 l1 l2 : jsstring) :
  length a1 = length a2 -> comboKey a1 l1 = comboKey a2 l2 -> a1 = a2 /\ l1 = l2.
Proof.
  unfold comboKey. intros Hlen E. apply app_inj_1 in E as [-> E]; [|done].
  split; [done|]. by apply app_inv_head in E.
Qed.

Lemma parsePackageList_freshImport (rawText : jsstring) :
  freshImport (packages (parsePackageList uuidv4 now rawText)).
Proof.
  unfold parsePackageList, parseLines. simpl.
  set (ps := acc_packages _).
  assert (Hshape : packagesShaped uuidv4 now ps)
    by (apply forEachLine_shaped; by intros k p H).
  assert (Hapt : Forall (fun p => isApartmentCode (apartment p) = true) ps)
    by (apply forEachLine_apartments; constructor).
  assert (Hpairs : NoDup (pkgPair <$> ps))
    by (apply (forEachLine_invariants uuidv4 now); simpl; [|constructor];
        intros k; split; [set_solver | by intros (p & Hp & _); inversion Hp]).
  rewrite Forall_forall in Hapt.
  split.
  - apply Forall_lookup. intros k p Hk.
    destruct (Hshape k p Hk) as (_ & _ & Hs & H4 & _).
    pose proof (isApartmentCode_length _ (Hapt p ltac:(by eapply list_elem_of_lookup_2))) as Ha.
    split; [done|]. split; intros E; rewrite E in *; done.
  - apply NoDup_fmap_2_strong; [|by eapply NoDup_fmap_1].
    intros p q Hp Hq E.
    assert (Hlen : length (apartment p) = length (apartment q))
      by (by rewrite !isApartmentCode_length by by apply Hapt).
    destruct (comboKey_inj (apartment p) (apartment q) (trackingLast4 p)
                (trackingLast4 q) Hlen E) as [Ea El].
    apply list_elem_of_lookup in Hp as [i Hi]. apply list_elem_of_lookup in Hq as [j Hj].
    assert (i = j) as ->.
    { apply (NoDup_fmap_lookup pkgPair ps i j p q Hpairs Hi Hj).
      unfold pkgPair. congruence. }
    congruence.
Qed.

(** After an import, no scan is ever ambiguous: the packages of one text
    have pairwise different pairs, so no detection finds several pending
    candidates. *)
Theorem imported_packages_never_ambiguous
  (rawText : jsstring) (detections : list Detection) :
  Forall (fun d' => det_status d' <> ambiguous)
         (updatedDetections
            (matchDetections (packages (parsePackageList uuidv4 now rawText))
                             detections)).
Proof.
  apply distinct_pairs_never_ambiguous.
  unfold parsePackageList. simpl. apply parseLines_invariants.
Qed.

(** An import followed by one scan that read the labels of some of the
    packages, each label once and in any order: every detection is returned
    matched with the package whose label it read, these packages are
    returned found, and the others as they were. *)
Theorem scan_of_imported_packages
  (rawText : jsstring) (scanned : list Package) (detections : list Detection) :
  let ps := packages (parsePackageList uuidv4 now rawText) in
  NoDup scanned -> (forall p, p ∈ scanned -> p ∈ ps) ->
  Forall2 readsLabelOf scanned detections ->
  let r := matchDetections ps detections in
  updatedDetections r = zip_with matchedWith scanned detections /\
  forall i p, ps !! i = Some p ->
    (p ∈ scanned -> updatedPackages r !! i = Some (setPkgStatus found p)) /\
    (p ∉ scanned -> updatedPackages r !! i = Some p).
Proof.
  intros ps Hnd Hsub Hreads.
  apply (scan_of_fresh_import ps scanned detections); try done.
  apply parsePackageList_freshImport.
Qed.

End ImportedPackages.

(** ** What a call does to a package *)

Section PackagesMove.

Implicit Types (st : MatchState) (d : Detection) (ps : list Package)
  (ds : list Detection).

Lemma readable_fields d :
  readable d = true ->
  parsedApartment d = Some (detApartment d) /\ parsedLast4 d = Some (detLast4 d).
Proof.
  unfold readable, detApartment, detLast4. intros H.
  apply andb_true_iff in H as [Ha Hl].
  destruct (parsedApartment d); [|done]. destruct (parsedLast4 d); [|done]. done.
Qed.

Lemma matchLoop_found_by st ds i p :
  st_packages st !! i = Some p -> pkg_status p = pending ->
  st_packages (matchLoop st ds).1 !! i = Some (setPkgStatus found p) ->
  exists j d', (matchLoop st ds).2 !! j = Some d' /\ det_status d' = matched /\
               matchedPackageId d' = Some (pkg_id p) /\
               parsedApartment d' = Some (apartment p) /\
               parsedLast4 d' = Some (trackingLast4 p).
Proof.
  revert st. induction ds as [|d ds IH]; intros st Hi Hp Hf; simpl in *.
  - rewrite Hi in Hf. injection Hf as Hf. rewrite Hf in Hp. done.
  - pose proof (processDetection_Step st d) as Hs.
    destruct (processDetection st d) as [st1 d1]. simpl in Hs.
    specialize (IH st1).
    destruct (matchLoop st1 ds) as [st2 out]. simpl in *.
    assert (Hrest : st_packages st1 !! i = Some p ->
              exists j d', (d1 :: out) !! j = Some d' /\ det_status d' = matched /\
                matchedPackageId d' = Some (pkg_id p) /\
                parsedApartment d' = Some (apartment p) /\
                parsedLast4 d' = Some (trackingLast4 p)).
    { intros H1. destruct (IH H1 Hp Hf) as (j & d' & Hj & Hd').
      by exists (S j), d'. }
    destruct Hs as [| |i0 pkg Hr Hk Hm| |]; try (by apply Hrest).
    pose proof (matchingPackages_single _ _ _ _ _ Hm) as (Hi0 & Ha & Hl & Hst).
    destruct (decide (i0 = i)) as [->|Hne].
    + rewrite Hi in Hi0. injection Hi0 as <-.
      destruct (readable_fields d Hr) as [Ea El].
      exists 0%nat. eexists. split; [done|]. simpl.
      rewrite Ea, El, Ha, Hl. repeat split; done.
    + apply Hrest. simpl. by rewrite list_lookup_insert_ne.
Qed.

(** What a call does to a package. One that is not pending is returned as
    it was. A pending one is returned as it was or with status found and
    nothing else changed; when it is returned found, a detection of the call
    is returned matched, with the identifier and the two fields of the
    package. *)
Theorem packages_only_move_to_found
  (packages : list Package) (detections : list Detection) (i : nat)
  (p : Package) :
  packages !! i = Some p ->
  let r := matchDetections packages detections in
  (pkg_status p <> pending -> updatedPackages r !! i = Some p) /\
  (updatedPackages r !! i = Some p \/
   updatedPackages r !! i = Some (setPkgStatus found p)) /\
  (pkg_status p = pending ->
   updatedPackages r !! i = Some (setPkgStatus found p) ->
   exists j d', updatedDetections r !! j = Some d' /\ det_status d' = matched /\
                matchedPackageId d' = Some (pkg_id p) /\
                parsedApartment d' = Some (apartment p) /\
                parsedLast4 d' = Some (trackingLast4 p)).
Proof.
  intros Hi r. subst r.
  destruct (matchDetections_package packages detections i p Hi) as [E | [Hp E]].
  - split; [done|]. split; [by left|]. intros Hp Hf.
    rewrite E in Hf. injection Hf as Hf. rewrite Hf in Hp. done.
  - split; [done|]. split; [by right|]. intros _ _.
    unfold matchDetections in *.
    pose proof (matchLoop_found_by (initialState packages) detections i p Hi Hp) as H.
    destruct (matchLoop (initialState packages) detections) as [stf out] eqn:El.
    simpl in *. exact (H E).
Qed.

End PackagesMove.

(** ** The class of a detection, from the arguments *)

Section Classification.

Implicit Types (st : MatchState) (d : Detection) (ps : list Package)
  (ds : list Detection).

(** A step of a detection with another key changes neither whether the key
    [comboKey a l] is claimed nor the candidates of the pair. *)
Lemma Step_other_key st e st' e' a l :
  Step st e st' e' ->
  (readable e = true -> detKey e <> comboKey a l) ->
  (comboKey a l ∈ matchedCombos st' <-> comboKey a l ∈ matchedCombos st) /\
  matchingPackages a l (st_packages st') = matchingPackages a l (st_packages st).
Proof.
  intros Hs Hne. destruct (Step_effect _ _ _ _ Hs) as [-> | (i & pkg & Hr & Hm & ->)];
    [done|].
  specialize (Hne Hr). simpl. split; [set_solver|].
  pose proof (matchingPackages_single _ _ _ _ _ Hm) as (Hi & Ha & Hl & Hst).
  apply matchingFrom_insert_irrelevant with (p0 := pkg); [done| |].
  - destruct (isMatch a l pkg) eqn:E; [|done].
    apply isMatch_true in E as (Ea & El & _). exfalso. apply Hne.
    unfold detKey. congruence.
  - destruct (isMatch a l (setPkgStatus found pkg)) eqn:E; [|done].
    by apply isMatch_true in E as (_ & _ & E).
Qed.

Lemma matchLoop_other_keys st ds a l :
  (forall e, e ∈ ds -> readable e = true -> detKey e <> comboKey a l) ->
  (comboKey a l ∈ matchedCombos (matchLoop st ds).1 <->
   comboKey a l ∈ matchedCombos st) /\
  matchingPackages a l (st_packages (matchLoop st ds).1) =
  matchingPackages a l (st_packages st).
Proof.
  revert st. induction ds as [|e ds IH]; intros st Hne; [done|]. simpl.
  pose proof (processDetection_Step st e) as Hs.
  destruct (processDetection st e) as [st1 e1]. simpl in Hs.
  destruct (Step_other_key _ _ _ _ a l Hs (Hne e ltac:(left))) as [H1 H2].
  specialize (IH st1 (fun x Hx => Hne x ltac:(by right))).
  destruct (matchLoop st1 ds) as [st2 out]. simpl in *.
  destruct IH as [H3 H4]. split; [by rewrite H3 | by rewrite H4].
Qed.

(** The first detection that reads the label of a pending package is
    matched with it, and every later one is a duplicate. In terms of the
    arguments alone: when exactly one pending package has the two readings
    of a readable detection, no found or verified package has its key and
    no readable detection before it has its key, the detection is returned
    matched with that package, the package is returned found, and every
    later readable detection with the same key is returned as a duplicate,
    with its other fields as they were. *)
Theorem first_reader_is_matched
  (packages : list Package) (detections : list Detection) (j : nat)
  (d : Detection) (i : nat) (p : Package) :
  detections !! j = Some d ->
  readable d = true ->
  matchingPackages (detApartment d) (detLast4 d) packages = [(i, p)] ->
  (forall q, q ∈ packages -> isClaimed q = true -> pkgKey q <> detKey d) ->
  (forall j' e, (j' < j)%nat -> detections !! j' = Some e ->
                readable e = true -> detKey e <> detKey d) ->
  let r := matchDetections packages detections in
  updatedDetections r !! j = Some (matchedWith p d) /\
  updatedPackages r !! i = Some (setPkgStatus found p) /\
  (forall j' e, (j < j')%nat -> detections !! j' = Some e ->
                readable e = true -> detKey e = detKey d ->
                updatedDetections r !! j' = Some (setDetStatus duplicate e)).
Proof.
  intros Hj Hr Hm Hclaimed Hbefore r. subst r.
  destruct (matchLoop_at (initialState packages) _ _ _ Hj) as (Ho & _ & Hr2).
  destruct (matchLoop_other_keys (initialState packages) (take j detections)
              (detApartment d) (detLast4 d)) as [Hk Hsame].
  { intros e He. apply list_elem_of_lookup in He as [j' Hj'].
    apply lookup_take_Some in Hj' as [Hj' Hlt]. by apply (Hbefore j'). }
  fold (detKey d) in Hk.
  set (stj := (matchLoop (initialState packages) (take j detections)).1) in *.
  assert (Hnk : detKey d ∉ matchedCombos stj).
  { rewrite Hk. intros Hin. apply initialState_claimedInv in Hin
      as (q & Hq & Hc & Hkey). by apply (Hclaimed q). }
  simpl in Hsame. rewrite <- Hsame in Hm.
  rewrite (processDetection_matched _ _ _ _ Hr Hnk Hm) in Ho, Hr2.
  assert (Hlater : forall j' e, (j < j')%nat -> detections !! j' = Some e ->
            readable e = true -> detKey e = detKey d ->
            (matchLoop (initialState packages) detections).2 !! j' =
            Some (setDetStatus duplicate e)).
  { intros j' e Hlt Hj' Hre Hke.
    destruct (matchLoop_at (initialState packages) _ _ _ Hj') as (Ho' & _ & _).
    rewrite Ho'. f_equal. rewrite processDetection_duplicate; [done | done|].
    assert (Hjt : take j' detections !! j = Some d) by (by rewrite lookup_take_lt).
    destruct (matchLoop_at (initialState packages) _ _ _ Hjt) as (_ & _ & Hr3).
    rewrite take_take in Hr3. replace (j `min` j')%nat with j in Hr3 by lia.
    fold stj in Hr3. rewrite (processDetection_matched _ _ _ _ Hr Hnk Hm) in Hr3.
    apply (reaches_mono _ _ Hr3). simpl. rewrite Hke. set_solver. }
  unfold matchDetections.
  destruct (matchLoop (initialState packages) detections) as [stf out].
  simpl in *. split; [done|]. split; [|done].
  apply matchingPackages_single in Hm as (Hi & _).
  assert (H1 : <[i:=setPkgStatus found p]> (st_packages stj) !! i
               = Some (setPkgStatus found p))
    by (apply list_lookup_insert_eq; by eapply lookup_lt_Some).
  destruct (reaches_lookup _ _ _ _ Hr2 H1) as (p' & Hp' & Hd & Hs).
  simpl in Hp'. rewrite Hp', (samePackageData_eq _ _ Hd).
  destruct Hs as [-> | [E _]]; [by destruct p | done].
Qed.
Lemma reaches_keys st st' :
  reaches st st' -> pkgKey <$> st_packages st' = pkgKey <$> st_packages st.
Proof.
  intros H. pose proof (reaches_pairs _ _ H) as E.
  apply (f_equal (fmap (fun pr : jsstring * jsstring => comboKey pr.1 pr.2))) in E.
  rewrite <- !list_fmap_compose in E. exact E.
Qed.

(** A readable detection whose key is the key of no package is an orphan,
    wherever it stands among the detections: it gets the status and the
    note, and no package changes on its account. *)
Theorem unknown_key_is_orphan
  (packages : list Package) (detections : list Detection) (j : nat)
  (d : Detection) :
  detections !! j = Some d ->
  readable d = true ->
  (forall q, q ∈ packages -> pkgKey q <> detKey d) ->
  updatedDetections (matchDetections packages detections) !! j =
  Some (setNotes (appendNote d noteOrphan) (setDetStatus orphan d)).
Proof.
  intros Hj Hr Hnone.
  destruct (matchLoop_at (initialState packages) _ _ _ Hj) as (Ho & Hr1 & _).
  set (stj := (matchLoop (initialState packages) (take j detections)).1) in *.
  assert (Hkeys : forall q, q ∈ st_packages stj -> pkgKey q <> detKey d).
  { intros q Hq E. pose proof (reaches_keys _ _ Hr1) as Ek. simpl in Ek.
    assert (Hin : pkgKey q ∈ pkgKey <$> packages).
    { rewrite <- Ek. apply list_elem_of_fmap. by exists q. }
    apply list_elem_of_fmap in Hin as (q0 & E0 & Hq0).
    apply (Hnone q0 Hq0). congruence. }
  pose proof (processDetection_Step stj d) as Hs.
  unfold matchDetections.
  destruct (matchLoop (initialState packages) detections) as [stf out].
  simpl in *. rewrite Ho. f_equal.
  destruct (processDetection stj d) as [s1 d1]. simpl in *.
  destruct Hs as [Hr'|Hr' Hk|i pkg Hr' Hk Hm|Hr' Hk Hl|Hr' Hk Hm]; try done.
  - congruence.
  - exfalso.
    apply (reaches_claimedInv _ _ Hr1 (initialState_claimedInv packages)) in Hk
      as (q & Hq & _ & Hkey). by apply (Hkeys q).
  - exfalso. apply matchingPackages_single in Hm as (Hi & Ha & Hl & _).
    apply (Hkeys pkg); [by eapply list_elem_of_lookup_2|].
    unfold pkgKey, detKey. by rewrite Ha, Hl.
  - exfalso.
    destruct (matchingPackages (detApartment d) (detLast4 d) (st_packages stj))
      as [|[i pkg] rest] eqn:Hm; [simpl in Hl; lia|].
    assert (Hin : (i, pkg) ∈ matchingPackages (detApartment d) (detLast4 d)
                                 (st_packages stj)) by (rewrite Hm; left).
    apply matchingPackages_spec in Hin as [Hi Him].
    apply isMatch_true in Him as (Ha & Hl' & _).
    apply (Hkeys pkg); [by eapply list_elem_of_lookup_2|].
    unfold pkgKey, detKey. by rewrite Ha, Hl'.
Qed.

End Classification.

(** ** The session *)

Section SessionProps.

Implicit Types (state current : SessionState) (d : Detection)
  (ds : list Detection).

(** *** Detections looked up by identifier *)

Lemma find_by_id ds k e :
  NoDup (det_id <$> ds) -> ds !! k = Some e ->
  List.find (fun x => bool_decide (det_id x = det_id e)) ds = Some e.
Proof.
  revert k. induction ds as [|x ds IH]; intros k Hnd Hk; [done|].
  rewrite fmap_cons in Hnd. apply NoDup_cons in Hnd as [Hx Hnd].
  destruct k as [|k]; simpl in *.
  - injection Hk as ->. by rewrite bool_decide_eq_true_2.
  - rewrite bool_decide_eq_false_2; [by eapply IH|].
    intros E. apply Hx. rewrite E. apply list_elem_of_fmap. exists e.
    split; [done | by eapply list_elem_of_lookup_2].
Qed.

Lemma updatedOr_lookup ds out k d e :
  NoDup (det_id <$> ds) -> Forall2 sameDetectionData ds out ->
  ds !! k = Some d -> out !! k = Some e -> updatedOr out d = e.
Proof.
  intros Hnd Hsame Hd He. unfold updatedOr.
  assert (Hids : det_id <$> out = det_id <$> ds).
  { clear -Hsame. induction Hsame as [|a b l1 l2 Hab _ IH]; [done|].
    rewrite !fmap_cons, IH. f_equal. symmetry. apply Hab. }
  assert (Eid : det_id d = det_id e).
  { pose proof (Forall2_lookup_lr _ _ _ _ _ _ Hsame Hd He) as H. apply H. }
  rewrite Eid, (find_by_id out k e); [done | by rewrite Hids | done].
Qed.

Lemma updatedOr_drop ds out n :
  NoDup (det_id <$> ds) -> Forall2 sameDetectionData ds out ->
  map (updatedOr out) (drop n ds) = drop n out.
Proof.
  intros Hnd Hsame. apply list_eq. intros k.
  rewrite list_lookup_fmap, !lookup_drop.
  destruct (ds !! (n + k)%nat) as [d|] eqn:Hd; simpl.
  - destruct (Forall2_lookup_l _ _ _ _ _ Hsame Hd) as (e & He & _).
    rewrite He. f_equal. by eapply updatedOr_lookup.
  - symmetry. apply lookup_ge_None. rewrite <- (Forall2_length _ _ _ Hsame).
    by apply lookup_ge_None.
Qed.

(** *** A photo answered by the service *)

Lemma updatedOr_absent out d :
  det_id d ∉ det_id <$> out -> updatedOr out d = d.
Proof.
  unfold updatedOr. induction out as [|x out IH]; intros Hn; [done|].
  rewrite fmap_cons in Hn. apply not_elem_of_cons in Hn as [Hx Hn]. simpl.
  rewrite bool_decide_eq_false_2 by done. by apply IH.
Qed.

Lemma processPhoto_photo_at uuidv4 now state current photoId aiResponse k photo :
  let new := imap (fun index det => toDetection photoId (uuidv4 index) det)
                  aiResponse in
  let r := matchDetections (ss_packages state) (ss_detections state ++ new) in
  NoDup (det_id <$> ss_detections state ++ new) ->
  ss_photos current !! k = Some photo ->
  photo_id photo = photoId ->
  ss_photos (processPhoto uuidv4 now state current photoId aiResponse) !! k =
  Some (mkPhoto (photo_id photo) (dataUrl photo) (capturedAt photo) true
                (drop (length (ss_detections state)) (updatedDetections r))).
Proof.
  intros new r Hnd Hk Hid. unfold processPhoto. fold new. fold r.
  cbn [sessionReducer withPhotos withDetections withPackages ss_packages
       ss_detections ss_photos].
  rewrite !list_lookup_fmap, Hk. cbn [fmap option_fmap option_map].
  rewrite bool_decide_eq_true_2 by done.
  unfold withPhotoDetections. cbn [photo_id dataUrl capturedAt processed photo_detections].
  do 2 f_equal.
  pose proof (proj2 (matchDetections_same_data (ss_packages state)
                       (ss_detections state ++ new))) as Hsame. fold r in Hsame.
  pose proof (updatedOr_drop _ _ (length (ss_detections state)) Hnd Hsame) as E.
  rewrite drop_app_length in E. exact E.
Qed.

(** When the identifiers in use are pairwise different, [processPhoto]
    leaves the session as follows. The packages and the flat list of
    detections are those returned by [matchDetections] for the packages and
    the detections the callback closed over, followed by the new ones: the
    flat list grows by the number of elements of the response, whatever the
    reducer held. Every photo with the given identifier is marked as
    processed and holds the new detections as they were classified, which
    are the last elements of the flat list. *)
Theorem processPhoto_result
  (uuidv4 : nat -> jsstring) (now : nat -> nat -> N)
  (state current : SessionState) (photoId : jsstring)
  (aiResponse : list AIDetection) :
  let new := imap (fun index det => toDetection photoId (uuidv4 index) det)
                  aiResponse in
  let r := matchDetections (ss_packages state) (ss_detections state ++ new) in
  let s' := processPhoto uuidv4 now state current photoId aiResponse in
  NoDup (det_id <$> ss_detections state ++ new) ->
  ss_packages s' = updatedPackages r /\
  ss_detections s' = updatedDetections r /\
  length (ss_detections s') =
    (length (ss_detections state) + length aiResponse)%nat /\
  length (ss_photos s') = length (ss_photos current) /\
  forall k photo, ss_photos current !! k = Some photo ->
    photo_id photo = photoId ->
    ss_photos s' !! k =
    Some (mkPhoto (photo_id photo) (dataUrl photo) (capturedAt photo) true
                  (drop (length (ss_detections state)) (updatedDetections r))).
Proof.
  intros new r s' Hnd. subst s'. unfold processPhoto. fold new. fold r.
  cbn [sessionReducer withPhotos withDetections withPackages ss_packages
       ss_detections ss_photos].
  split; [done|]. split; [done|].
  pose proof (matchDetections_length (ss_packages state) (ss_detections state ++ new))
    as [_ Hlen]. fold r in Hlen.
  split. { rewrite Hlen, length_app. unfold new. by rewrite length_imap. }
  split. { by rewrite !length_map. }
  intros k photo Hk Hid.
  exact (processPhoto_photo_at uuidv4 now state current photoId aiResponse
           k photo Hnd Hk Hid).
Qed.

Lemma processPhoto_detections uuidv4 now state current photoId aiResponse :
  ss_detections (processPhoto uuidv4 now state current photoId aiResponse) =
  updatedDetections
    (matchDetections (ss_packages state)
       (ss_detections state ++
        imap (fun index det => toDetection photoId (uuidv4 index) det) aiResponse)).
Proof. done. Qed.

Lemma processPhoto_packages uuidv4 now state current photoId aiResponse :
  ss_packages (processPhoto uuidv4 now state current photoId aiResponse) =
  updatedPackages
    (matchDetections (ss_packages state)
       (ss_detections state ++
        imap (fun index det => toDetection photoId (uuidv4 index) det) aiResponse)).
Proof. done. Qed.

(** Two photos, one after the other. Every detection that the first photo
    left matched is a duplicate once the second photo is processed, whatever
    the second photo shows: the second run of [matchDetections] receives all
    the detections of the session and finds the package of each matched one
    claimed. Its place in the flat list and its other fields, matchedPackageId
    included, stay. *)
Theorem second_photo_turns_matched_into_duplicate
  (uuid1 uuid2 : nat -> jsstring) (now1 now2 : nat -> nat -> N)
  (state : SessionState) (photoA photoB : jsstring)
  (responseA responseB : list AIDetection) (j : nat) (d : Detection) :
  let s1 := processPhoto uuid1 now1 state state photoA responseA in
  let s2 := processPhoto uuid2 now2 s1 s1 photoB responseB in
  ss_detections s1 !! j = Some d -> det_status d = matched ->
  ss_detections s2 !! j = Some (setDetStatus duplicate d).
Proof.
  intros s1 s2 Hj Hm. subst s2. rewrite processPhoto_detections.
  pose proof Hj as Hj1. subst s1. rewrite processPhoto_detections in Hj1.
  destruct (matched_names_found _ _ _ _ Hj1 Hm)
    as (i & p0 & _ & _ & Hf & _ & Ha & Hl).
  rewrite <- processPhoto_packages with (now := now1) (current := state) in Hf.
  apply (claimed_is_duplicate _ _ j d (setPkgStatus found p0)).
  - by rewrite lookup_app_l by (by eapply lookup_lt_Some).
  - by eapply list_elem_of_lookup_2.
  - by left.
  - by eapply matched_is_readable.
  - done.
  - done.
Qed.

(** *** Corrections *)

Lemma handleSave_detections uuidv4 now state detection apartment tracking notesText :
  ss_detections (handleSave uuidv4 now state detection apartment tracking notesText) =
  updatedDetections
    (matchDetections (ss_packages state)
       (map (fun d => if bool_decide (det_id d = det_id detection)
                      then savedDetection detection apartment tracking notesText
                      else d) (ss_detections state))).
Proof. done. Qed.

Lemma handleSave_packages uuidv4 now state detection apartment tracking notesText :
  ss_packages (handleSave uuidv4 now state detection apartment tracking notesText) =
  updatedPackages
    (matchDetections (ss_packages state)
       (map (fun d => if bool_decide (det_id d = det_id detection)
                      then savedDetection detection apartment tracking notesText
                      else d) (ss_detections state))).
Proof. done. Qed.

(** Saving a correction with the apartment or the tracking field blank
    makes the detection unreadable, with both readings as saved ([null] for
    a blank one). Its matchedPackageId stays, and no package of the session
    goes back to pending: a package that was not pending is as it was. *)
Theorem handleSave_blank_field
  (uuidv4 : nat -> jsstring) (now : nat -> nat -> N) (state : SessionState)
  (detection : Detection) (apartment tracking notesText : jsstring) (j : nat) :
  let s' := handleSave uuidv4 now state detection apartment tracking notesText in
  ss_detections state !! j = Some detection ->
  trim apartment = [] \/ trim tracking = [] ->
  ss_detections s' !! j =
    Some (setDetStatus unreadable
            (savedDetection detection apartment tracking notesText)) /\
  forall i p, ss_packages state !! i = Some p -> pkg_status p <> pending ->
              ss_packages s' !! i = Some p.
Proof.
  intros s' Hj Hblank. subst s'. split.
  - rewrite handleSave_detections.
    set (saved := savedDetection detection apartment tracking notesText).
    set (all := map _ (ss_detections state)).
    assert (Hall : all !! j = Some saved).
    { unfold all. rewrite list_lookup_fmap, Hj. simpl.
      by rewrite bool_decide_eq_true_2. }
    destruct (matchLoop_at (initialState (ss_packages state)) _ _ _ Hall) as (Ho & _).
    unfold matchDetections.
    destruct (matchLoop (initialState (ss_packages state)) all) as [stf out].
    simpl in *. rewrite Ho. f_equal.
    unfold processDetection. unfold saved at 1 2. unfold savedDetection at 1 2.
    cbn [parsedApartment parsedLast4].
    destruct Hblank as [-> | ->]; simpl; [done|].
    by destruct (truthy (orNull (trim apartment))).
  - intros i p Hi Hp. rewrite handleSave_packages.
    destruct (matchDetections_package (ss_packages state)
                (map (fun d => if bool_decide (det_id d = det_id detection)
                               then savedDetection detection apartment tracking notesText
                               else d) (ss_detections state)) i p Hi)
      as [E | [E _]]; done.
Qed.

(** *** Verdicts and the review queue *)

Lemma replaceDetection_in detection d ds :
  d ∈ ds -> det_id d = det_id detection ->
  detection ∈ map (replaceDetection detection) ds.
Proof.
  intros Hd Hid. apply list_elem_of_fmap. exists d. split; [|done].
  unfold replaceDetection. by rewrite bool_decide_eq_true_2.
Qed.

Lemma confirmedCorrect_not_low d : lowConfidence (confirmedCorrect d) = false.
Proof. done. Qed.

(** The two verdicts of the review card and the review queue. A detection
    marked as an error is unreadable and stays in the queue. A detection
    confirmed as correct has confidence one; it leaves the queue exactly when
    it is matched or duplicate, so confirming an orphan, an ambiguous or an
    unreadable detection keeps it in the queue. Neither verdict touches a
    package. *)
Theorem verdicts_and_review_queue
  (uuidv4 : nat -> jsstring) (now : nat -> N) (state : SessionState)
  (detection : Detection) :
  detection ∈ ss_detections state ->
  let s1 := handleMarkAsError uuidv4 now state detection in
  let s2 := handleConfirmCorrect uuidv4 now state detection in
  markedAsError detection ∈ flaggedDetections s1 /\
  (confirmedCorrect detection ∈ flaggedDetections s2 <->
   det_status detection = orphan \/ det_status detection = ambiguous \/
   det_status detection = unreadable) /\
  ss_packages s1 = ss_packages state /\ ss_packages s2 = ss_packages state.
Proof.
  intros Hin s1 s2. subst s1 s2.
  unfold flaggedDetections, handleMarkAsError, handleConfirmCorrect.
  cbn [sessionReducer withPhotos withDetections ss_detections ss_packages].
  split; [|split; [|done]].
  - apply list_elem_of_In, filter_In. split.
    + apply list_elem_of_In, (replaceDetection_in _ detection); done.
    + simpl. by rewrite !orb_true_r.
  - rewrite list_elem_of_In, filter_In, confirmedCorrect_not_low. simpl.
    rewrite !orb_true_iff, !bool_decide_eq_true. split.
    + intros [_ [[H | H] | H]]; auto.
    + intros H. split; [|tauto].
      apply list_elem_of_In, (replaceDetection_in _ detection); done.
Qed.

(** *** Deleting a photo *)

Lemma toDetection_fields photoId id det :
  det_id (toDetection photoId id det) = id /\
  parsedApartment (toDetection photoId id det) = ai_apartment det /\
  parsedLast4 (toDetection photoId id det) = ai_tracking_last4 det.
Proof.
  unfold toDetection. by destruct (ai_bounding_box det) as [[[? ?] ?] ?].
Qed.

(** Deleting a photo removes the photo and its detections and leaves the
    packages as they are: those its detections had found stay found. A later
    photo that shows the sticker of a package that is found or verified gets
    a duplicate for it, not a match. *)
Theorem deleted_photo_keeps_its_packages
  (uuid1 uuid2 : nat -> jsstring) (now1 : nat -> N) (now2 : nat -> nat -> N)
  (state : SessionState) (deleted photoB : jsstring)
  (aiResponse : list AIDetection) (p : Package) (k : nat) (det : AIDetection) :
  let s1 := sessionReducer uuid1 now1 state (DELETE_PHOTO deleted) in
  let s2 := processPhoto uuid2 now2 s1 s1 photoB aiResponse in
  p ∈ ss_packages state ->
  pkg_status p = found \/ pkg_status p = verified ->
  apartment p <> [] -> trackingLast4 p <> [] ->
  aiResponse !! k = Some det ->
  ai_apartment det = Some (apartment p) ->
  ai_tracking_last4 det = Some (trackingLast4 p) ->
  ss_packages s1 = ss_packages state /\
  Forall (fun d => photoId d <> deleted) (ss_detections s1) /\
  Forall (fun photo => photo_id photo <> deleted) (ss_photos s1) /\
  ss_detections s2 !! (length (ss_detections s1) + k)%nat =
    Some (setDetStatus duplicate (toDetection photoB (uuid2 k) det)).
Proof.
  intros s1 s2 Hp Hst Ha Hl Hk Eda Edl.
  split; [done|]. split; [|split].
  - apply Forall_forall. intros d Hd. apply list_elem_of_In, filter_In in Hd as [_ Hd].
    apply negb_true_iff, bool_decide_eq_false in Hd. done.
  - apply Forall_forall. intros ph Hd. apply list_elem_of_In, filter_In in Hd as [_ Hd].
    apply negb_true_iff, bool_decide_eq_false in Hd. done.
  - subst s2. rewrite processPhoto_detections.
    destruct (toDetection_fields photoB (uuid2 k) det) as (_ & Ea & El).
    apply (claimed_is_duplicate _ _ _ _ p); try done.
    + rewrite lookup_app_r by lia.
      replace (length (ss_detections s1) + k - length (ss_detections s1))%nat
        with k by lia.
      by rewrite list_lookup_imap, Hk.
    + unfold readable. rewrite Ea, El, Eda, Edl.
      destruct (apartment p); [done|]. by destruct (trackingLast4 p).
    + by rewrite Ea.
    + by rewrite El.
Qed.

End SessionProps.

(** ** Import and export *)

Section ImportAndExport.

(** *** The preview and the import *)

(** Two runs of the parser over the same lines, with two sources of
    identifiers and two clocks. *)
Lemma forEachLine_environment u1 n1 u2 n2 (st1 st2 : ParseState) index lines :
  Forall2 sameListing (acc_packages st1) (acc_packages st2) ->
  acc_errors st1 = acc_errors st2 -> seenCombos st1 = seenCombos st2 ->
  Forall2 sameListing (acc_packages (forEachLine u1 n1 st1 index lines))
                      (acc_packages (forEachLine u2 n2 st2 index lines)) /\
  acc_errors (forEachLine u1 n1 st1 index lines) =
  acc_errors (forEachLine u2 n2 st2 index lines).
Proof.
  revert st1 st2 index. induction lines as [|ln lines IH];
    intros st1 st2 index Hp He Hs; [done|].
  simpl. apply IH; unfold processLine;
    destruct (trim ln) as [|c t]; try done;
    destruct (extractLine (c :: t)) as [[why|e]|message]; simpl;
    rewrite ?He, ?Hs; try done;
    destruct (bool_decide _); simpl; rewrite ?He, ?Hs; try done.
  apply Forall2_app; [done|]. repeat constructor.
Qed.

(** The import takes what the preview showed. Parsing the text again gives
    the same errors and packages with the same fields, which differ from
    those of the preview in their identifiers and times only. The packages
    replace those of the session; its photos and detections stay. *)
Theorem import_is_what_the_preview_showed
  (u1 u2 : nat -> jsstring) (n1 n2 clock : nat -> N) (state : SessionState)
  (rawText : jsstring) :
  let preview := parsePackageList u1 n1 rawText in
  let s' := handleConfirmImport u2 n2 clock state rawText in
  Forall2 sameListing (packages preview) (ss_packages s') /\
  errors (parsePackageList u2 n2 rawText) = errors preview /\
  ss_photos s' = ss_photos state /\ ss_detections s' = ss_detections state.
Proof.
  intros preview s'. subst preview s'.
  unfold handleConfirmImport, parsePackageList, parseLines.
  cbn [sessionReducer withPackages ss_packages ss_photos ss_detections
       packages errors].
  destruct (forEachLine_environment u1 n1 u2 n2 (mkParseState [] [] ∅)
              (mkParseState [] [] ∅) 0 (splitChar NEWLINE rawText))
    as [H1 H2]; try done.
Qed.

(** *** The text offered for download *)

Lemma filter_filter_status (s : PackageStatus) (f : Package -> bool) ps :
  (forall p, pkg_status p = s -> f p = true) ->
  List.filter (fun p => bool_decide (pkg_status p = s)) (List.filter f ps) =
  List.filter (fun p => bool_decide (pkg_status p = s)) ps.
Proof.
  intros Hf. induction ps as [|p ps IH]; [done|]. simpl.
  destruct (f p) eqn:E; simpl.
  - by rewrite IH.
  - rewrite IH. case_bool_decide as Hs; [|done]. by rewrite (Hf p Hs) in E.
Qed.

Lemma filter_length_stdpp {A} (P : A -> Prop) `{!forall x, Decision (P x)}
  (l : list A) :
  length (List.filter (fun x => bool_decide (P x)) l) = length (filter P l).
Proof.
  induction l as [|x l IH]; [done|]. simpl. rewrite filter_cons.
  destruct (decide (P x)).
  - rewrite bool_decide_eq_true_2 by done. simpl. by rewrite IH.
  - by rewrite bool_decide_eq_false_2 by done.
Qed.

Lemma remaining_split ps :
  length (List.filter (fun p => bool_decide (pkg_status p = pending)
                                || bool_decide (pkg_status p = not_found)) ps) =
  (length (List.filter (fun p => bool_decide (pkg_status p = pending)) ps) +
   length (List.filter (fun p => bool_decide (pkg_status p = not_found)) ps))%nat.
Proof.
  induction ps as [|p ps IH]; [done|]. simpl.
  destruct (pkg_status p); simpl; lia.
Qed.

(** The text of [handleExport]. When no package is pending or not found,
    it is the sentence that says so. Otherwise it is the header with the
    total, the section of the pending packages and the section of those not
    found, each in the order of the session and with the count that the
    summary shows for its status; the two counts add up to the total, so
    every package counted is listed once. *)
Theorem handleExport_text (generated : jsstring) (state : SessionState) :
  let pend := List.filter (fun p => bool_decide (pkg_status p = pending))
                          (ss_packages state) in
  let nf := List.filter (fun p => bool_decide (pkg_status p = not_found))
                        (ss_packages state) in
  length pend = stats_pending (stats (ss_packages state)) /\
  length nf = stats_notFound (stats (ss_packages state)) /\
  match pend ++ nf with
  | [] => handleExport generated state = noRemaining
  | _ :: _ =>
      handleExport generated state =
      joinLines
        ([js "=== REMAINING PACKAGES ===";
          js "Generated: " ++ generated;
          js "Total: " ++ decimal (length pend + length nf);
          [];
          js "---";
          []] ++
         exportSection titlePending pend ++ exportSection titleNotFound nf)
  end.
Proof.
  intros pend nf. split; [apply (filter_length_stdpp (fun p => pkg_status p = pending))|].
  split; [apply (filter_length_stdpp (fun p => pkg_status p = not_found))|].
  unfold handleExport, exportRemainingPackages.
  pose proof (remaining_split (ss_packages state)) as Hlen.
  fold pend nf in Hlen.
  set (rem := List.filter (fun p => bool_decide (pkg_status p = pending)
                                      || bool_decide (pkg_status p = not_found))
                          (ss_packages state)) in *.
  assert (Epend : List.filter (fun p => bool_decide (pkg_status p = pending)) rem = pend).
  { apply filter_filter_status. intros p ->. done. }
  assert (Enf : List.filter (fun p => bool_decide (pkg_status p = not_found)) rem = nf).
  { apply filter_filter_status. intros p ->. reflexivity. }
  destruct rem as [|r0 rem'] eqn:Er.
  - simpl in Hlen. destruct pend; [|simpl in Hlen; lia].
    destruct nf; [simpl; done | simpl in Hlen; lia].
  - rewrite <- Er in *. unfold exportLines. rewrite Epend, Enf, Hlen.
    destruct (pend ++ nf) eqn:E; [|done].
    apply app_eq_nil in E as [E1 E2]. rewrite E1, E2, Er in Hlen. simpl in Hlen. lia.
Qed.

End ImportAndExport.

(** ** The session, step by step *)

Section SessionInvariant.

Implicit Types (s : SessionState) (d : Detection) (ds : list Detection).

Lemma sameDetectionData_ids ds out :
  Forall2 sameDetectionData ds out -> det_id <$> out = det_id <$> ds.
Proof.
  induction 1 as [|a b l1 l2 Hab _ IH]; [done|].
  rewrite !fmap_cons, IH. f_equal. symmetry. apply Hab.
Qed.

Lemma replaceDetection_ids x ds :
  det_id <$> map (replaceDetection x) ds = det_id <$> ds.
Proof.
  induction ds as [|d ds IH]; [done|]. cbn [map]. rewrite !fmap_cons.
  f_equal; [|exact IH]. unfold replaceDetection. by case_bool_decide.
Qed.

Lemma NoDup_ids_eq ds a b :
  NoDup (det_id <$> ds) -> a ∈ ds -> b ∈ ds -> det_id a = det_id b -> a = b.
Proof.
  intros Hnd Ha Hb E.
  apply list_elem_of_lookup in Ha as [i Hi]. apply list_elem_of_lookup in Hb as [j Hj].
  pose proof (NoDup_fmap_lookup det_id ds i j a b Hnd Hi Hj E) as <-. congruence.
Qed.

(** The photos after [UPDATE_PACKAGES_AND_DETECTIONS] with the result of
    [matchDetections] over a list that holds the detections of the photos. *)
Lemma updated_photos_inv (packages : list Package) (all : list Detection)
  (photos : list Photo) photo' d' :
  NoDup (det_id <$> all) ->
  (forall photo d, photo ∈ photos -> d ∈ photo_detections photo ->
                   d ∈ all /\ photoId d = photo_id photo) ->
  photo' ∈ map (fun photo =>
                  withPhotoDetections
                    (map (updatedOr (updatedDetections (matchDetections packages all)))
                         (photo_detections photo)) photo) photos ->
  d' ∈ photo_detections photo' ->
  d' ∈ updatedDetections (matchDetections packages all) /\
  photoId d' = photo_id photo'.
Proof.
  intros Hnd Hinv Hp Hd.
  apply list_elem_of_fmap in Hp as (photo & -> & Hphoto). simpl in Hd.
  apply list_elem_of_fmap in Hd as (d0 & -> & Hd0).
  destruct (Hinv photo d0 Hphoto Hd0) as [Hall Hpid].
  apply list_elem_of_lookup in Hall as [k Hk].
  pose proof (proj2 (matchDetections_same_data packages all)) as Hsame.
  destruct (Forall2_lookup_l _ _ _ _ _ Hsame Hk) as (e & He & Hde).
  rewrite (updatedOr_lookup all _ k d0 e Hnd Hsame Hk He).
  split; [by eapply list_elem_of_lookup_2|]. simpl.
  destruct Hde as (_ & <- & _). done.
Qed.

Lemma sessionInv_update (s : SessionState) u now x detection :
  sessionInv s -> detection ∈ ss_detections s ->
  det_id x = det_id detection -> photoId x = photoId detection ->
  sessionInv (sessionReducer u now s (UPDATE_DETECTION x)).
Proof.
  intros [Hnd Hinv] Hin Eid Epid. split.
  - cbn [sessionReducer withPhotos withDetections ss_detections].
    by rewrite replaceDetection_ids.
  - cbn [sessionReducer withPhotos withDetections ss_detections ss_photos].
    intros photo' d' Hp Hd.
    apply list_elem_of_fmap in Hp as (photo & -> & Hphoto). simpl in Hd.
    apply list_elem_of_fmap in Hd as (d0 & -> & Hd0).
    destruct (Hinv photo d0 Hphoto Hd0) as [Hall Hpid]. split.
    + apply list_elem_of_fmap. by exists d0.
    + simpl. unfold replaceDetection. case_bool_decide as E; [|done].
      rewrite Epid, <- Hpid. f_equal. symmetry.
      apply (NoDup_ids_eq (ss_detections s)); try done. congruence.
Qed.

Lemma toDetection_photoId pid id det : photoId (toDetection pid id det) = pid.
Proof. unfold toDetection. by destruct (ai_bounding_box det) as [[[? ?] ?] ?]. Qed.

Lemma imap_ids u pid (aiResponse : list AIDetection) :
  det_id <$> imap (fun index det => toDetection pid (u index) det) aiResponse =
  u <$> seq 0 (length aiResponse).
Proof.
  apply list_eq. intros k. rewrite !list_lookup_fmap, list_lookup_imap.
  destruct (aiResponse !! k) as [det|] eqn:E; simpl.
  - rewrite lookup_seq_lt by (by eapply lookup_lt_Some). simpl.
    f_equal. apply toDetection_fields.
  - rewrite lookup_seq_ge; [done|]. by apply lookup_ge_None.
Qed.

(** *** The states of a run *)

Implicit Types (known : list SessionState).

Lemma sourced_same known pid a b :
  runInv known -> sourced known pid a -> sourced known pid b ->
  det_id a = det_id b -> photoId a = photoId b.
Proof.
  intros [_ H3] [(s1 & d1 & Hs1 & Hd1 & Ei1 & Ep1) | [Ep1 Hn1]]
                [(s2 & d2 & Hs2 & Hd2 & Ei2 & Ep2) | [Ep2 Hn2]] E.
  - rewrite <- Ep1, <- Ep2. apply (H3 s1 s2); try done. congruence.
  - exfalso. apply (Hn2 s1 d1 Hs1 Hd1). congruence.
  - exfalso. apply (Hn1 s2 d2 Hs2 Hd2). congruence.
  - congruence.
Qed.

Lemma sourced_data known pid a b :
  det_id a = det_id b -> photoId a = photoId b ->
  sourced known pid a -> sourced known pid b.
Proof.
  intros Ei Ep [(s1 & d1 & Hs1 & Hd1 & Ei1 & Ep1) | [Ep1 Hn1]].
  - left. exists s1, d1. repeat split; try done; congruence.
  - right. split; [congruence|]. intros s d Hs Hd. rewrite <- Ei. exact (Hn1 s d Hs Hd).
Qed.

Lemma sourced_held known pid s d :
  s ∈ known -> holds s d -> sourced known pid d.
Proof. intros Hs Hd. left. by exists s, d. Qed.

Lemma sourcedState_known known pid s :
  runInv known -> s ∈ known -> sourcedState known pid s.
Proof.
  intros [H1 _] Hs. split.
  - intros d Hd. apply (sourced_held _ _ s); [done | by left].
  - intros photo d Hp Hd. split.
    + apply (sourced_held _ _ s); [done|]. right. by exists photo.
    + by apply (H1 s Hs).
Qed.

Lemma runInv_extend known pid s' :
  runInv known -> sourcedState known pid s' ->
  NoDup (det_id <$> ss_detections s') -> runInv (s' :: known).
Proof.
  intros Hinv [Hflat Hphotos] Hnd. pose proof Hinv as [H1 H3].
  assert (Hsrc : forall d, holds s' d -> sourced known pid d).
  { intros d [Hd | (photo & Hp & Hd)]; [by apply Hflat|]. by apply (Hphotos photo). }
  assert (Hold : forall s d, s ∈ known -> holds s d -> sourced known pid d)
    by (intros s d; apply sourced_held).
  split.
  - intros s Hs. apply elem_of_cons in Hs as [-> | Hs]; [|by apply H1].
    split; [done|]. intros photo d Hp Hd. by apply (Hphotos photo).
  - intros s1 s2 d1 d2 Hs1 Hs2 Hd1 Hd2 E.
    apply (sourced_same known pid); try done.
    + apply elem_of_cons in Hs1 as [-> | Hs1]; [by apply Hsrc | by apply (Hold s1)].
    + apply elem_of_cons in Hs2 as [-> | Hs2]; [by apply Hsrc | by apply (Hold s2)].
Qed.

Lemma updatedOr_cases out d :
  updatedOr out d = d \/
  (updatedOr out d ∈ out /\ det_id (updatedOr out d) = det_id d).
Proof.
  unfold updatedOr.
  destruct (List.find _ out) as [e|] eqn:E; [|by left]. right. simpl.
  apply find_some in E as [Hin He]. apply bool_decide_eq_true in He.
  split; [by apply list_elem_of_In | done].
Qed.

Lemma sourcedState_update known pid s u now x detection :
  runInv known -> s ∈ known -> detection ∈ ss_detections s ->
  det_id x = det_id detection -> photoId x = photoId detection ->
  sourcedState known pid (sessionReducer u now s (UPDATE_DETECTION x)).
Proof.
  intros Hinv Hs Hin Ei Ep. pose proof Hinv as [H1 H3].
  assert (Hx : sourced known pid x).
  { left. exists s, detection. repeat split; try done. by left. }
  cbn [sessionReducer withPhotos withDetections ss_detections ss_photos]. split.
  - intros d' Hd. apply list_elem_of_fmap in Hd as (d & -> & Hd).
    unfold replaceDetection. case_bool_decide; [done|].
    apply (sourced_held _ _ s); [done | by left].
  - intros photo' d' Hp Hd.
    apply list_elem_of_fmap in Hp as (photo & -> & Hp). simpl in Hd.
    apply list_elem_of_fmap in Hd as (d & -> & Hd). simpl.
    assert (Hh : holds s d) by (right; by exists photo).
    pose proof (proj2 (H1 s Hs) photo d Hp Hd) as Hname.
    unfold replaceDetection. case_bool_decide as E.
    + split; [done|]. rewrite <- Hname, Ep. symmetry.
      apply (H3 s s); try done; [by left | congruence].
    + split; [by apply (sourced_held _ _ s) | done].
Qed.

Lemma sourcedState_replace known pid s1 u now (pk : list Package) out :
  runInv known -> sourcedState known pid s1 ->
  (forall e, e ∈ out -> sourced known pid e) ->
  sourcedState known pid
    (sessionReducer u now s1 (UPDATE_PACKAGES_AND_DETECTIONS pk out)).
Proof.
  intros Hinv [Hflat Hphotos] Hout.
  cbn [sessionReducer withPhotos withDetections withPackages ss_detections
       ss_photos]. split; [done|].
  intros photo' d' Hp Hd.
  apply list_elem_of_fmap in Hp as (photo & -> & Hp). simpl in Hd.
  apply list_elem_of_fmap in Hd as (d & -> & Hd). simpl.
  destruct (Hphotos photo d Hp Hd) as [Hsrc Hname].
  destruct (updatedOr_cases out d) as [-> | [Hin E]]; [done|].
  split; [by apply Hout|]. rewrite <- Hname.
  apply (sourced_same known pid); [done | by apply Hout | done | done].
Qed.

Lemma sourced_matchDetections known pid (pk : list Package) ds e :
  (forall d, d ∈ ds -> sourced known pid d) ->
  e ∈ updatedDetections (matchDetections pk ds) -> sourced known pid e.
Proof.
  intros Hds He. apply list_elem_of_lookup in He as [k Hk].
  pose proof (proj2 (matchDetections_same_data pk ds)) as Hsame.
  destruct (Forall2_lookup_r _ _ _ _ _ Hsame Hk) as (d & Hd & Hde).
  apply (sourced_data known pid d); [apply Hde | apply Hde|].
  apply Hds. by eapply list_elem_of_lookup_2.
Qed.

Lemma new_unseen known u pid (aiResponse : list AIDetection) d :
  freshIds u (length aiResponse) known ->
  d ∈ imap (fun index det => toDetection pid (u index) det) aiResponse ->
  unseen known pid d.
Proof.
  intros [_ Hfresh] Hd. apply list_elem_of_lookup in Hd as [k Hk].
  rewrite list_lookup_imap in Hk.
  destruct (aiResponse !! k) as [det|] eqn:E; [|done]. simpl in Hk.
  injection Hk as <-. split; [apply toDetection_photoId|].
  intros s d Hs Hd. rewrite (proj1 (toDetection_fields pid (u k) det)).
  apply (Hfresh k s d); [by eapply lookup_lt_Some | done | done].
Qed.

Lemma filter_ids_NoDup (f : Detection -> bool) ds :
  NoDup (det_id <$> ds) -> NoDup (det_id <$> List.filter f ds).
Proof.
  induction ds as [|d ds IH]; [done|]. rewrite fmap_cons. intros Hnd.
  apply NoDup_cons in Hnd as [Hd Hnd]. simpl.
  destruct (f d); [|by apply IH].
  rewrite fmap_cons. apply NoDup_cons. split; [|by apply IH].
  intros Hin. apply Hd. apply list_elem_of_fmap in Hin as (e & -> & He).
  apply list_elem_of_fmap. exists e. split; [done|].
  apply list_elem_of_In, filter_In in He as [He _]. by apply list_elem_of_In.
Qed.

(** A step of a run keeps the invariant of the known states. *)
Lemma sessionStep_runInv s past closure s' :
  runInv (s :: past) -> closure ∈ s :: past ->
  sessionStep (s :: past) closure s s' -> runInv (s' :: s :: past).
Proof.
  intros Hinv Hc Hs. pose proof Hinv as [H1 H3].
  assert (Hin : s ∈ s :: past) by left.
  destruct (H1 s Hin) as [Hnd Hname].
  pose proof (fun pid => sourcedState_known (s :: past) pid s Hinv Hin) as Hgood.
  destruct Hs as [u n clock rawText|u n clock url|u now pid aiResponse Hfresh
                 |u now detection apt tracking notesText Hdet
                 |u now detection Hdet|u now detection Hdet|u now pid|u now].
  - (* import *)
    apply (runInv_extend _ []); [done | | done]. exact (Hgood []).
  - (* a new photo *)
    apply (runInv_extend _ []); [done | | done].
    destruct (Hgood []) as [Hf Hp]. split; [done|].
    cbn [sessionReducer withPhotos ss_photos]. intros photo d Hph Hd.
    apply elem_of_app in Hph as [Hph | Hph]; [by apply (Hp photo)|].
    apply list_elem_of_singleton in Hph as ->. simpl in Hd. by inversion Hd.
  - (* the answer of the service *)
    set (new := imap (fun index det => toDetection pid (u index) det) aiResponse).
    assert (Hnew : forall d, d ∈ new -> unseen (s :: past) pid d)
      by (intros d Hd; by apply (new_unseen _ u pid aiResponse)).
    assert (Hall : forall d, d ∈ ss_detections closure ++ new ->
                             sourced (s :: past) pid d).
    { intros d Hd. apply elem_of_app in Hd as [Hd | Hd].
      - apply (sourced_held _ _ closure); [done | by left].
      - right. by apply Hnew. }
    apply (runInv_extend _ pid); [done | |].
    + unfold processPhoto. fold new.
      apply sourcedState_replace; [done | |].
      * destruct (Hgood pid) as [Hf Hp].
        cbn [sessionReducer withPhotos withDetections ss_detections ss_photos].
        split.
        -- intros d Hd. apply elem_of_app in Hd as [Hd | Hd]; [by apply Hf|].
           right. by apply Hnew.
        -- intros photo' d Hph Hd.
           apply list_elem_of_fmap in Hph as (photo & -> & Hph).
           case_bool_decide as E; simpl in *.
           ++ split; [right; by apply Hnew|]. rewrite E. by apply (Hnew d).
           ++ by apply (Hp photo).
      * intros e. by apply sourced_matchDetections.
    + rewrite processPhoto_detections. fold new.
      rewrite (sameDetectionData_ids _ _ (proj2 (matchDetections_same_data _ _))).
      rewrite fmap_app. apply NoDup_app. split; [by apply (H1 closure)|].
      split; [|unfold new; rewrite imap_ids; apply Hfresh].
      intros x Hx Hx'. apply list_elem_of_fmap in Hx as (d & -> & Hd).
      apply list_elem_of_fmap in Hx' as (e & E & He).
      apply (proj2 (Hnew e He) closure d); [done | by left | done].
  - (* a correction *)
    set (saved := savedDetection detection apt tracking notesText).
    set (all := map (fun d => if bool_decide (det_id d = det_id detection)
                              then saved else d) (ss_detections s)).
    assert (Eall : all = map (replaceDetection saved) (ss_detections s)) by done.
    apply (runInv_extend _ []); [done | |].
    + unfold handleSave. fold saved. fold all.
      apply sourcedState_replace; [done | |].
      * by apply (sourcedState_update _ _ s u (now 0%nat) saved detection).
      * intros e. apply sourced_matchDetections. intros d Hd.
        rewrite Eall in Hd.
        apply (sourcedState_update _ [] s u (now 0%nat) saved detection Hinv Hin
                 Hdet eq_refl eq_refl).
        done.
    + rewrite handleSave_detections. fold saved. fold all.
      rewrite (sameDetectionData_ids _ _ (proj2 (matchDetections_same_data _ _))).
      by rewrite Eall, replaceDetection_ids.
  - (* marked as an error *)
    apply (runInv_extend _ []); [done | |].
    + by apply (sourcedState_update _ _ s u now _ detection).
    + cbn [handleMarkAsError sessionReducer withPhotos withDetections ss_detections].
      by rewrite replaceDetection_ids.
  - (* confirmed *)
    apply (runInv_extend _ []); [done | |].
    + by apply (sourcedState_update _ _ s u now _ detection).
    + cbn [handleConfirmCorrect sessionReducer withPhotos withDetections ss_detections].
      by rewrite replaceDetection_ids.
  - (* a photo deleted *)
    apply (runInv_extend _ []); [done | |].
    + destruct (Hgood []) as [Hf Hp].
      cbn [sessionReducer withPhotos withDetections ss_detections ss_photos].
      split.
      * intros d Hd. apply list_elem_of_In, filter_In in Hd as [Hd _].
        apply Hf. by apply list_elem_of_In.
      * intros photo d Hph Hd. apply list_elem_of_In, filter_In in Hph as [Hph _].
        apply (Hp photo); [by apply list_elem_of_In | done].
    + cbn [sessionReducer withPhotos withDetections ss_detections].
      by apply filter_ids_NoDup.
  - (* a new session *)
    apply (runInv_extend _ []); [done | | constructor].
    split; intros; exfalso; simpl in *; by eapply not_elem_of_nil.
Qed.

Lemma sessionInv_runInv s0 : sessionInv s0 -> runInv [s0].
Proof.
  intros [Hnd Hph].
  assert (Hflat : forall d, holds s0 d -> d ∈ ss_detections s0).
  { intros d [Hd | (photo & Hp & Hd)]; [done|]. by apply (Hph photo). }
  split.
  - intros s Hs. apply list_elem_of_singleton in Hs as ->. split; [done|].
    intros photo d Hp Hd. by apply (Hph photo).
  - intros s1 s2 d1 d2 Hs1 Hs2 Hd1 Hd2 E.
    apply list_elem_of_singleton in Hs1 as ->. apply list_elem_of_singleton in Hs2 as ->.
    f_equal. apply (NoDup_ids_eq (ss_detections s0)); auto.
Qed.

Lemma sessionRun_runInv s0 known :
  sessionInv s0 -> sessionRun s0 known -> runInv known.
Proof.
  intros H0. induction 1 as [|closure s past s' _ IH Hc Hs].
  - by apply sessionInv_runInv.
  - by apply (sessionStep_runInv s past closure).
Qed.

Lemma inOrderStep_inv s s' : sessionInv s -> inOrderStep s s' -> sessionInv s'.
Proof.
  intros Hinv Hs. pose proof Hinv as [Hnd Hph].
  unfold inOrderStep in Hs.
  destruct Hs as [u n clock rawText|u n clock url|u now pid aiResponse [Hfresh Hnew']
                 |u now detection apt tracking notesText Hin
                 |u now detection Hin|u now detection Hin|u now pid|u now].
  - (* import *) done.
  - (* a new photo *)
    split; [done|]. cbn [sessionReducer withPhotos ss_photos ss_detections].
    intros photo d Hp Hd. apply elem_of_app in Hp as [Hp | Hp]; [by apply Hph|].
    apply list_elem_of_singleton in Hp as ->. simpl in Hd. by inversion Hd.
  - (* the answer of the service *)
    set (new := imap (fun index det => toDetection pid (u index) det) aiResponse).
    assert (Hnew : forall k, (k < length aiResponse)%nat ->
                             u k ∉ det_id <$> ss_detections s).
    { intros k Hk Hin. apply list_elem_of_fmap in Hin as (d & E & Hd).
      apply (Hnew' k s d); [done | by left | by left | done]. }
    assert (Hall : NoDup (det_id <$> ss_detections s ++ new)).
    { rewrite fmap_app. apply NoDup_app. split; [done|]. unfold new.
      rewrite imap_ids. split; [|done].
      intros x Hx Hx'. apply list_elem_of_fmap in Hx' as (k & -> & Hk).
      apply elem_of_seq in Hk. apply (Hnew k); [lia | done]. }
    split.
    + rewrite processPhoto_detections. fold new.
      by rewrite (sameDetectionData_ids _ _
                    (proj2 (matchDetections_same_data _ _))).
    + intros photo' d' Hp Hd. rewrite processPhoto_detections. fold new.
      unfold processPhoto in Hp. fold new in Hp.
      cbn [sessionReducer withPhotos withDetections withPackages ss_photos] in Hp.
      refine (updated_photos_inv (ss_packages s) (ss_detections s ++ new) _
                photo' d' Hall _ Hp Hd).
      intros photo d Hphoto Hd0.
      apply list_elem_of_fmap in Hphoto as (photo0 & -> & Hphoto0).
      case_bool_decide as E; simpl in *.
      * split; [apply elem_of_app; by right|].
        apply list_elem_of_lookup in Hd0 as [k Hk]. unfold new in Hk.
        rewrite list_lookup_imap in Hk.
        destruct (aiResponse !! k) as [det|]; [|done]. simpl in Hk.
        injection Hk as <-. by rewrite toDetection_photoId.
      * destruct (Hph photo0 d Hphoto0 Hd0) as [H1 H2].
        split; [apply elem_of_app; by left | done].
  - (* a correction *)
    set (saved := savedDetection detection apt tracking notesText).
    set (all := map (fun d => if bool_decide (det_id d = det_id detection)
                              then saved else d) (ss_detections s)).
    assert (Eall : all = map (replaceDetection saved) (ss_detections s)) by done.
    assert (Hall : NoDup (det_id <$> all))
      by (by rewrite Eall, replaceDetection_ids).
    pose proof (sessionInv_update s u (now 0%nat) saved detection Hinv Hin
                  eq_refl eq_refl) as [_ H1].
    split.
    + rewrite handleSave_detections. fold saved. fold all.
      by rewrite (sameDetectionData_ids _ _
                    (proj2 (matchDetections_same_data _ _))).
    + intros photo' d' Hp Hd. rewrite handleSave_detections. fold saved. fold all.
      unfold handleSave in Hp. fold saved in Hp. fold all in Hp.
      cbn [sessionReducer withPhotos withDetections withPackages ss_photos
           ss_detections] in Hp, H1.
      refine (updated_photos_inv (ss_packages s) all _ photo' d' Hall _ Hp Hd).
      rewrite Eall. exact H1.
  - (* marked as an error *)
    by apply (sessionInv_update s u now _ detection).
  - (* confirmed *)
    by apply (sessionInv_update s u now _ detection).
  - (* a photo deleted *)
    cbn [sessionReducer withPhotos withDetections ss_photos ss_detections].
    split.
    + clear Hph. induction (ss_detections s) as [|d ds IH]; [done|].
      rewrite fmap_cons in Hnd. apply NoDup_cons in Hnd as [Hd Hnd]. simpl.
      destruct (negb _); [|by apply IH].
      rewrite fmap_cons. apply NoDup_cons. split; [|by apply IH].
      intros Hin. apply Hd. apply list_elem_of_fmap in Hin as (e & -> & He).
      apply list_elem_of_fmap. exists e. split; [done|].
      apply list_elem_of_In, filter_In in He as [He _]. by apply list_elem_of_In.
    + intros photo d Hp Hd.
      apply list_elem_of_In, filter_In in Hp as [Hp Hne].
      apply list_elem_of_In in Hp.
      destruct (Hph photo d Hp Hd) as [H1 H2]. split; [|done].
      apply list_elem_of_In, filter_In. split; [by apply list_elem_of_In|].
      by rewrite H2.
  - (* a new session *)
    split; [constructor|]. intros photo d Hp. inversion Hp.
Qed.

(** The flat list of detections and the lists of the photos. In every
    state of a session that started in step, whatever imports, new photos,
    answers of the service with new identifiers, corrections, verdicts,
    deletions and new sessions it went through, and whichever earlier state
    the callback of an answer had closed over: the detections of the flat
    list have pairwise different identifiers, and every detection of a
    photo names its photo. When moreover no answer was overtaken, that is
    every callback had closed over the state the reducer held, every
    detection of a photo is in the flat list. *)
Theorem session_keeps_photos_and_detections_in_step
  (s0 s : SessionState) (past : list SessionState) :
  sessionInv s0 ->
  sessionRun s0 (s :: past) ->
  NoDup (det_id <$> ss_detections s) /\
  (forall photo d, photo ∈ ss_photos s -> d ∈ photo_detections photo ->
                   photoId d = photo_id photo) /\
  (rtc inOrderStep s0 s ->
   forall photo d, photo ∈ ss_photos s -> d ∈ photo_detections photo ->
                   d ∈ ss_detections s).
Proof.
  intros H0 Hrun.
  destruct (sessionRun_runInv s0 (s :: past) H0 Hrun) as [H1 _].
  destruct (H1 s ltac:(left)) as [Hnd Hname].
  split; [done|]. split; [done|].
  intros Hrtc photo d Hp Hd.
  assert (Hinv : sessionInv s).
  { clear -H0 Hrtc. induction Hrtc as [|s1 s2 s3 Hs _ IH]; [done|].
    apply IH. by eapply inOrderStep_inv. }
  by apply (proj2 Hinv photo d).
Qed.

End SessionInvariant.

(** ** A text without lines to read *)

Section BlankText.

Variable uuidv4 : nat -> jsstring.
Variable now : nat -> N.

Lemma dropWhile_nil_all (s : jsstring) :
  dropWhile isSpace s = [] <-> forallb isSpace s = true.
Proof.
  induction s as [|c s IH]; [done|]. simpl. destruct (isSpace c); [done|].
  split; discriminate.
Qed.

Lemma trim_nil_all (s : jsstring) : trim s = [] <-> forallb isSpace s = true.
Proof.
  unfold trim, trimStart. rewrite <- dropWhile_nil_all. split; [|by intros ->].
  intros H. destruct (dropWhile isSpace s) as [|c r] eqn:E; [done|].
  pose proof (dropWhile_head isSpace s c r E) as Hc.
  exfalso. unfold trimEnd in H. apply (f_equal (@rev _)) in H.
  rewrite rev_involutive in H. simpl in H. rewrite dropWhile_app in H.
  destruct (dropWhile isSpace (rev r)); simpl in H; [by rewrite Hc in H | done].
Qed.

Lemma splitChar_all_space (s : jsstring) :
  forallb isSpace s = true ->
  Forall (fun ln => trim ln = []) (splitChar NEWLINE s).
Proof.
  intros H. assert (G : Forall (fun ln => forallb isSpace ln = true)
                               (splitChar NEWLINE s)).
  { induction s as [|c s IH]; [by repeat constructor|].
    simpl in H. apply andb_true_iff in H as [Hc H]. specialize (IH H).
    simpl. destruct (c =? NEWLINE).
    - by constructor.
    - destruct (splitChar NEWLINE s) as [|p ps]; simpl.
      + repeat constructor. simpl. by rewrite Hc.
      + apply Forall_cons in IH as [Hp Hps]. constructor; [|done].
        simpl. by rewrite Hc. }
  eapply Forall_impl; [exact G|]. intros ln. apply trim_nil_all.
Qed.

Lemma forEachLine_blank st index lines :
  Forall (fun ln => trim ln = []) lines ->
  forEachLine uuidv4 now st index lines = st.
Proof.
  intros H. revert st index. induction H as [|ln lines Hln _ IH];
    intros st index; [done|].
  simpl. unfold processLine at 1. rewrite Hln. apply IH.
Qed.

(** A text without a character other than whitespace (the empty text, blank
    lines) gives no package and no error. *)
Theorem parsePackageList_blank_text (rawText : jsstring) :
  trim rawText = [] ->
  parsePackageList uuidv4 now rawText = mkParseResult [] [].
Proof.
  intros H. apply trim_nil_all in H. unfold parsePackageList, parseLines.
  by rewrite (forEachLine_blank _ _ _ (splitChar_all_space _ H)).
Qed.

End BlankText.

(** ** Answers that overlap *)

Section OverlappingAnswers.

(** Two answers that overlap. When a second photo is sent before the answer
    for the first has arrived, both callbacks have closed over the same
    state. After the second answer the packages and the flat list of
    detections are those computed from that state and the second response
    alone: nothing the first answer found is in them. The first photo still
    holds its detections as they were classified, and none of them is in
    the flat list. *)
Theorem overlapping_answers_lose_the_first
  (uuid1 uuid2 : nat -> jsstring) (now1 now2 : nat -> nat -> N)
  (state : SessionState) (photoA photoB : jsstring)
  (responseA responseB : list AIDetection) :
  let newA := imap (fun index det => toDetection photoA (uuid1 index) det)
                   responseA in
  let newB := imap (fun index det => toDetection photoB (uuid2 index) det)
                   responseB in
  let rA := matchDetections (ss_packages state) (ss_detections state ++ newA) in
  let rB := matchDetections (ss_packages state) (ss_detections state ++ newB) in
  let s1 := processPhoto uuid1 now1 state state photoA responseA in
  let s2 := processPhoto uuid2 now2 state s1 photoB responseB in
  NoDup (det_id <$> ss_detections state ++ newA) ->
  (forall i j, (i < length responseA)%nat -> (j < length responseB)%nat ->
               uuid1 i <> uuid2 j) ->
  photoA <> photoB ->
  ss_packages s2 = updatedPackages rB /\
  ss_detections s2 = updatedDetections rB /\
  forall k photo, ss_photos state !! k = Some photo -> photo_id photo = photoA ->
    ss_photos s2 !! k =
      Some (mkPhoto (photo_id photo) (dataUrl photo) (capturedAt photo) true
                    (drop (length (ss_detections state)) (updatedDetections rA))) /\
    forall d, d ∈ drop (length (ss_detections state)) (updatedDetections rA) ->
              d ∉ ss_detections s2.
Proof.
  intros newA newB rA rB s1 s2 Hnd Hfresh Hab.
  split; [done|]. split; [done|]. intros k photo Hk Hid.
  pose proof (proj2 (matchDetections_same_data (ss_packages state)
                       (ss_detections state ++ newA))) as HsA. fold rA in HsA.
  pose proof (proj2 (matchDetections_same_data (ss_packages state)
                       (ss_detections state ++ newB))) as HsB. fold rB in HsB.
  apply sameDetectionData_ids in HsA, HsB.
  assert (Hout : forall d, d ∈ drop (length (ss_detections state)) (updatedDetections rA) ->
            det_id d ∉ det_id <$> updatedDetections rB).
  { intros d Hd. apply (list_elem_of_fmap_2 det_id) in Hd.
    rewrite fmap_drop, HsA, fmap_app, <- (length_fmap det_id (ss_detections state)),
      drop_app_length in Hd.
    rewrite HsB, fmap_app. unfold newA in Hd. unfold newB.
    rewrite imap_ids in *. apply list_elem_of_fmap in Hd as (i & Ei & Hi).
    apply elem_of_seq in Hi. intros Hin. apply elem_of_app in Hin as [Hin | Hin].
    - rewrite fmap_app in Hnd. apply NoDup_app in Hnd as (_ & Hdis & _).
      apply (Hdis _ Hin). unfold newA. rewrite imap_ids, Ei.
      apply list_elem_of_fmap. exists i. split; [done|]. apply elem_of_seq. lia.
    - apply list_elem_of_fmap in Hin as (j & Ej & Hj). apply elem_of_seq in Hj.
      apply (Hfresh i j); [lia | lia | congruence]. }
  split.
  - pose proof (processPhoto_photo_at uuid1 now1 state state photoA responseA
                  k photo Hnd Hk Hid) as H1. fold newA rA s1 in H1.
    subst s2. unfold processPhoto. fold newB. fold rB.
    cbn [sessionReducer withPhotos withDetections withPackages ss_packages
         ss_detections ss_photos].
    rewrite !list_lookup_fmap, H1. cbn [fmap option_fmap option_map photo_id].
    rewrite bool_decide_eq_false_2 by congruence.
    unfold withPhotoDetections.
    cbn [photo_id dataUrl capturedAt processed photo_detections].
    do 2 f_equal. rewrite <- (map_id (drop _ _)) at 2.
    apply map_ext_in. intros d Hd. apply updatedOr_absent, Hout.
    by apply list_elem_of_In.
  - intros d Hd Hin. apply (Hout d Hd). by apply list_elem_of_fmap_2.
Qed.

End OverlappingAnswers.

(** ** The reducer and identifiers it does not hold *)

Section ReducerEdges.
Implicit Types (state : SessionState) (d : Detection) (ds : list Detection).

Lemma map_unchanged {A} (f : A -> A) (l : list A) :
  (forall x, x ∈ l -> f x = x) -> map f l = l.
Proof.
  intros H. rewrite <- (map_id l) at 2. apply map_ext_in.
  intros x Hx. apply H. by apply list_elem_of_In.
Qed.

Lemma filter_unchanged {A} (f : A -> bool) (l : list A) :
  (forall x, x ∈ l -> f x = true) -> List.filter f l = l.
Proof.
  induction l as [|a l IH]; intros H; [done|]. simpl.
  rewrite (H a) by left. f_equal. apply IH. intros x Hx. apply H. by right.
Qed.

Lemma replaceDetection_unchanged detection ds :
  det_id detection ∉ det_id <$> ds -> map (replaceDetection detection) ds = ds.
Proof.
  intros Hn. apply map_unchanged. intros x Hx. unfold replaceDetection.
  rewrite bool_decide_eq_false_2; [done|]. intros E. apply Hn. rewrite <- E.
  by apply list_elem_of_fmap_2.
Qed.

(** Actions that name an identifier the session does not hold. A status for
    an unknown package, a detection with an unknown identifier and the
    deletion of an unknown photo change nothing but [lastModified]. The
    detections for an unknown photo are still appended to the flat list,
    and no photo receives them. *)
Theorem sessionReducer_unknown_identifier
  (uuidv4 : nat -> jsstring) (now : nat -> N) (state : SessionState) :
  let touched :=
    mkSessionState (ss_packages state) (ss_photos state) (ss_detections state)
                   (sessionId state) (createdAt state) (now 0%nat) in
  (forall id status, id ∉ pkg_id <$> ss_packages state ->
     sessionReducer uuidv4 now state (UPDATE_PACKAGE_STATUS id status) = touched) /\
  (forall detection,
     det_id detection ∉ det_id <$> ss_detections state ->
     (forall photo, photo ∈ ss_photos state ->
                    det_id detection ∉ det_id <$> photo_detections photo) ->
     sessionReducer uuidv4 now state (UPDATE_DETECTION detection) = touched) /\
  (forall pid, pid ∉ photo_id <$> ss_photos state ->
               pid ∉ photoId <$> ss_detections state ->
     sessionReducer uuidv4 now state (DELETE_PHOTO pid) = touched) /\
  (forall pid detections, pid ∉ photo_id <$> ss_photos state ->
     sessionReducer uuidv4 now state (ADD_DETECTIONS pid detections) =
     withDetections (ss_detections state ++ detections) touched).
Proof.
  intros touched. repeat split.
  - intros id status Hn. unfold sessionReducer, withPackages, touched. simpl.
    f_equal. apply map_unchanged. intros p Hp.
    rewrite bool_decide_eq_false_2; [done|]. intros E. apply Hn. rewrite <- E.
    by apply list_elem_of_fmap_2.
  - intros detection Hn Hph.
    unfold sessionReducer, withPhotos, withDetections, touched. simpl. f_equal.
    + apply map_unchanged. intros photo Hp. unfold withPhotoDetections.
      rewrite replaceDetection_unchanged by (by apply Hph). by destruct photo.
    + by apply replaceDetection_unchanged.
  - intros pid Hn Hd.
    unfold sessionReducer, withPhotos, withDetections, touched. simpl. f_equal.
    + apply filter_unchanged. intros p Hp. apply negb_true_iff, bool_decide_eq_false.
      intros E. apply Hn. rewrite <- E. by apply list_elem_of_fmap_2.
    + apply filter_unchanged. intros d Hx. apply negb_true_iff, bool_decide_eq_false.
      intros E. apply Hd. rewrite <- E. by apply list_elem_of_fmap_2.
  - intros pid detections Hn.
    unfold sessionReducer, withPhotos, withDetections, touched. simpl. f_equal.
    apply map_unchanged. intros p Hp.
    rewrite bool_decide_eq_false_2; [done|]. intros E. apply Hn. rewrite <- E.
    by apply list_elem_of_fmap_2.
Qed.
End ReducerEdges.

(** ** The earlier revision of the parser *)

Section LegacyParser.

Variable uuidv4 : nat -> jsstring.
Variable now : nat -> N.

Lemma legacy_extractLine_shape t e :
  Legacy.extractLine t = Returned (inr e) ->
  (exists b c d, ex_apartment e = [67; b; c; d] /\ isDigit b = true /\
                 isDigit c = true /\ isUpper d = true) /\
  (4 <= length (ex_fullTracking e))%nat /\
  ex_trackingLast4 e = sliceLast4 (ex_fullTracking e) /\
  ex_recipient e <> [].
Proof.
  unfold Legacy.extractLine, element.
  destruct (_ <? _)%nat; [done|].
  destruct (_ !! 0%nat) as [f0|]; [|done].
  destruct (Legacy.apartmentMatch f0) as [apt|] eqn:Ea; [|done].
  destruct (_ !! 2%nat) as [f2|]; [|done]. cbv zeta.
  destruct (_ <? _)%nat; [done|].
  destruct (_ !! 0%nat) as [p0|]; [|done].
  destruct (_ !! 2%nat) as [p2|]; [|done].
  destruct (_ <? _)%nat eqn:Hlen; [done|]. apply Nat.ltb_ge in Hlen.
  destruct (splitSpaces (trim p2) !! 0%nat) as [tk|] eqn:E0; [|done].
  destruct (_ <? _)%nat eqn:H4; [done|]. apply Nat.ltb_ge in H4.
  intros [= <-]. simpl. split; [|split; [done|split; [done|]]].
  - unfold Legacy.apartmentMatch in Ea.
    destruct f0 as [|a [|b [|c [|d r]]]]; try done.
    destruct (a =? 67) eqn:Ha; [|done]. apply N.eqb_eq in Ha as ->.
    destruct (isDigit b) eqn:Hb; [|done].
    destruct (isDigit c) eqn:Hc; [|done].
    destruct (isUpper d) eqn:Hd; [|done].
    injection Ea as <-. by exists b, c, d.
  - destruct (trim p2) as [|c0 t0] eqn:Et; [simpl in Hlen; lia|].
    assert (Hlast : exists z, last (trim p2) = Some z /\ isSpace z = false).
    { destruct (last (trim p2)) as [z|] eqn:Ez.
      - exists z. split; [done|]. by apply (trim_endsUnspaced p2).
      - apply last_None in Ez. congruence. }
    destruct Hlast as (z & Hz & Hzs). rewrite Et in Hz.
    destruct (splitSpacesFrom_last false (c0 :: t0) z Hz Hzs) as (w & Hw & Hne).
    fold (splitSpaces (c0 :: t0)) in Hw.
    apply joinSpace_nonempty with (w := w); [|done].
    destruct (splitSpaces (c0 :: t0)) as [|a [|b ws]]; simpl in Hlen; try lia.
    done.
Qed.

Lemma legacy_processLine_inv st index ln :
  legacyInv uuidv4 now st -> legacyInv uuidv4 now (Legacy.processLine uuidv4 now st index ln).
Proof.
  intros (Hseen & Hnd & Hsh). unfold Legacy.processLine.
  destruct (trim ln) as [|c t]; [done|].
  destruct (Legacy.extractLine (c :: t)) as [[why|e]|message] eqn:He; try done.
  case_bool_decide as Hk; [done|].
  split; [|split]; simpl.
  - intros k. simpl. rewrite elem_of_union, elem_of_singleton, (Hseen k). split.
    + intros [-> | (p & Hp & Hpk)].
      * eexists. split; [apply elem_of_app; right; by left | done].
      * exists p. split; [apply elem_of_app; by left | done].
    + intros (p & Hp & Hpk). apply elem_of_app in Hp as [Hp | Hp].
      * right. by exists p.
      * left. apply list_elem_of_singleton in Hp as ->. by rewrite <- Hpk.
  - rewrite fmap_app. apply NoDup_app. split; [done|]. split.
    + intros k Hin Hin2. apply list_elem_of_singleton in Hin2. simpl in Hin2.
      subst k. apply Hk. apply Hseen. apply list_elem_of_fmap in Hin as (p & Hp1 & Hp2).
      by exists p.
    + apply NoDup_singleton.
  - intros k p Hk'.
    destruct (decide (k < length (acc_packages st))%nat) as [Hlt|Hge].
    + rewrite lookup_app_l in Hk' by done. by apply Hsh.
    + pose proof (lookup_lt_Some _ _ _ Hk') as Hlen.
      rewrite length_app in Hlen. simpl in Hlen.
      rewrite lookup_app_r in Hk' by lia.
      apply list_lookup_singleton_Some in Hk' as [Hk0 <-].
      assert (k = length (acc_packages st)) as -> by lia.
      destruct (legacy_extractLine_shape _ _ He) as (H1 & H2 & H3 & H4).
      repeat split; done.
Qed.

Lemma legacy_forEachLine_inv st index lines :
  legacyInv uuidv4 now st -> legacyInv uuidv4 now (Legacy.forEachLine uuidv4 now st index lines).
Proof.
  revert st index. induction lines as [|ln lines IH]; intros st index Hs; [done|].
  simpl. apply IH. by apply legacy_processLine_inv.
Qed.

(** The earlier revision of the parser, [src/utils/parsePackageList.ts].
    Every package it returns is pending and carries the identifier and the
    time of its creation; its apartment is [C], two digits and an upper-case
    letter; its fullTracking has at least four code units and its
    trackingLast4 is the last four of them; its recipient is not empty. No
    other package returned has the same apartment and trackingLast4. *)
Theorem legacy_parsePackageList_packages (rawText : jsstring) (k : nat)
  (p : Package) :
  packages (Legacy.parsePackageList uuidv4 now rawText) !! k = Some p ->
  pkg_id p = uuidv4 k /\ importedAt p = now k /\ pkg_status p = pending /\
  (exists b c d, apartment p = [67; b; c; d] /\ isDigit b = true /\
                 isDigit c = true /\ isUpper d = true) /\
  (4 <= length (fullTracking p))%nat /\
  trackingLast4 p = sliceLast4 (fullTracking p) /\
  recipient p <> [] /\
  forall k' q,
    packages (Legacy.parsePackageList uuidv4 now rawText) !! k' = Some q ->
    pkgPair q = pkgPair p -> k' = k.
Proof.
  unfold Legacy.parsePackageList. simpl. intros Hk.
  destruct (legacy_forEachLine_inv (mkParseState [] [] ∅) 0
              (splitChar NEWLINE rawText)) as (_ & Hnd & Hsh).
  { split; [|split].
    - intros x. split; [set_solver|]. intros (y & Hy & _). by apply elem_of_nil in Hy.
    - constructor.
    - intros x y H. done. }
  destruct (Hsh k p Hk) as (H1 & H2 & H3 & H4 & H5 & H6 & H7).
  repeat (split; [done|]).
  intros k' q Hq E.
  apply (NoDup_fmap_lookup pkgKey _ k' k q p Hnd Hq Hk).
  unfold pkgKey. unfold pkgPair in E. by injection E as -> ->.
Qed.

End LegacyParser.

(** ** Scenarios *)

(** One pending package and the detection of its sticker. *)
Lemma matched_detection_names_found_package_witness :
  let p := createPackage "C01K" "1234" pending in
  let d := createDetection "det-1" (Some "C01K") (Some "1234") orphan in
  let d' := setMatchedPackageId (Some (pkg_id p)) (setDetStatus matched d) in
  readable d' = true /\
  exists i p0,
    [p] !! i = Some p0 /\ pkg_status p0 = pending /\
    updatedPackages (matchDetections [p] [d]) !! i = Some (setPkgStatus found p0) /\
    matchedPackageId d' = Some (pkg_id p0) /\
    parsedApartment d' = Some (apartment p0) /\
    parsedLast4 d' = Some (trackingLast4 p0).
Proof.
  intros p d d'.
  apply (matched_detection_names_found_package [p] [d] 0%nat d'); reflexivity.
Defined.

(** Two pending packages and the detections of their stickers. *)
Lemma matched_detections_have_distinct_keys_witness :
  let p1 := createPackage "C01K" "1234" pending in
  let p2 := createPackage "C02G" "5678" pending in
  let d1 := createDetection "det-1" (Some "C01K") (Some "1234") matched in
  let d2 := createDetection "det-2" (Some "C02G") (Some "5678") matched in
  detKey (setMatchedPackageId (Some (pkg_id p1)) d1) <>
  detKey (setMatchedPackageId (Some (pkg_id p2)) d2).
Proof.
  intros p1 p2 d1 d2.
  apply (matched_detections_have_distinct_keys [p1; p2] [d1; d2] 0%nat 1%nat);
    [reflexivity | reflexivity | lia | reflexivity | reflexivity].
Defined.

(** A package found by an earlier scan and a new detection of its sticker. *)
Lemma detection_of_claimed_package_is_duplicate_witness :
  let p := createPackage "C01K" "1234" found in
  let d := createDetection "det-2" (Some "C01K") (Some "1234") matched in
  let r := matchDetections [p] [d] in
  updatedDetections r !! 0%nat = Some (setDetStatus duplicate d) /\
  updatedPackages r !! 0%nat = Some p.
Proof.
  intros p d.
  apply (detection_of_claimed_package_is_duplicate [p] [d] 0%nat d 0%nat p);
    [reflexivity | reflexivity | by left | reflexivity | reflexivity
    | reflexivity].
Defined.

(** A detection without a package: it becomes an orphan with a note. *)
Lemma matchDetections_fields_witness :
  let p := createPackage "C01K" "1234" pending in
  let d := createDetection "det-1" (Some "C99Z") (Some "0000") matched in
  let d' := setNotes (Some noteOrphan) (setDetStatus orphan d) in
  (det_status d' = unreadable <-> readable d = false) /\
  (det_status d' <> matched -> matchedPackageId d' = matchedPackageId d) /\
  notes d' = match det_status d' with
             | orphan => appendNote d noteOrphan
             | ambiguous => appendNote d noteAmbiguous
             | _ => notes d
             end.
Proof.
  intros p d d'.
  apply (matchDetections_fields [p] [d] 0%nat d d'); reflexivity.
Defined.

(** Every package found already. *)
Lemma nothing_pending_nothing_matched_witness :
  let p := createPackage "C01K" "1234" found in
  let d := createDetection "det-1" (Some "C01K") (Some "1234") matched in
  let r := matchDetections [p] [d] in
  updatedPackages r = [p] /\
  Forall (fun d' => det_status d' = unreadable \/ det_status d' = duplicate \/
                    det_status d' = orphan) (updatedDetections r).
Proof.
  intros p d.
  apply (nothing_pending_nothing_matched [p] [d]).
  apply Forall_cons. split; [discriminate | apply Forall_nil_2].
Defined.

(** Two detections with different keys. *)
Lemma independent_detections_commute_witness :
  let p := createPackage "C01K" "1234" pending in
  let a := createDetection "det-1" (Some "C01K") (Some "1234") matched in
  let b := createDetection "det-2" (Some "C02G") (Some "5678") matched in
  let r1 := matchDetections [p] ([] ++ a :: b :: []) in
  let r2 := matchDetections [p] ([] ++ b :: a :: []) in
  updatedPackages r1 = updatedPackages r2 /\
  exists o1 a' b' o2,
    length o1 = length (@nil Detection) /\
    updatedDetections r1 = o1 ++ a' :: b' :: o2 /\
    updatedDetections r2 = o1 ++ b' :: a' :: o2.
Proof.
  intros p a b.
  apply (independent_detections_commute [p] [] [] a b).
  intros _ _. vm_compute. discriminate.
Defined.

Lemma parsePackageList_packages_witness :
  let p := packageOffice in
  pkg_id p = sampleUuid 1 /\ importedAt p = sampleNow 1 /\ pkg_status p = pending /\
  length (trackingLast4 p) = 4%nat /\
  (trackingLast4 p = NONE \/
   ((4 <= length (fullTracking p))%nat /\
    trackingLast4 p = sliceLast4 (fullTracking p))) /\
  recipient p <> [].
Proof.
  intros p.
  apply (parsePackageList_packages sampleUuid sampleNow
           (joinLines [lineEspejo; lineOffice]) 1%nat p).
  by vm_compute.
Defined.

Lemma scan_of_imported_packages_witness :
  let ps := packages (parsePackageList sampleUuid sampleNow
                        (joinLines [lineEspejo; lineOffice])) in
  let r := matchDetections ps [detectionOffice] in
  updatedDetections r = zip_with matchedWith [packageOffice] [detectionOffice] /\
  forall i p, ps !! i = Some p ->
    (p ∈ [packageOffice] -> updatedPackages r !! i = Some (setPkgStatus found p)) /\
    (p ∉ [packageOffice] -> updatedPackages r !! i = Some p).
Proof.
  intros ps.
  apply (scan_of_imported_packages sampleUuid sampleNow
           (joinLines [lineEspejo; lineOffice]) [packageOffice] [detectionOffice]).
  - apply NoDup_singleton.
  - intros p Hp. apply list_elem_of_singleton in Hp as ->.
    apply list_elem_of_lookup. exists 1%nat. by vm_compute.
  - apply Forall2_cons. split; [split; reflexivity | apply Forall2_nil_2].
Defined.

Lemma packages_only_move_to_found_witness :
  let p := createPackage "C01K" "1234" pending in
  let d := createDetection "det-1" (Some "C01K") (Some "1234") orphan in
  let r := matchDetections [p] [d] in
  (pkg_status p <> pending -> updatedPackages r !! 0%nat = Some p) /\
  (updatedPackages r !! 0%nat = Some p \/
   updatedPackages r !! 0%nat = Some (setPkgStatus found p)) /\
  (pkg_status p = pending ->
   updatedPackages r !! 0%nat = Some (setPkgStatus found p) ->
   exists j d', updatedDetections r !! j = Some d' /\ det_status d' = matched /\
                matchedPackageId d' = Some (pkg_id p) /\
                parsedApartment d' = Some (apartment p) /\
                parsedLast4 d' = Some (trackingLast4 p)).
Proof.
  intros p d.
  apply (packages_only_move_to_found [p] [d] 0%nat p). reflexivity.
Defined.

Lemma first_reader_is_matched_witness :
  let p := createPackage "C01K" "1234" pending in
  let d := createDetection "det-1" (Some "C01K") (Some "1234") orphan in
  let d2 := createDetection "det-2" (Some "C01K") (Some "1234") orphan in
  let r := matchDetections [p] [d; d2] in
  updatedDetections r !! 0%nat = Some (matchedWith p d) /\
  updatedPackages r !! 0%nat = Some (setPkgStatus found p) /\
  updatedDetections r !! 1%nat = Some (setDetStatus duplicate d2).
Proof.
  intros p d d2.
  destruct (first_reader_is_matched [p] [d; d2] 0%nat d 0%nat p)
    as (H1 & H2 & H3).
  - reflexivity.
  - reflexivity.
  - reflexivity.
  - intros q Hq Hc. apply list_elem_of_singleton in Hq as ->. discriminate.
  - intros j' e Hlt. lia.
  - split; [exact H1|]. split; [exact H2|].
    apply (H3 1%nat d2); [lia | reflexivity | reflexivity | reflexivity].
Defined.

Lemma unknown_key_is_orphan_witness :
  let p := createPackage "C01K" "1234" pending in
  let d := createDetection "det-1" (Some "C99Z") (Some "0000") matched in
  updatedDetections (matchDetections [p] [d]) !! 0%nat =
  Some (setNotes (appendNote d noteOrphan) (setDetStatus orphan d)).
Proof.
  intros p d.
  apply (unknown_key_is_orphan [p] [d] 0%nat d).
  - reflexivity.
  - reflexivity.
  - intros q Hq. apply list_elem_of_singleton in Hq as ->. by vm_compute.
Defined.

Lemma processPhoto_result_witness :
  let new := imap (fun index det =>
                     toDetection (js "photo-1") (sampleUuid index) det)
                  sampleAnswer in
  let r := matchDetections (ss_packages sampleSession)
                           (ss_detections sampleSession ++ new) in
  let s' := processPhoto sampleUuid sampleClock sampleSession sampleSession
                         (js "photo-1") sampleAnswer in
  ss_packages s' = updatedPackages r /\
  ss_detections s' = updatedDetections r /\
  length (ss_detections s') =
    (length (ss_detections sampleSession) + length sampleAnswer)%nat /\
  length (ss_photos s') = length (ss_photos sampleSession) /\
  forall k photo, ss_photos sampleSession !! k = Some photo ->
    photo_id photo = js "photo-1" ->
    ss_photos s' !! k =
    Some (mkPhoto (photo_id photo) (dataUrl photo) (capturedAt photo) true
                  (drop (length (ss_detections sampleSession))
                        (updatedDetections r))).
Proof.
  intros new r.
  apply (processPhoto_result sampleUuid sampleClock sampleSession sampleSession
           (js "photo-1") sampleAnswer).
  apply (bool_decide_unpack _). by vm_compute.
Defined.

Lemma second_photo_turns_matched_into_duplicate_witness :
  let d := matchedWith (createPackage "C01K" "1234" pending) sampleDetection in
  let s1 := processPhoto sampleUuid sampleClock sampleSession sampleSession
                         (js "photo-1") sampleAnswer in
  let s2 := processPhoto sampleUuid2 sampleClock s1 s1 (js "photo-2") [] in
  ss_detections s2 !! 0%nat = Some (setDetStatus duplicate d).
Proof.
  intros d.
  apply (second_photo_turns_matched_into_duplicate sampleUuid sampleUuid2
           sampleClock sampleClock sampleSession (js "photo-1") (js "photo-2")
           sampleAnswer [] 0%nat d).
  - by vm_compute.
  - reflexivity.
Defined.

Lemma handleSave_blank_field_witness :
  let s1 := processPhoto sampleUuid sampleClock sampleSession sampleSession
                         (js "photo-1") sampleAnswer in
  let d := matchedWith (createPackage "C01K" "1234" pending) sampleDetection in
  let s' := handleSave sampleUuid sampleClock s1 d [] (js "1234") [] in
  ss_detections s' !! 0%nat =
    Some (setDetStatus unreadable (savedDetection d [] (js "1234") [])) /\
  forall i p, ss_packages s1 !! i = Some p -> pkg_status p <> pending ->
              ss_packages s' !! i = Some p.
Proof.
  intros s1 d.
  apply (handleSave_blank_field sampleUuid sampleClock s1 d [] (js "1234") [] 0%nat).
  - by vm_compute.
  - by left.
Defined.

Lemma verdicts_and_review_queue_witness :
  let s := processPhoto sampleUuid sampleClock sampleSession sampleSession
                        (js "photo-1") sampleAnswer in
  let d := matchedWith (createPackage "C01K" "1234" pending) sampleDetection in
  let s1 := handleMarkAsError sampleUuid sampleNow s d in
  let s2 := handleConfirmCorrect sampleUuid sampleNow s d in
  markedAsError d ∈ flaggedDetections s1 /\
  (confirmedCorrect d ∈ flaggedDetections s2 <->
   det_status d = orphan \/ det_status d = ambiguous \/ det_status d = unreadable) /\
  ss_packages s1 = ss_packages s /\ ss_packages s2 = ss_packages s.
Proof.
  intros s d.
  apply (verdicts_and_review_queue sampleUuid sampleNow s d).
  apply list_elem_of_lookup. exists 0%nat. by vm_compute.
Defined.

Lemma deleted_photo_keeps_its_packages_witness :
  let s := processPhoto sampleUuid sampleClock sampleSession sampleSession
                        (js "photo-1") sampleAnswer in
  let p := createPackage "C01K" "1234" found in
  let s1 := sessionReducer sampleUuid sampleNow s (DELETE_PHOTO (js "photo-1")) in
  let s2 := processPhoto sampleUuid2 sampleClock s1 s1 (js "photo-2") sampleAnswer in
  ss_packages s1 = ss_packages s /\
  Forall (fun d => photoId d <> js "photo-1") (ss_detections s1) /\
  Forall (fun photo => photo_id photo <> js "photo-1") (ss_photos s1) /\
  ss_detections s2 !! (length (ss_detections s1) + 0)%nat =
    Some (setDetStatus duplicate
            (toDetection (js "photo-2") (sampleUuid2 0)
               (mkAIDetection (js "C01K 1234") (Some (js "C01K"))
                  (Some (js "1234")) None None (Qmake 95 100)
                  (Qmake 1 10, Qmake 1 10, Qmake 3 10, Qmake 2 10) None))).
Proof.
  intros s p.
  apply (deleted_photo_keeps_its_packages sampleUuid sampleUuid2 sampleNow
           sampleClock s (js "photo-1") (js "photo-2") sampleAnswer p 0%nat).
  - apply list_elem_of_lookup. exists 0%nat. by vm_compute.
  - by left.
  - by vm_compute.
  - by vm_compute.
  - reflexivity.
  - reflexivity.
  - reflexivity.
Defined.

Lemma parsePackageList_blank_text_witness :
  parsePackageList sampleUuid sampleNow (js "  " ++ [NEWLINE; 9; NEWLINE]) =
  mkParseResult [] [].
Proof.
  apply (parsePackageList_blank_text sampleUuid sampleNow). by vm_compute.
Defined.

Lemma overlapping_answers_lose_the_first_witness :
  let state := sampleSession in
  let newA := imap (fun index det => toDetection (js "photo-1") (sampleUuid index) det)
                   sampleAnswer in
  let newB := imap (fun index det => toDetection (js "photo-2") (sampleUuid2 index) det)
                   [] in
  let rA := matchDetections (ss_packages state) (ss_detections state ++ newA) in
  let rB := matchDetections (ss_packages state) (ss_detections state ++ newB) in
  let s1 := processPhoto sampleUuid sampleClock state state (js "photo-1")
                         sampleAnswer in
  let s2 := processPhoto sampleUuid2 sampleClock state s1 (js "photo-2") [] in
  ss_packages s2 = updatedPackages rB /\
  ss_detections s2 = updatedDetections rB /\
  forall k photo, ss_photos state !! k = Some photo ->
    photo_id photo = js "photo-1" ->
    ss_photos s2 !! k =
      Some (mkPhoto (photo_id photo) (dataUrl photo) (capturedAt photo) true
                    (drop (length (ss_detections state)) (updatedDetections rA))) /\
    forall d, d ∈ drop (length (ss_detections state)) (updatedDetections rA) ->
              d ∉ ss_detections s2.
Proof.
  intros state newA newB rA rB s1 s2.
  apply (overlapping_answers_lose_the_first sampleUuid sampleUuid2 sampleClock
           sampleClock sampleSession (js "photo-1") (js "photo-2") sampleAnswer []).
  - apply (bool_decide_unpack _). by vm_compute.
  - intros i j Hi Hj. simpl in Hj. lia.
  - by vm_compute.
Defined.

Lemma sessionReducer_unknown_identifier_witness :
  let touched :=
    mkSessionState (ss_packages sampleSession) (ss_photos sampleSession)
                   (ss_detections sampleSession) (sessionId sampleSession)
                   (createdAt sampleSession) (sampleNow 0) in
  sessionReducer sampleUuid sampleNow sampleSession
    (UPDATE_PACKAGE_STATUS (js "no-such-package") found) = touched /\
  sessionReducer sampleUuid sampleNow sampleSession
    (UPDATE_DETECTION sampleDetection) = touched /\
  sessionReducer sampleUuid sampleNow sampleSession
    (DELETE_PHOTO (js "no-such-photo")) = touched /\
  sessionReducer sampleUuid sampleNow sampleSession
    (ADD_DETECTIONS (js "no-such-photo") [sampleDetection]) =
  withDetections [sampleDetection] touched.
Proof.
  intros touched.
  destruct (sessionReducer_unknown_identifier sampleUuid sampleNow sampleSession)
    as (H1 & H2 & H3 & H4).
  split; [|split; [|split]].
  - apply H1. intros H. vm_compute in H.
    apply list_elem_of_singleton in H. discriminate.
  - apply H2; [apply not_elem_of_nil|].
    intros photo Hp. apply list_elem_of_singleton in Hp as ->. apply not_elem_of_nil.
  - apply H3; [|apply not_elem_of_nil].
    intros H. vm_compute in H. apply list_elem_of_singleton in H. discriminate.
  - apply H4.
    intros H. vm_compute in H. apply list_elem_of_singleton in H. discriminate.
Defined.

Lemma legacy_parsePackageList_packages_witness :
  let p := packageCentral in
  let r := Legacy.parsePackageList sampleUuid sampleNow lineCentral in
  pkg_id p = sampleUuid 0 /\ importedAt p = sampleNow 0 /\ pkg_status p = pending /\
  (exists b c d, apartment p = [67; b; c; d] /\ isDigit b = true /\
                 isDigit c = true /\ isUpper d = true) /\
  (4 <= length (fullTracking p))%nat /\
  trackingLast4 p = sliceLast4 (fullTracking p) /\
  recipient p <> [] /\
  forall k' q, packages r !! k' = Some q -> pkgPair q = pkgPair p -> k' = 0%nat.
Proof.
  intros p r.
  apply (legacy_parsePackageList_packages sampleUuid sampleNow lineCentral 0%nat p).
  by vm_compute.
Defined.

Lemma session_keeps_photos_and_detections_in_step_witness :
  let s0 := sampleSession in
  let s1 := processPhoto sampleUuid sampleClock s0 s0 (js "photo-1") sampleAnswer in
  let s2 := processPhoto sampleUuid2 sampleClock s0 s1 (js "photo-2") sampleAnswer in
  NoDup (det_id <$> ss_detections s2) /\
  (forall photo d, photo ∈ ss_photos s2 -> d ∈ photo_detections photo ->
                   photoId d = photo_id photo) /\
  (rtc inOrderStep s0 s2 ->
   forall photo d, photo ∈ ss_photos s2 -> d ∈ photo_detections photo ->
                   d ∈ ss_detections s2).
Proof.
  intros s0 s1 s2.
  apply (session_keeps_photos_and_detections_in_step s0 s2 [s1; s0]).
  - split; [constructor|]. intros photo d Hp Hd.
    apply list_elem_of_singleton in Hp as ->. by apply elem_of_nil in Hd.
  - apply (run_step s0 s0 s1 [s0] s2).
    + apply (run_step s0 s0 s0 [] s1); [apply run_start | by left|].
      apply step_answer. split; [apply (bool_decide_unpack _); by vm_compute|].
      intros k s d Hk Hs Hd. apply list_elem_of_singleton in Hs as ->.
      destruct Hd as [Hd | (photo & Hp & Hd)].
      * by apply elem_of_nil in Hd.
      * apply list_elem_of_singleton in Hp as ->. by apply elem_of_nil in Hd.
    + right. by left.
    + apply step_answer. split; [apply (bool_decide_unpack _); by vm_compute|].
      intros k s d Hk Hs Hd. simpl in Hk. assert (k = 0%nat) as -> by lia.
      apply elem_of_cons in Hs as [-> | Hs].
      * destruct Hd as [Hd | (photo & Hp & Hd)].
        -- vm_compute in Hd. apply list_elem_of_singleton in Hd as ->. by vm_compute.
        -- vm_compute in Hp. apply list_elem_of_singleton in Hp as ->.
           vm_compute in Hd. apply list_elem_of_singleton in Hd as ->. by vm_compute.
      * apply list_elem_of_singleton in Hs as ->.
        destruct Hd as [Hd | (photo & Hp & Hd)].
        -- by apply elem_of_nil in Hd.
        -- apply list_elem_of_singleton in Hp as ->. by apply elem_of_nil in Hd.
Defined.
